(* ===== verification/_CoqProject ===== *)
-Q . S2P
Prelude.v
Heap.v
Value.v
Object.v
Debug.v
Numeric.v
Clear.v
Array.v
Unite.v
UniteTree.v
Invariant.v
