(* ===== verification/Prelude.v ===== *)
(** * QMJsonObject of qmjson: a verification development

    ** The program
    qmjson is a Qt library holding a JSON document in memory.  The file
    under verification, src/src/core/qmjsonobject.cpp, implements
    [QMJsonObject]: a [QHash<QString, QMPointer<QMJsonValue>>] with keyed
    insertion and removal, typed reads and writes of its entries, the
    recursive [clear], the deep merge [unite], and two Qt signals
    ([itemAdded], [itemRemoved]) emitted on every change.  It calls two
    collaborators that are not under src/: [QMJsonValue], a tagged value
    (null, bool, double, string, array, object), and [QMJsonArray].  Every
    value, object and array is held through a reference-counted
    [QMPointer], so one value can be shared by several containers, and a
    write through one handle is seen through all of them.

    ** The files and what they model
    - [Prelude.v] (this file): a state and error monad ([st], [bind] with
      the notation [let* x := c in k] in [qm_scope]), the loop [foreach]
      (a C++ range-for) with its loop rules, the [qmjson] hint database
      and generic lemmas.
    - [Heap.v]: the shared store.  [heap] has one map per kind of cell:
      [h_vals] (the [QMJsonValue] cells, of type [jvalue]), [h_objs] (each
      object's [mHash]), [h_arrs] (each array's list); an allocator
      [h_next]; the process-wide static defaults ([h_null] is the
      [static defaultValue] of [QMJsonObject::value(key)], line 211); and
      [h_log], the signals emitted so far, in order.  A handle
      ([QMPointer]) is a location; a null handle is [None].  The file
      also holds the well-formedness invariant [wf_heap], the document
      graph ([child_of], the depth bound [bounded]) and the interface
      [HashOrder]: every loop over a [QHash] visits its entries in an
      order the code does not control, and theorems hold for every order.
    - [Value.v]: [QMJsonValue]'s contract from the spec (not under src/):
      kind tests, [toX(default)], and [fromValue], the generic [fromX]
      that writes a cell in place and reports a change.
    - [Object.v], [Module QMJsonObject]: every operation of the file
      except [clear] and [unite], one definition each under its source
      name: [count], [isEmpty], [contains], [erase] (the private helper
      that emits [itemRemoved]), [insert], [remove], [take], [value],
      [key], [keys], [values], [isX(key)], [toX(key[, default])] and
      [fromX(key, v)] for bool, double, string, array and object.  The
      default constructor is [construct]; the copy constructor
      [QMJsonObject(hash)] is [alloc_obj] of [Heap.v].
    - [Debug.v], [Module QMJsonDebug]: the two debug printers
      [operator<<] (lines 545-578).  Each is the sequence of items it
      streams into [QDebug]: text, keys, and value handles.
    - [Numeric.v], [Module QMJsonObjectNumeric]: the 33 numeric
      accessors [toFloat(key)] ... [toULongLong(key)], with and without a
      default, and [fromFloat(key, v)] ... [fromULongLong(key, v)] (lines
      349-457, 484-537).  The conversions are [QMJsonValue]'s: the class
      [QMJsonValueNumbers] states them, and [qmjson_value_numbers] is one
      instance from the spec (a number is held as a double).
    - [Clear.v]: [QMJsonObject::clear] and [QMJsonArray::clear] (from the
      spec), one fixpoint [clear_container] over a container.
    - [Array.v]: the class [ArrayUnite], what [unite] requires of
      [QMJsonArray::unite] (it replaces the receiver's list, and touches
      nothing else), with one instance.
    - [Unite.v]: [QMJsonObject::unite], generic in [HashOrder] and
      [ArrayUnite].
    - [UniteTree.v]: the abstract view of a document as a JSON tree
      ([jtree], objects as [gmap string jtree], arrays as handles), read
      from the heap by [tread] with its footprint [tfoot]; the pure deep
      merge [tmerge]; and [unite_body], the loop body of [unite] (lines
      137-160), equal to it by [unite_S_body].
    - [Invariant.v]: the spec's object invariant [keys_nonempty] (no
      object maps the empty key) and [op_step], one returning call of the
      mutating surface (default constructor, [insert], [remove], [take],
      [take(key, default)], [fromX], [clear], [unite]) on any object of
      the heap.  The copy constructor is left out: it breaks the invariant.

    ** What is proved
    Signals that pass through [erase] are stated through [observe]
    ([Heap.v]): line 542 reads the key and handle of [itemRemoved] from
    the node [mHash.erase] has just freed, so a theorem only fixes the
    emitting object of an [itemRemoved].  Likewise no theorem fixes the
    handle [take(key)] returns for a present key (line 183), and the
    merge theorems assume [this] and [other] are distinct objects (line
    155 hands [insert] a reference into the hash it erases from when
    they are not).
    - Each operation of [Object.v] on every branch: the resulting maps
      and the signals emitted, in order ([insert_replace_present]: an
      [itemRemoved] then [itemAdded]; [insert_ignore_present]: nothing;
      [insert_null_handle]: a fresh Null value; [remove_present]:
      [remove] and [take] delete the key with one [itemRemoved]).
    - The shared default value: [fromBool(key, b)] on a missing key
      creates no entry.  It writes the process-wide default, after which
      every missing key of every object reads [b]
      ([fromBool_absent_shared]).  This refutes the spec's [toDouble(K,
      3.5)] example ([toDouble_default_after_sentinel_write]).
    - [insert] of a new key then [remove] restores every map and sends
      [itemAdded] then one [itemRemoved] ([insert_remove_roundtrip]).
    - The kind tests: for a present key exactly one of [isNull(key)] ...
      [isObject(key)] is true; for a missing key none is
      ([kind_tests_partition]).
    - The copy constructor does not keep the spec's invariant that keys
      are non-empty (the example [construct_hash_keeps_empty_key]).
    - The debug printer produces the spec's diagnostic form
      [QMJsonObject{k:v,k2:v2}] with no trailing comma, in the hash's
      order, and changes nothing ([print_object_spec]).  The proof shows
      that the loop with its [started] flag equals a reference join.
    - The numeric accessors: a numeric [fromX] on a missing key writes
      the shared default, and every numeric read of any missing key, at
      any type, then sees it ([fromNumber_absent_shared]).  A write then
      read through any alias of a value cell round-trips whenever the
      conversion does ([fromNumber_toNumber_present]).  With the double
      payload, all 8- and 16-bit values round-trip, checked exhaustively
      ([small_int_accessors_roundtrip]), while a [long long] above 2^53
      does not (the example [longlong_precision_loss]).
    - [clear] terminates when the fuel exceeds the document's depth.  It
      empties exactly the containers reachable from the object and
      preserves [wf_heap] ([clear_terminates_and_empties]).  From each
      reachable object it sends as many [itemRemoved] as the object had
      entries, and no other signal, even when sub-objects are shared
      ([clear_notifies_each_entry_once], by counting with [removed_from]).  It sends them bottom-up: a
      sub-object's removals come before any removal of an ancestor
      ([clear_notifies_bottom_up]).  On a
      self-containing object it diverges for every fuel
      ([clear_cyclic_diverges]).
    - [unite] without nested conflicts computes the pure map [unite_map]
      ([unite_shallow]): the policy decides conflicts, a missing key is
      inserted under either policy, and the empty key is dropped.  Its
      signals are those of the inserts ([unite_events]).  The examples
      [unite_nested_example] (the spec's recursive merge) and
      [unite_order_dependent] (with a shared sub-object the result
      depends on the iteration order) run on fixed documents.  A self-containing document makes it
      diverge ([unite_cyclic_diverges]).  Without any cycle, when [this]
      and [other] share a sub-object, [unite] can store an object's
      handle into itself (the example [unite_creates_cycle]).  Under another
      iteration order, the same call then recurses into that cycle
      forever ([unite_acyclic_diverges]).
    - [unite] refines the pure merge of trees ([unite_refines_tmerge]).
      Take two disjoint tree-shaped documents: no object is reached twice
      and [this] has no empty key.  Read at depth [n], they give [t1] and
      [t2].  Then [unite] with fuel [n] returns, whatever the iteration
      order and whatever [QMJsonArray::unite] satisfies [ArrayUnite].
      Afterwards [this] reads as [tmerge p t1 t2] and [other] still reads
      as [t2].  No value cell changes, and no object outside [this]'s
      document changes.  Every object of the result comes from one of the
      two documents, and the only arrays that may change are those the
      objects of [this] hold ([afoot]).  The proof is by induction on the fuel.  The
      invariant of the key loop, [key_inv], says which keys are merged,
      and a frame lemma ([tread_frame]) carries each read across the
      steps.
    - The invariant holds along every interleaving of calls
      ([ops_preserve_invariant]): by induction on [rtc op_step], from
      per-operation lemmas and the generic [unite_inv] and
      [clear_container_inv], which carry any property that [insert] or
      [remove] keeps through the whole recursion.
    - Composition: when [B] holds a sub-object under a key [A] lacks,
      [A.unite(B)] stores [B]'s own handle in [A], and a later [A.clear()]
      with enough fuel empties that sub-object, which [B] still holds
      ([unite_then_clear_empties_other]).

    ** Fuel
    [clear_container] and [unite] recurse on nested containers, and a
    document built through shared handles may contain itself.  So each
    takes a fuel argument, one unit per level of recursion, and fails
    with [OutOfFuel] when it runs out.  [bounded n h c] checks that every
    path below [c] has fewer than [n] containers.  With such an [n] as
    fuel, [clear] provably returns, so the bound suffices.  For [unite]
    the bound is the depth [n] at which [tread] reads [this] and
    [other]: fuel [n] suffices.  The cyclic examples fail for every
    fuel.  That is the model's image of the C++
    stack overflow.

    ** What is not modelled, and why
    - [reserve], [capacity], [squeeze] (lines 46-59): capacity hints of
      [QHash] with no effect on the contents.
    - [QMJsonValue]'s numeric conversions themselves: not under src/.
      The accessors are proved for every implementation.  The 32- and
      64-bit round trips are not proved, because an exhaustive check is
      out of reach and the Standard Library has no lemmas on the exactness
      of [binary_normalize].
    - The destructor (lines 37-39) is empty.  Memory release is not
      modelled: a handle stays valid as long as the heap holds it.
    - The text [QDebug] makes of a key or of a value handle: that is Qt's
      formatting and [QMJsonValue]'s printer, neither under src/.
    - The reads of an erased node.  [erase] (line 542) and [take] (lines
      183, 195) read the iterator after [mHash.erase(iter)].  [unite]
      passes [insert] a reference into [object]'s hash, which [insert]
      may erase first (lines 141, 155 with 109).  The model reads the
      entry as it was before the erase, so that it runs; no claim depends
      on the values so read (see [observe] above).  These are reported as
      findings.
    - The spec's parser, serializer and document wrapper: not in src/.

    ** Further work
    The tree view keeps arrays as handles.  The contents of a merged
    array are [ArrayUnite]'s contract, not part of [tmerge].  Arrays held
    by both documents are not excluded by the tree condition, so [other]
    reading as [t2] does not mean its arrays' contents are unchanged
    ([unite_shared_array_changes_other]).  The
    examples above show that sharing rules out the refinement in
    general. *)

From stdpp Require Import base gmap strings list.

(** ** Locations and errors

    Every C++ object handle ([QMPointer<T>]) is a location of the shared
    heap of [Heap.v].  A model operation fails only when it dereferences a
    location that holds no cell of the expected kind (which the C++ code
    would do as undefined behaviour) or when it runs out of the fuel that
    bounds its recursion. *)

Abbreviation loc := positive.

Inductive qerr :=
| OutOfFuel
| BadLoc (l : loc).

Inductive result (A : Type) :=
| Ok (a : A)
| Err (e : qerr).
Arguments Ok {A} a.
Arguments Err {A} e.

#[export] Instance qerr_eq_dec : EqDecision qerr.
Proof. solve_decision. Defined.

(** ** A state and error monad *)

Definition st (S A : Type) : Type := S -> result (A * S).

Definition ret {S A} (a : A) : st S A := fun s => Ok (a, s).

Definition bind {S A B} (c : st S A) (k : A -> st S B) : st S B :=
  fun s => match c s with
           | Ok (a, s') => k a s'
           | Err e => Err e
           end.

Definition throw {S A} (e : qerr) : st S A := fun _ => Err e.

Definition gets {S A} (f : S -> A) : st S A := fun s => Ok (f s, s).

Definition modify {S} (f : S -> S) : st S unit := fun s => Ok (tt, f s).

Declare Scope qm_scope.
Delimit Scope qm_scope with qm.
Open Scope qm_scope.

Notation "'let*' x ':=' c 'in' k" := (bind c (fun x => k))
  (at level 10, x name, c at level 200, k at level 200) : qm_scope.
Notation "'let*' ' p ':=' c 'in' k" := (bind c (fun x => match x with p => k end))
  (at level 10, p pattern, c at level 200, k at level 200) : qm_scope.

(** A C++ range-for over a list whose body returns nothing. *)
Fixpoint foreach {S A} (f : A -> st S unit) (xs : list A) : st S unit :=
  match xs with
  | [] => ret tt
  | x :: xs' => let* _ := f x in foreach f xs'
  end.

(** ** Automation *)

Create HintDb qmjson discriminated.
Create Rewrite HintDb qm_rw.

Section MonadLemmas.
Context {S : Type}.

Lemma bind_ok {A B} (c : st S A) (k : A -> st S B) s a s' :
  c s = Ok (a, s') -> bind c k s = k a s'.
Proof. unfold bind. by intros ->. Qed.

Lemma bind_err {A B} (c : st S A) (k : A -> st S B) s e :
  c s = Err e -> bind c k s = Err e.
Proof. unfold bind. by intros ->. Qed.

Lemma bind_ret {A B} (a : A) (k : A -> st S B) s : bind (ret a) k s = k a s.
Proof. reflexivity. Qed.

Lemma bind_assoc {A B C} (c : st S A) (k1 : A -> st S B) (k2 : B -> st S C) s :
  bind (bind c k1) k2 s = bind c (fun a => bind (k1 a) k2) s.
Proof. unfold bind. destruct (c s) as [[a s']|e]; reflexivity. Qed.

Lemma bind_inv {A B} (c : st S A) (k : A -> st S B) s r :
  bind c k s = Ok r -> exists a s', c s = Ok (a, s') /\ k a s' = Ok r.
Proof. unfold bind. destruct (c s) as [[a s']|e]; [eauto|discriminate]. Qed.

Lemma bind_ext {A B} (c : st S A) (k1 k2 : A -> st S B) s :
  (forall a s', k1 a s' = k2 a s') -> bind c k1 s = bind c k2 s.
Proof. intros Hk. unfold bind. destruct (c s) as [[a s']|e]; auto. Qed.

Lemma bind_congr_l {A B} (c1 c2 : st S A) (k : A -> st S B) s :
  c1 s = c2 s -> bind c1 k s = bind c2 k s.
Proof. unfold bind. by intros ->. Qed.

Lemma foreach_ext {A} (f g : A -> st S unit) xs s :
  (forall x s', f x s' = g x s') -> foreach f xs s = foreach g xs s.
Proof.
  intros Hfg. revert s. induction xs as [|x xs IH]; intros s; [done|].
  simpl. rewrite (bind_ext _ _ (fun _ => foreach g xs)) by auto.
  unfold bind. by rewrite Hfg.
Qed.

Lemma foreach_map {A B} (f : B -> st S unit) (g : A -> B) xs s :
  foreach (fun x => f (g x)) xs s = foreach f (map g xs) s.
Proof.
  revert s. induction xs as [|x xs IH]; intros s; [done|].
  simpl. by apply bind_ext.
Qed.

Lemma foreach_app {A} (f : A -> st S unit) xs ys s :
  foreach f (xs ++ ys) s = bind (foreach f xs) (fun _ => foreach f ys) s.
Proof.
  revert s. induction xs as [|x xs IH]; intros s; [reflexivity|].
  simpl. rewrite bind_assoc. specialize (IH).
  unfold bind in *. destruct (f x s) as [[[] s']|e]; [apply IH|reflexivity].
Qed.

(** The loop rule: an invariant indexed by the processed prefix, which
    each iteration extends by one element. *)
Lemma foreach_rule {A} (I : list A -> S -> Prop) (f : A -> st S unit) xs s :
  I [] s ->
  (forall pre x post s1, xs = pre ++ x :: post -> I pre s1 ->
     exists s2, f x s1 = Ok (tt, s2) /\ I (pre ++ [x]) s2) ->
  exists s', foreach f xs s = Ok (tt, s') /\ I xs s'.
Proof.
  intros H0 Hstep.
  enough (forall pre post s1, xs = pre ++ post -> I pre s1 ->
            exists s', foreach f post s1 = Ok (tt, s') /\ I xs s') as Hgen.
  { by apply (Hgen [] xs s). }
  intros pre post. revert pre. induction post as [|x post IH]; intros pre s1 Hxs HI.
  - exists s1. rewrite app_nil_r in Hxs. subst. by split.
  - destruct (Hstep pre x post s1 Hxs HI) as (s2 & Hf & HI2).
    destruct (IH (pre ++ [x]) s2) as (s' & Hrun & HI'); [by rewrite <-app_assoc|done|].
    exists s'. simpl. by rewrite (bind_ok _ _ _ _ _ Hf).
Qed.

(** A run that returns, together with a property of every returning
    run, gives a returning run with the property. *)
Lemma run_post {A} (c : st S A) s (P : A -> S -> Prop) :
  (exists a s', c s = Ok (a, s')) -> (forall a s', c s = Ok (a, s') -> P a s') ->
  exists a s', c s = Ok (a, s') /\ P a s'.
Proof. intros (a & s' & H) HP. exists a, s'. auto. Qed.

(** The same rule read backwards: what holds after a successful loop. *)
Lemma foreach_ok_inv {A} (I : list A -> S -> Prop) (f : A -> st S unit) xs s s' :
  I [] s ->
  (forall pre x post s1 s2, xs = pre ++ x :: post -> I pre s1 ->
     f x s1 = Ok (tt, s2) -> I (pre ++ [x]) s2) ->
  foreach f xs s = Ok (tt, s') -> I xs s'.
Proof.
  intros H0 Hstep.
  enough (forall pre post s1, xs = pre ++ post -> I pre s1 ->
            foreach f post s1 = Ok (tt, s') -> I xs s') as Hgen.
  { by apply (Hgen [] xs s). }
  intros pre post. revert pre. induction post as [|x post IH]; intros pre s1 Hxs HI Hrun.
  - rewrite app_nil_r in Hxs. subst. simpl in Hrun. by injection Hrun as <-.
  - simpl in Hrun. apply bind_inv in Hrun as ([] & s2 & Hf & Hrun).
    apply (IH (pre ++ [x]) s2); [by rewrite <-app_assoc|by eapply Hstep|done].
Qed.
End MonadLemmas.

#[export] Hint Rewrite @bind_ret @bind_assoc : qm_rw.

(** [qm_run H] rewrites the first step of a [bind] in the goal with a
    hypothesis [H : c s = Ok (a, s')]. *)
Ltac qm_run H := rewrite (bind_ok _ _ _ _ _ H).


(** ** Generic lemmas on options and maps *)

(** Two updates of an optional cell, each either resetting it to [a] or
    keeping it, at least one resetting: the result is reset. *)
Lemma const_fmap_steps {A} (a : A) (x y z : option A) :
  (y = (fun _ => a) <$> x \/ y = x) -> (z = (fun _ => a) <$> y \/ z = y) ->
  (y = (fun _ => a) <$> x \/ z = (fun _ => a) <$> y) -> z = (fun _ => a) <$> x.
Proof. destruct x; intros [->| ->] [->| ->]; simpl; intros [?|?]; congruence. Qed.

Lemma lookup_union_delete_l {K A} `{Countable K} (m1 m2 : gmap K A) k k' :
  k' ≠ k -> (delete k m2 ∪ m1) !! k' = (m2 ∪ m1) !! k'.
Proof. intros Hne. by rewrite !lookup_union, lookup_delete_ne by congruence. Qed.

Lemma forallb_ext_in {A} (f g : A -> bool) (l : list A) :
  (forall x, x ∈ l -> f x = g x) -> forallb f l = forallb g l.
Proof.
  induction l as [|x l IH]; intros Hfg; simpl; [done|].
  rewrite (Hfg x), IH; [done| |set_solver]. intros y Hy. apply Hfg. set_solver.
Qed.

(** The parts of a duplicate-free concatenation are duplicate-free and
    pairwise disjoint. *)
Lemma NoDup_concat_fmap_inv {A B} (f : A -> list B) (xs : list A) :
  NoDup (concat (f <$> xs)) ->
  (forall x, x ∈ xs -> NoDup (f x)) /\
  (forall i j x y z, i <> j -> xs !! i = Some x -> xs !! j = Some y -> z ∈ f x -> z ∈ f y -> False).
Proof.
  induction xs as [|x xs IH]; simpl; [split; [set_solver|by intros []]|].
  intros (Hx & Hdisj & Hrest)%NoDup_app. destruct (IH Hrest) as [IH1 IH2]. split.
  - intros y [->|Hy]%elem_of_cons; auto.
  - assert (Hin : forall j y z, xs !! j = Some y -> z ∈ f y -> z ∈ concat (f <$> xs)).
    { intros j y z Hj Hz. apply list_elem_of_In, in_concat. exists (f y).
      split; [|by apply list_elem_of_In]. apply list_elem_of_In, list_elem_of_fmap.
      exists y. split; [done|]. by eapply list_elem_of_lookup_2. }
    intros [|i] [|j] y1 y2 z Hij Hi Hj Hz1 Hz2; simplify_eq/=;
      first [ congruence
            | by eapply (IH2 i j); [congruence|..]
            | by eapply Hdisj; [exact Hz1|eapply Hin]
            | by eapply Hdisj; [exact Hz2|eapply Hin] ].
Qed.
