(* ===== verification/Heap.v ===== *)
(** * The shared heap of JSON values, objects and arrays

    qmjson holds every [QMJsonValue], [QMJsonObject] and [QMJsonArray]
    behind a reference-counted handle [QMPointer<T>], so one value may be
    reachable from several containers and a mutation through one handle is
    visible through all of them.  This file models that store: a heap with
    one map per kind of cell, the allocator, the signal log of the objects,
    the well-formedness invariant and the primitive reads and writes the
    operations of [Object.v] are written with.  It also declares the
    interface [HashOrder] for the iteration order of [QHash]. *)

From stdpp Require Import base gmap strings list.
From Stdlib Require Import Floats.
From S2P Require Import Prelude.

(** ** Values

    [jvalue] is the payload of a [QMJsonValue] cell (spec, section 3): the
    class itself is not under [src/]; its kinds are the six the spec
    lists.  Numbers are IEEE doubles ([PrimFloat.float]); an array or
    object payload is the handle of its container. *)
Inductive jvalue :=
| VNull
| VBool (b : bool)
| VDouble (d : float)
| VString (s : string)
| VArray (a : loc)
| VObject (o : loc).

(** ** Signals

    The two Qt signals of [QMJsonObject]: [itemAdded(key, value)] and
    [itemRemoved(key, value)].  The emitting object is recorded, since an
    observer connects to one object. *)
Inductive event :=
| ItemAdded (o : loc) (key : string) (v : loc)
| ItemRemoved (o : loc) (key : string) (v : loc).

#[export] Instance event_eq_dec : EqDecision event.
Proof. solve_decision. Defined.

(** What an observer can rely on in a signal.  [erase] (line 542) builds
    [itemRemoved(iter.key(), iter.value())] after [mHash.erase(iter)] has
    freed the node, so only the emitting object of an [itemRemoved] is
    defined; an [itemAdded] carries the key and the handle it stored.
    Theorems about signals that pass through [erase] are stated through
    [observe]. *)
Inductive signal :=
| SigAdded (o : loc) (key : string) (v : loc)
| SigRemoved (o : loc).

#[export] Instance signal_eq_dec : EqDecision signal.
Proof. solve_decision. Defined.

Definition observe (ev : event) : signal :=
  match ev with
  | ItemAdded o k v => SigAdded o k v
  | ItemRemoved o _ _ => SigRemoved o
  end.

(** ** The heap

    [h_null] is the [static defaultValue] of [QMJsonObject::value(key)]
    (a process-wide [QMJsonValue], modelled as allocated in the initial
    heap); [h_noarr] and [h_noobj] are the empty default containers that
    [QMJsonValue::toArray()] and [toObject()] return by reference when the
    kind does not match (spec, section 4.1). *)
Record heap := mkHeap {
  h_vals : gmap loc jvalue;
  h_objs : gmap loc (gmap string loc);
  h_arrs : gmap loc (list loc);
  h_next : loc;
  h_null : loc;
  h_noarr : loc;
  h_noobj : loc;
  h_log : list event;
}.

Definition set_vals (f : gmap loc jvalue -> gmap loc jvalue) (h : heap) : heap :=
  mkHeap (f (h_vals h)) (h_objs h) (h_arrs h) (h_next h) (h_null h) (h_noarr h) (h_noobj h) (h_log h).
Definition set_objs (f : gmap loc (gmap string loc) -> gmap loc (gmap string loc)) (h : heap) : heap :=
  mkHeap (h_vals h) (f (h_objs h)) (h_arrs h) (h_next h) (h_null h) (h_noarr h) (h_noobj h) (h_log h).
Definition set_arrs (f : gmap loc (list loc) -> gmap loc (list loc)) (h : heap) : heap :=
  mkHeap (h_vals h) (h_objs h) (f (h_arrs h)) (h_next h) (h_null h) (h_noarr h) (h_noobj h) (h_log h).
Definition set_next (n : loc) (h : heap) : heap :=
  mkHeap (h_vals h) (h_objs h) (h_arrs h) n (h_null h) (h_noarr h) (h_noobj h) (h_log h).
Definition add_log (ev : event) (h : heap) : heap :=
  mkHeap (h_vals h) (h_objs h) (h_arrs h) (h_next h) (h_null h) (h_noarr h) (h_noobj h) (h_log h ++ [ev]).

Abbreviation M := (st heap).

(** ** Primitive operations *)

Definition load_val (l : loc) : M jvalue := fun h =>
  match h_vals h !! l with Some v => Ok (v, h) | None => Err (BadLoc l) end.

Definition store_val (l : loc) (v : jvalue) : M unit := fun h =>
  match h_vals h !! l with
  | Some _ => Ok (tt, set_vals (insert l v) h)
  | None => Err (BadLoc l)
  end.

Definition load_obj (o : loc) : M (gmap string loc) := fun h =>
  match h_objs h !! o with Some m => Ok (m, h) | None => Err (BadLoc o) end.

Definition store_obj (o : loc) (m : gmap string loc) : M unit := fun h =>
  match h_objs h !! o with
  | Some _ => Ok (tt, set_objs (insert o m) h)
  | None => Err (BadLoc o)
  end.

Definition load_arr (a : loc) : M (list loc) := fun h =>
  match h_arrs h !! a with Some xs => Ok (xs, h) | None => Err (BadLoc a) end.

Definition store_arr (a : loc) (xs : list loc) : M unit := fun h =>
  match h_arrs h !! a with
  | Some _ => Ok (tt, set_arrs (insert a xs) h)
  | None => Err (BadLoc a)
  end.

(** [new QMJsonValue(v)]: a fresh cell at the allocator's next location. *)
Definition alloc_val (v : jvalue) : M loc := fun h =>
  let l := h_next h in Ok (l, set_next (Pos.succ l) (set_vals (insert l v) h)).

(** [new QMJsonObject(hash)] (the constructors of qmjsonobject.cpp). *)
Definition alloc_obj (m : gmap string loc) : M loc := fun h =>
  let o := h_next h in Ok (o, set_next (Pos.succ o) (set_objs (insert o m) h)).

Definition alloc_arr (xs : list loc) : M loc := fun h =>
  let a := h_next h in Ok (a, set_next (Pos.succ a) (set_arrs (insert a xs) h)).

(** [emit sig(...)]: a Qt direct connection runs the observers before
    [emit] returns; the log records the signals in that order. *)
Definition emit (ev : event) : M unit := modify (add_log ev).

(** ** Well-formedness

    Every cell lies below the allocator's next location, every handle a
    cell holds points to a cell of the right kind, and the three static
    defaults exist. *)
Definition val_refs_ok (h : heap) (v : jvalue) : Prop :=
  match v with
  | VArray a => is_Some (h_arrs h !! a)
  | VObject o => is_Some (h_objs h !! o)
  | _ => True
  end.

#[export] Instance val_refs_ok_dec h v : Decision (val_refs_ok h v).
Proof. destruct v; simpl; apply _. Defined.

Definition wf_heap (h : heap) : Prop :=
  map_Forall (fun l v => (l < h_next h)%positive /\ val_refs_ok h v) (h_vals h) /\
  map_Forall (fun o m => (o < h_next h)%positive /\
                         map_Forall (fun _ l => is_Some (h_vals h !! l)) m) (h_objs h) /\
  map_Forall (fun a xs => (a < h_next h)%positive /\
                          Forall (fun l => is_Some (h_vals h !! l)) xs) (h_arrs h) /\
  is_Some (h_vals h !! h_null h) /\
  is_Some (h_arrs h !! h_noarr h) /\
  is_Some (h_objs h !! h_noobj h).

#[export] Instance wf_heap_dec h : Decision (wf_heap h).
Proof. unfold wf_heap. apply _. Defined.

(** The heap a program starts from: the three static defaults. *)
Definition init_heap : heap :=
  mkHeap {[1%positive := VNull]} {[3%positive := ∅]} {[2%positive := []]}
         4%positive 1%positive 2%positive 3%positive [].

(** ** The iteration order of [QHash]

    [QHash] iterates its entries in an order fixed by its bucket layout,
    which the code does not control.  Every loop of qmjsonobject.cpp over
    a hash ([keys()], [values()], range-for, [QHash::key]) is modelled
    through one [hash_order], which may be any enumeration of the entries:
    theorems are proved for every instance. *)
Class HashOrder := {
  hash_order : gmap string loc -> list (string * loc);
  hash_order_perm : forall m, hash_order m ≡ₚ map_to_list m
}.

(** Two instances, used by the concrete examples: stdpp's own order and
    its reverse. *)
Definition stdpp_order : HashOrder :=
  {| hash_order := map_to_list; hash_order_perm := fun m => reflexivity _ |}.

Definition reverse_order : HashOrder.
Proof.
  refine {| hash_order := fun m => rev (map_to_list m) |}.
  intros m. symmetry. apply Permutation_rev.
Defined.

(** ** Containers and the document graph

    A container is an object or an array; [child_of h c c'] holds when a
    value stored in [c] holds the handle of [c'].  [bounded n h c] checks
    that every container below [c] exists and that every path from [c]
    has fewer than [n] containers: the structure under [c] is finite and
    acyclic, and [n] bounds the recursion depth of [clear] and [unite]. *)
Inductive container :=
| CObj (o : loc)
| CArr (a : loc).

#[export] Instance container_eq_dec : EqDecision container.
Proof. solve_decision. Defined.

Definition val_container (v : jvalue) : option container :=
  match v with
  | VObject o => Some (CObj o)
  | VArray a => Some (CArr a)
  | _ => None
  end.

(** The handles a container holds, in map or list order. *)
Definition contents (h : heap) (c : container) : option (list loc) :=
  match c with
  | CObj o => (fun m => (map_to_list m).*2) <$> h_objs h !! o
  | CArr a => h_arrs h !! a
  end.

Definition child_of (h : heap) (c c' : container) : Prop :=
  exists ls l v, contents h c = Some ls /\ l ∈ ls /\ h_vals h !! l = Some v /\
                 val_container v = Some c'.

Fixpoint bounded (n : nat) (h : heap) (c : container) : bool :=
  match n with
  | O => false
  | S n' =>
      match contents h c with
      | None => false
      | Some ls =>
          forallb (fun l => match h_vals h !! l with
                            | None => false
                            | Some v => match val_container v with
                                        | None => true
                                        | Some c' => bounded n' h c'
                                        end
                            end) ls
      end
  end.

Definition container_empty (h : heap) (c : container) : Prop := contents h c = Some [].

(** [h'] differs from [h] at most in its objects' maps and its log. *)
Definition same_but_objs (h h' : heap) : Prop :=
  h_vals h' = h_vals h /\ h_arrs h' = h_arrs h /\ h_next h' = h_next h /\
  h_null h' = h_null h /\ h_noarr h' = h_noarr h /\ h_noobj h' = h_noobj h.

(** A heap [h'] extends [h] when it has at least its cells, the same
    static defaults and an allocator no lower: every per-cell condition
    of [wf_heap] carries over. *)
Definition extends (h h' : heap) : Prop :=
  (forall l, is_Some (h_vals h !! l) -> is_Some (h_vals h' !! l)) /\
  (forall o, is_Some (h_objs h !! o) -> is_Some (h_objs h' !! o)) /\
  (forall a, is_Some (h_arrs h !! a) -> is_Some (h_arrs h' !! a)) /\
  (h_next h <= h_next h')%positive /\
  h_null h' = h_null h /\ h_noarr h' = h_noarr h /\ h_noobj h' = h_noobj h.


(** [qm_unfold] turns a run of the monad on a heap into the matches on
    the heap's maps it performs; [simplify_map_eq] then resolves them
    from the lookup hypotheses in context. *)
Ltac qm_unfold :=
  unfold emit, bind, ret, gets, modify, throw, load_val, load_obj, load_arr,
    store_val, store_obj, store_arr, alloc_val, alloc_obj, alloc_arr,
    add_log, set_objs, set_vals, set_arrs, set_next in *; simpl in *.

Ltac qm_crush := qm_unfold; simplify_map_eq; try reflexivity.

(** [qm_inv] opens a run of the monad in a hypothesis [Ok = ...] and
    splits it on every lookup it performed, keeping the heap updates
    folded so that the step lemmas of the [qmjson] database apply. *)
Ltac qm_open :=
  unfold emit, bind, ret, gets, modify, throw, load_val, load_obj, load_arr,
    store_val, store_obj, store_arr, alloc_val, alloc_obj, alloc_arr in *.

Ltac qm_inv := qm_open; repeat (case_match; simplify_map_eq/=).

(** ** Lemmas on the primitives *)

Section Primitives.
Implicit Types (h : heap) (o a l : loc).

Lemma load_val_ok h l v : h_vals h !! l = Some v -> load_val l h = Ok (v, h).
Proof. unfold load_val. by intros ->. Qed.

Lemma load_obj_ok h o m : h_objs h !! o = Some m -> load_obj o h = Ok (m, h).
Proof. unfold load_obj. by intros ->. Qed.

Lemma load_arr_ok h a xs : h_arrs h !! a = Some xs -> load_arr a h = Ok (xs, h).
Proof. unfold load_arr. by intros ->. Qed.

Lemma store_val_ok h l v :
  is_Some (h_vals h !! l) -> store_val l v h = Ok (tt, set_vals (insert l v) h).
Proof. unfold store_val. by intros [? ->]. Qed.

Lemma store_obj_ok h o m :
  is_Some (h_objs h !! o) -> store_obj o m h = Ok (tt, set_objs (insert o m) h).
Proof. unfold store_obj. by intros [? ->]. Qed.

Lemma store_arr_ok h a xs :
  is_Some (h_arrs h !! a) -> store_arr a xs h = Ok (tt, set_arrs (insert a xs) h).
Proof. unfold store_arr. by intros [? ->]. Qed.

Lemma val_refs_ok_extends h h' v : extends h h' -> val_refs_ok h v -> val_refs_ok h' v.
Proof. intros (_ & Ho & Ha & _). destruct v; simpl; auto. Qed.

Lemma wf_next_fresh_val h : wf_heap h -> h_vals h !! h_next h = None.
Proof.
  intros (Hv & _). destruct (h_vals h !! h_next h) eqn:E; [|done].
  destruct (Hv _ _ E). lia.
Qed.

Lemma wf_next_fresh_obj h : wf_heap h -> h_objs h !! h_next h = None.
Proof.
  intros (_ & Ho & _). destruct (h_objs h !! h_next h) eqn:E; [|done].
  destruct (Ho _ _ E). lia.
Qed.

Lemma wf_next_fresh_arr h : wf_heap h -> h_arrs h !! h_next h = None.
Proof.
  intros (_ & _ & Ha & _). destruct (h_arrs h !! h_next h) eqn:E; [|done].
  destruct (Ha _ _ E). lia.
Qed.

Lemma wf_obj_entry h o m k l :
  wf_heap h -> h_objs h !! o = Some m -> m !! k = Some l -> is_Some (h_vals h !! l).
Proof. intros (_ & Ho & _) Hm Hk. exact (proj2 (Ho _ _ Hm) _ _ Hk). Qed.

Lemma wf_val_refs h l v : wf_heap h -> h_vals h !! l = Some v -> val_refs_ok h v.
Proof. intros (Hv & _) Hl. exact (proj2 (Hv _ _ Hl)). Qed.

Lemma wf_null h : wf_heap h -> is_Some (h_vals h !! h_null h).
Proof. intros (_ & _ & _ & Hn & _). exact Hn. Qed.

Lemma wf_store_val h l v :
  wf_heap h -> is_Some (h_vals h !! l) -> val_refs_ok h v ->
  wf_heap (set_vals (insert l v) h).
Proof.
  intros (Hv & Ho & Ha & Hn & Hna & Hno) Hl Hok. destruct Hl as [v0 Hl].
  assert (Hlt : (l < h_next h)%positive) by (apply (Hv _ _ Hl)).
  split_and!; simpl.
  - apply map_Forall_insert_2; [done|]. intros l' v' Hl'. apply (Hv _ _ Hl').
  - intros o m Hm. split; [apply (Ho _ _ Hm)|].
    intros k l' Hk. rewrite lookup_insert. case_decide; [done|]. apply (proj2 (Ho _ _ Hm) _ _ Hk).
  - intros a xs Hxs. split; [apply (Ha _ _ Hxs)|].
    eapply Forall_impl; [apply (Ha _ _ Hxs)|]. intros l' ?.
    rewrite lookup_insert. case_decide; [done|done].
  - rewrite lookup_insert. case_decide; [done|done].
  - done.
  - done.
Qed.

Lemma wf_store_obj h o m :
  wf_heap h -> is_Some (h_objs h !! o) ->
  map_Forall (fun _ l => is_Some (h_vals h !! l)) m ->
  wf_heap (set_objs (insert o m) h).
Proof.
  intros (Hv & Ho & Ha & Hn & Hna & Hno) [m0 Ho0] Hm.
  assert (Hlt : (o < h_next h)%positive) by (apply (Ho _ _ Ho0)).
  split_and!; simpl; [| |done|done|done|].
  - intros l v Hl. split; [apply (Hv _ _ Hl)|].
    destruct v; simpl; try done; [apply (Hv _ _ Hl)|].
    rewrite lookup_insert. case_decide; [done|apply (Hv _ _ Hl)].
  - apply map_Forall_insert_2; [done|]. done.
  - rewrite lookup_insert. case_decide; [done|done].
Qed.

Lemma wf_store_arr h a xs :
  wf_heap h -> is_Some (h_arrs h !! a) ->
  Forall (fun l => is_Some (h_vals h !! l)) xs ->
  wf_heap (set_arrs (insert a xs) h).
Proof.
  intros (Hv & Ho & Ha & Hn & Hna & Hno) [xs0 Ha0] Hxs.
  assert (Hlt : (a < h_next h)%positive) by (apply (Ha _ _ Ha0)).
  split_and!; simpl; [| exact Ho | | done | | done].
  - intros l v Hl. split; [apply (Hv _ _ Hl)|].
    destruct v; simpl; try done; [|apply (Hv _ _ Hl)].
    rewrite lookup_insert. case_decide; [done|apply (Hv _ _ Hl)].
  - apply map_Forall_insert_2; [done|]. done.
  - rewrite lookup_insert. case_decide; [done|done].
Qed.

Lemma wf_alloc_val h v :
  wf_heap h -> val_refs_ok h v ->
  wf_heap (set_next (Pos.succ (h_next h)) (set_vals (insert (h_next h) v) h)).
Proof.
  intros (Hv & Ho & Ha & Hn & Hna & Hno) Hok.
  split_and!; simpl.
  - apply map_Forall_insert_2; [split; [lia|done]|].
    intros l v' Hl. destruct (Hv _ _ Hl). split; [lia|done].
  - intros o m Hm. destruct (Ho _ _ Hm) as [Hlt Hm']. split; [lia|].
    intros k l Hk. rewrite lookup_insert. case_decide; [done|apply (Hm' _ _ Hk)].
  - intros a xs Hxs. destruct (Ha _ _ Hxs) as [Hlt Hxs']. split; [lia|].
    eapply Forall_impl; [apply Hxs'|]. intros l ?. rewrite lookup_insert.
    case_decide; done.
  - rewrite lookup_insert. case_decide; done.
  - done.
  - done.
Qed.

Lemma wf_alloc_obj h m :
  wf_heap h -> map_Forall (fun _ l => is_Some (h_vals h !! l)) m ->
  wf_heap (set_next (Pos.succ (h_next h)) (set_objs (insert (h_next h) m) h)).
Proof.
  intros (Hv & Ho & Ha & Hn & Hna & Hno) Hm.
  split_and!; simpl.
  - intros l v Hl. destruct (Hv _ _ Hl) as [Hlt Hok]. split; [lia|].
    destruct v; simpl in *; try done. rewrite lookup_insert. case_decide; done.
  - apply map_Forall_insert_2; [split; [lia|done]|].
    intros o m' Ho'. destruct (Ho _ _ Ho'). split; [lia|done].
  - intros a xs Hxs. destruct (Ha _ _ Hxs). split; [lia|done].
  - done.
  - done.
  - rewrite lookup_insert. case_decide; done.
Qed.

(** Checking well-formedness of a concrete heap by evaluation. *)
Lemma wf_heap_check h : bool_decide (wf_heap h) = true -> wf_heap h.
Proof. apply bool_decide_eq_true_1. Qed.

Lemma wf_add_log h ev : wf_heap h -> wf_heap (add_log ev h).
Proof. intros Hwf. exact Hwf. Qed.

Lemma same_but_objs_refl h : same_but_objs h h.
Proof. by split_and!. Qed.

Lemma same_but_objs_trans h1 h2 h3 :
  same_but_objs h1 h2 -> same_but_objs h2 h3 -> same_but_objs h1 h3.
Proof. unfold same_but_objs. intros; destruct_and!; split_and!; congruence. Qed.

Lemma wf_alloc_step h n v :
  wf_heap h -> n = h_next h -> val_refs_ok h v ->
  wf_heap (set_next (Pos.succ n) (set_vals <[n:=v]> h)).
Proof. intros ? -> ?. by apply wf_alloc_val. Qed.
(** An entry of an object whose value is a container makes that
    container a child of the object. *)
Lemma child_of_entry h o m k l v c :
  h_objs h !! o = Some m -> m !! k = Some l -> h_vals h !! l = Some v -> val_container v = Some c ->
  child_of h (CObj o) c.
Proof.
  intros Hm Hk Hv Hc. exists ((map_to_list m).*2), l, v. split_and!; [simpl; by rewrite Hm| |done..].
  apply (list_elem_of_fmap_2' snd _ (k, l)); [by apply elem_of_map_to_list|done].
Qed.

End Primitives.

#[export] Hint Resolve wf_add_log wf_null wf_alloc_step : qmjson.
#[export] Hint Extern 1 (_ !! _ = Some _) => simpl; simplify_map_eq; done : qmjson.
#[export] Hint Extern 1 (is_Some (_ !! _)) => simpl; simplify_map_eq; eauto : qmjson.
#[export] Hint Extern 1 (val_refs_ok _ _) => simpl; done : qmjson.
