(* ===== verification/Value.v ===== *)
(** * QMJsonValue: kind tests, typed reads with a default, typed writes

    [QMJsonValue] is not under [src/]; its contract is the one of the spec
    (section 4.1), which is what qmjsonobject.cpp relies on:
    - [isX()] holds for exactly one kind;
    - [toX(default)] returns the payload when the kind matches and the
      default otherwise; [toX()] uses the type's zero value, and for
      [toArray()] / [toObject()] the static empty container the method
      returns by reference;
    - [fromX(v)] overwrites the cell in place (every alias sees it) and
      returns whether the value changed, compared with C++ [==]. *)

From stdpp Require Import base gmap strings list.
From Stdlib Require Import Floats.
From S2P Require Import Prelude Heap.

Module QMJsonValue.

Definition isNull (v : jvalue) : bool := match v with VNull => true | _ => false end.
Definition isBool (v : jvalue) : bool := match v with VBool _ => true | _ => false end.
Definition isDouble (v : jvalue) : bool := match v with VDouble _ => true | _ => false end.
Definition isString (v : jvalue) : bool := match v with VString _ => true | _ => false end.
Definition isArray (v : jvalue) : bool := match v with VArray _ => true | _ => false end.
Definition isObject (v : jvalue) : bool := match v with VObject _ => true | _ => false end.

Definition toBool (d : bool) (v : jvalue) : bool :=
  match v with VBool b => b | _ => d end.
Definition toDouble (d : float) (v : jvalue) : float :=
  match v with VDouble x => x | _ => d end.
Definition toString (d : string) (v : jvalue) : string :=
  match v with VString s => s | _ => d end.
(** A default handle may be null ([None]). *)
Definition toArray (d : option loc) (v : jvalue) : option loc :=
  match v with VArray a => Some a | _ => d end.
Definition toObject (d : option loc) (v : jvalue) : option loc :=
  match v with VObject o => Some o | _ => d end.

(** C++ [==] on two payloads of the same kind; handles compare by
    address, doubles by IEEE equality. *)
Definition same (v w : jvalue) : bool :=
  match v, w with
  | VNull, VNull => true
  | VBool a, VBool b => Bool.eqb a b
  | VDouble a, VDouble b => PrimFloat.eqb a b
  | VString a, VString b => String.eqb a b
  | VArray a, VArray b => Pos.eqb a b
  | VObject a, VObject b => Pos.eqb a b
  | _, _ => false
  end.

(** The generic typed write every [fromX] specialises. *)
Definition fromValue (l : loc) (nv : jvalue) : M bool :=
  let* v := load_val l in
  if same v nv then ret false
  else let* _ := store_val l nv in ret true.

Definition fromBool (l : loc) (b : bool) : M bool := fromValue l (VBool b).
Definition fromDouble (l : loc) (d : float) : M bool := fromValue l (VDouble d).
Definition fromString (l : loc) (s : string) : M bool := fromValue l (VString s).
Definition fromArray (l : loc) (a : loc) : M bool := fromValue l (VArray a).
Definition fromObject (l : loc) (o : loc) : M bool := fromValue l (VObject o).

(** ** Lemmas *)

Lemma same_bool v b : same v (VBool b) = true -> v = VBool b.
Proof. destruct v; simpl; try discriminate. by intros ->%Bool.eqb_prop. Qed.

Lemma fromValue_run h l v nv :
  h_vals h !! l = Some v ->
  fromValue l nv h = Ok (negb (same v nv), if same v nv then h else set_vals <[l:=nv]> h).
Proof. intros Hl. unfold fromValue. qm_unfold. rewrite Hl. destruct (same v nv); [done|]. simpl. by rewrite Hl. Qed.

Lemma fromValue_wf h l nv r h' :
  wf_heap h -> val_refs_ok h nv -> fromValue l nv h = Ok (r, h') -> wf_heap h'.
Proof.
  intros Hwf Hok Hrun. unfold fromValue in Hrun. qm_inv; [done|].
  apply wf_store_val; [done|by eexists|done].
Qed.

End QMJsonValue.
