(* ===== verification/Object.v ===== *)
(** * QMJsonObject: the keyed container, its mutations and its signals

    The operations of src/src/core/qmjsonobject.cpp other than [clear]
    ([Clear.v]) and [unite] ([Unite.v]).  An object is a location of
    [h_objs]; its [QHash<QString, QMPointer<QMJsonValue>> mHash] is the
    map stored there.  Each operation is one definition of [Module
    QMJsonObject], with the source's name; [erase] is the private helper
    every removal goes through, and it is the only place that emits
    [itemRemoved].

    The theorems show, for every branch of each operation, the resulting
    map, the signals emitted in order and the value returned; that every
    mutating operation preserves [wf_heap]; and the consequences of the
    shared [static defaultValue] of [value(key)]. *)

From stdpp Require Import base gmap strings list.
From Stdlib Require Import Floats.
From S2P Require Import Prelude Heap Value.

Inductive QMJsonReplacementPolicy :=
| QMJsonReplacementPolicy_Replace
| QMJsonReplacementPolicy_Ignore.

#[export] Instance replacement_policy_eq_dec : EqDecision QMJsonReplacementPolicy.
Proof. solve_decision. Defined.

Module QMJsonObject.

Definition count (o : loc) : M nat :=
  let* m := load_obj o in ret (size m).

Definition isEmpty (o : loc) : M bool :=
  let* m := load_obj o in ret (bool_decide (m = ∅)).

Definition contains (o : loc) (key : string) : M bool :=
  let* m := load_obj o in ret (bool_decide (is_Some (m !! key))).

(** [erase(iter)]: the iterator designates the entry [(key, v)]. *)
Definition erase (o : loc) (key : string) (v : loc) : M unit :=
  let* m := load_obj o in
  let* _ := store_obj o (delete key m) in
  emit (ItemRemoved o key v).

(** The tail of [insert]: store the handle, or a fresh Null value for a
    null handle ([None]), and emit [itemAdded]. *)
Definition insert_entry (o : loc) (key : string) (value : option loc) : M unit :=
  match value with
  | None =>
      let* nv := alloc_val VNull in
      let* m := load_obj o in
      let* _ := store_obj o (<[key:=nv]> m) in
      emit (ItemAdded o key nv)
  | Some l =>
      let* m := load_obj o in
      let* _ := store_obj o (<[key:=l]> m) in
      emit (ItemAdded o key l)
  end.

Definition insert (o : loc) (key : string) (value : option loc)
    (policy : QMJsonReplacementPolicy) : M unit :=
  if String.eqb key "" then ret tt else
  let* m := load_obj o in
  match m !! key with
  | Some old =>
      match policy with
      | QMJsonReplacementPolicy_Replace =>
          let* _ := erase o key old in insert_entry o key value
      | QMJsonReplacementPolicy_Ignore => ret tt
      end
  | None => insert_entry o key value
  end.

Definition remove (o : loc) (key : string) : M unit :=
  let* m := load_obj o in
  match m !! key with
  | None => ret tt
  | Some v => erase o key v
  end.

Definition take (o : loc) (key : string) : M loc :=
  let* m := load_obj o in
  match m !! key with
  | None => alloc_val VNull
  | Some v => let* _ := erase o key v in ret v
  end.

Definition take_default (o : loc) (key : string) (defaultValue : option loc)
    : M (option loc) :=
  let* m := load_obj o in
  match m !! key with
  | None => ret defaultValue
  | Some v => let* _ := erase o key v in ret (Some v)
  end.

(** [value(key)]: the stored handle, or the shared [static defaultValue]. *)
Definition value (o : loc) (key : string) : M loc :=
  let* m := load_obj o in
  match m !! key with
  | Some l => ret l
  | None => gets h_null
  end.

Definition value_default (o : loc) (key : string) (defaultValue : option loc)
    : M (option loc) :=
  let* m := load_obj o in
  match m !! key with
  | Some l => ret (Some l)
  | None => ret defaultValue
  end.

(** [isNull(key)] ... [isObject(key)]: false for a missing key. *)
Definition is_kind (p : jvalue -> bool) (o : loc) (key : string) : M bool :=
  let* m := load_obj o in
  match m !! key with
  | None => ret false
  | Some l => let* v := load_val l in ret (p v)
  end.

Definition isNull := is_kind QMJsonValue.isNull.
Definition isBool := is_kind QMJsonValue.isBool.
Definition isDouble := is_kind QMJsonValue.isDouble.
Definition isString := is_kind QMJsonValue.isString.
Definition isArray := is_kind QMJsonValue.isArray.
Definition isObject := is_kind QMJsonValue.isObject.

(** [toX(key)] and [toX(key, default)]: [this->value(key)->toX(...)]. *)
Definition to_kind {A} (f : jvalue -> A) (o : loc) (key : string) : M A :=
  let* l := value o key in
  let* v := load_val l in
  ret (f v).

Definition toBool o key := to_kind (QMJsonValue.toBool false) o key.
Definition toDouble o key := to_kind (QMJsonValue.toDouble 0%float) o key.
Definition toString o key := to_kind (QMJsonValue.toString "") o key.

Definition toArray (o : loc) (key : string) : M (option loc) :=
  let* d := gets h_noarr in to_kind (QMJsonValue.toArray (Some d)) o key.
Definition toObject (o : loc) (key : string) : M (option loc) :=
  let* d := gets h_noobj in to_kind (QMJsonValue.toObject (Some d)) o key.

Definition toBool_default o key d := to_kind (QMJsonValue.toBool d) o key.
Definition toDouble_default o key d := to_kind (QMJsonValue.toDouble d) o key.
Definition toString_default o key d := to_kind (QMJsonValue.toString d) o key.
Definition toArray_default o key d := to_kind (QMJsonValue.toArray d) o key.
Definition toObject_default o key d := to_kind (QMJsonValue.toObject d) o key.

(** [fromX(key, v)]: [this->value(key)->fromX(v)]. *)
Definition from_kind (f : loc -> M bool) (o : loc) (key : string) : M bool :=
  let* l := value o key in f l.

Definition fromBool o key (b : bool) := from_kind (fun l => QMJsonValue.fromBool l b) o key.
Definition fromDouble o key (d : float) := from_kind (fun l => QMJsonValue.fromDouble l d) o key.
Definition fromString o key (s : string) := from_kind (fun l => QMJsonValue.fromString l s) o key.
Definition fromArray o key (a : loc) := from_kind (fun l => QMJsonValue.fromArray l a) o key.
Definition fromObject o key (ob : loc) := from_kind (fun l => QMJsonValue.fromObject l ob) o key.

Section Iteration.
Context `{!HashOrder}.

Definition keys (o : loc) : M (list string) :=
  let* m := load_obj o in ret (map fst (hash_order m)).

Definition values (o : loc) : M (list loc) :=
  let* m := load_obj o in ret (map snd (hash_order m)).

(** [QHash::key(value, default)]: the first key, in iteration order,
    whose handle is [value] (pointer equality). *)
Definition key_default (o : loc) (v : option loc) (defaultValue : string) : M string :=
  let* m := load_obj o in
  ret (match List.find (fun kl => bool_decide (Some kl.2 = v)) (hash_order m) with
       | Some kl => kl.1
       | None => defaultValue
       end).

Definition key (o : loc) (v : option loc) : M string := key_default o v "".
End Iteration.

(** [QMJsonObject()] (lines 33-35): a new object with an empty hash.  The
    copy constructor [QMJsonObject(hash)] (lines 41-44) is [alloc_obj hash]
    of [Heap.v]: it stores the hash as given, with no check of its keys
    and no signal. *)
Definition construct : M loc := alloc_obj ∅.

(** The effect of [insert] of a non-null handle on the object's map. *)
Definition insert_map (m : gmap string loc) (k : string) (l : loc)
    (p : QMJsonReplacementPolicy) : gmap string loc :=
  if String.eqb k "" then m else
  match m !! k, p with
  | Some _, QMJsonReplacementPolicy_Ignore => m
  | _, _ => <[k:=l]> m
  end.

(** The signals [insert(key, l, p)] sends on the map [m]. *)
Definition insert_events (o : loc) (m : gmap string loc) (k : string) (l : loc)
    (p : QMJsonReplacementPolicy) : list event :=
  if String.eqb k "" then [] else
  match m !! k, p with
  | Some old, QMJsonReplacementPolicy_Replace => [ItemRemoved o k old; ItemAdded o k l]
  | Some _, QMJsonReplacementPolicy_Ignore => []
  | None, _ => [ItemAdded o k l]
  end.

(** A small document used by the examples: the object at 7 is
    [{"x": 1.0, "y": {"z": true}}], the inner object is at 8. *)
Definition ex_heap : heap :=
  mkHeap (list_to_map [(1, VNull); (4, VDouble 1.0); (5, VDouble 2.0);
                       (6, VObject 8); (9, VBool true)])%positive
         (list_to_map [(3, ∅); (7, list_to_map [("x", 4); ("y", 6)]);
                       (8, {["z" := 9]})])%positive
         {[2%positive := []]} 10%positive 1%positive 2%positive 3%positive [].

(** A cyclic document: the object at 5 holds itself under ["self"]. *)
Definition cyclic_heap : heap :=
  mkHeap (<[4%positive := VObject 5]> {[1%positive := VNull]})
         (<[5%positive := {["self" := 4%positive]}]> {[3%positive := ∅]})
         {[2%positive := []]} 6%positive 1%positive 2%positive 3%positive [].

Definition ex_obj : gmap string loc := list_to_map [("x", 4); ("y", 6)]%positive.

(** ** Behaviour of each operation *)

Section Operations.
Implicit Types (h : heap) (o l : loc) (m : gmap string loc).

Lemma erase_ok h o m k v :
  h_objs h !! o = Some m ->
  erase o k v h = Ok (tt, add_log (ItemRemoved o k v) (set_objs <[o:=delete k m]> h)).
Proof. intros Hm. unfold erase. qm_crush. Qed.

(** C7: [insert(key, value, Replace)] on a present key erases the old
    entry, so that an [itemRemoved] is emitted by the object, then stores
    the new handle under the key and emits [itemAdded(key, value)], in
    this order; no cell, array or allocator changes.  The payload of the
    [itemRemoved] is read from the erased node (line 542) and is left
    out. *)
Theorem insert_replace_present h o m k old l :
  String.eqb k "" = false -> h_objs h !! o = Some m -> m !! k = Some old ->
  exists h', insert o k (Some l) QMJsonReplacementPolicy_Replace h = Ok (tt, h') /\
    h_objs h' = <[o:=<[k:=l]> m]> (h_objs h) /\ same_but_objs h h' /\
    observe <$> h_log h' = (observe <$> h_log h) ++ [SigRemoved o; SigAdded o k l].
Proof.
  intros Hk Hm Hold. eexists. split.
  { unfold insert, erase, insert_entry. rewrite Hk. qm_crush. }
  simpl. rewrite insert_insert_eq, insert_delete_eq, <-app_assoc, fmap_app.
  split_and!; done.
Qed.

(** C9: [insert(key, value, Ignore)] on a present key changes nothing
    and emits no signal. *)
Theorem insert_ignore_present h o m k old v :
  h_objs h !! o = Some m -> m !! k = Some old ->
  insert o k v QMJsonReplacementPolicy_Ignore h = Ok (tt, h).
Proof.
  intros Hm Hold. unfold insert. destruct (String.eqb k ""); [done|]. qm_crush.
Qed.

(** C26: [insert] with an empty key is a no-op whatever the object, the
    value and the policy. *)
Theorem insert_empty_key o v p : forall h, insert o "" v p h = Ok (tt, h).
Proof. reflexivity. Qed.

(** C10: [insert] of a new key under either policy stores the handle and
    emits exactly one [itemAdded]. *)
Theorem insert_absent h o m k l p :
  String.eqb k "" = false -> h_objs h !! o = Some m -> m !! k = None ->
  insert o k (Some l) p h =
  Ok (tt, mkHeap (h_vals h) (<[o:=<[k:=l]> m]> (h_objs h)) (h_arrs h) (h_next h)
                 (h_null h) (h_noarr h) (h_noobj h) (h_log h ++ [ItemAdded o k l])).
Proof. intros Hk Hm Hnone. unfold insert, insert_entry. rewrite Hk. qm_crush. Qed.

(** C22: [insert] of a null handle stores a freshly allocated Null value
    (a location no cell used before) and signals that value. *)
Theorem insert_null_handle h o m k p :
  wf_heap h -> String.eqb k "" = false -> h_objs h !! o = Some m -> m !! k = None ->
  h_vals h !! h_next h = None /\
  insert o k None p h =
  Ok (tt, mkHeap (<[h_next h:=VNull]> (h_vals h)) (<[o:=<[k:=h_next h]> m]> (h_objs h))
                 (h_arrs h) (Pos.succ (h_next h)) (h_null h) (h_noarr h) (h_noobj h)
                 (h_log h ++ [ItemAdded o k (h_next h)])).
Proof.
  intros Hwf Hk Hm Hnone. split; [by apply wf_next_fresh_val|].
  unfold insert, insert_entry. rewrite Hk. qm_crush.
Qed.

(** [remove] of a missing key changes nothing and emits nothing. *)
Theorem remove_absent h o m k :
  h_objs h !! o = Some m -> m !! k = None -> remove o k h = Ok (tt, h).
Proof. intros Hm Hnone. unfold remove. qm_crush. Qed.

(** C11: [remove(key)] and [take(key)] of a present key reach the same
    heap: the key is deleted from the object, exactly one [itemRemoved]
    is emitted, by the object, and no cell, array or allocator changes.
    The handle [take] returns and the payload of the signal are read from
    the erased node (lines 183, 542) and are left out. *)
Theorem remove_present h o m k v :
  h_objs h !! o = Some m -> m !! k = Some v ->
  exists h', remove o k h = Ok (tt, h') /\ (exists r, take o k h = Ok (r, h')) /\
    h_objs h' = <[o:=delete k m]> (h_objs h) /\ same_but_objs h h' /\
    observe <$> h_log h' = (observe <$> h_log h) ++ [SigRemoved o].
Proof.
  intros Hm Hv. eexists. split; [unfold remove; qm_unfold; rewrite Hm, Hv; by rewrite (erase_ok _ _ m)|].
  split; [exists v; unfold take, erase; qm_crush|].
  simpl. rewrite fmap_app. split_and!; done.
Qed.

(** C23: [take(key)] of a missing key returns a freshly allocated Null
    value; the object and the signal log are unchanged. *)
Theorem take_absent h o m k :
  wf_heap h -> h_objs h !! o = Some m -> m !! k = None ->
  h_vals h !! h_next h = None /\
  take o k h = Ok (h_next h, mkHeap (<[h_next h:=VNull]> (h_vals h)) (h_objs h) (h_arrs h)
                               (Pos.succ (h_next h)) (h_null h) (h_noarr h) (h_noobj h)
                               (h_log h)).
Proof.
  intros Hwf Hm Hnone. split; [by apply wf_next_fresh_val|]. unfold take. qm_crush.
Qed.

(** [take(key, default)] of a missing key returns the caller's
    default and leaves the heap unchanged. *)
Theorem take_default_absent h o m k d :
  h_objs h !! o = Some m -> m !! k = None -> take_default o k d h = Ok (d, h).
Proof. intros Hm Hnone. unfold take_default. qm_crush. Qed.

Lemma remove_run h o m k :
  h_objs h !! o = Some m ->
  remove o k h = Ok (tt, match m !! k with
                         | None => h
                         | Some v => add_log (ItemRemoved o k v) (set_objs <[o:=delete k m]> h)
                         end).
Proof. intros Hm. unfold remove, erase. qm_unfold. rewrite Hm. destruct (m !! k); qm_crush. Qed.

Lemma insert_run h o m k l p :
  h_objs h !! o = Some m ->
  exists h', insert o k (Some l) p h = Ok (tt, h') /\
    h_objs h' = <[o:=insert_map m k l p]> (h_objs h) /\ same_but_objs h h' /\
    h_log h' = h_log h ++ insert_events o m k l p.
Proof.
  intros Hm. unfold insert, insert_map, insert_events, insert_entry, erase.
  destruct (String.eqb k ""); [eexists; split; [done|]; by rewrite insert_id, app_nil_r|].
  qm_unfold. rewrite Hm.
  destruct (m !! k) eqn:Hk; [destruct p|]; simplify_map_eq; (eexists; split; [done|]).
  - rewrite insert_insert_eq, insert_delete_eq. split_and!; try done. by rewrite <-app_assoc.
  - rewrite insert_id by done. split_and!; try done. by rewrite app_nil_r.
  - done.
Qed.

Lemma insert_effect h o m k l p :
  h_objs h !! o = Some m ->
  exists h', insert o k (Some l) p h = Ok (tt, h') /\
    h_objs h' = <[o:=insert_map m k l p]> (h_objs h) /\ same_but_objs h h'.
Proof. intros Hm. destruct (insert_run h o m k l p Hm) as (h' & ? & ? & ? & _). by exists h'. Qed.

Lemma insert_events_lookup o m m' k l p :
  m !! k = m' !! k -> insert_events o m k l p = insert_events o m' k l p.
Proof. intros Hk. unfold insert_events. by rewrite Hk. Qed.

Lemma contains_ok h o m k :
  h_objs h !! o = Some m -> contains o k h = Ok (bool_decide (is_Some (m !! k)), h).
Proof. intros Hm. unfold contains. qm_crush. Qed.

Lemma value_ok h o m k :
  h_objs h !! o = Some m ->
  value o k h = Ok (default (h_null h) (m !! k), h).
Proof. intros Hm. unfold value. qm_unfold. rewrite Hm. by destruct (m !! k). Qed.

(** *** Well-formedness *)

Lemma wf_erase_step h o m k ev :
  wf_heap h -> h_objs h !! o = Some m -> wf_heap (add_log ev (set_objs <[o:=delete k m]> h)).
Proof.
  intros Hwf Hm. apply wf_add_log, wf_store_obj; [done|by eexists|].
  intros k' l Hl. apply lookup_delete_Some in Hl as [_ Hl]. by eapply wf_obj_entry.
Qed.

Lemma wf_insert_step h o m k l ev :
  wf_heap h -> h_objs h !! o = Some m -> is_Some (h_vals h !! l) ->
  wf_heap (add_log ev (set_objs <[o:=<[k:=l]> m]> h)).
Proof.
  intros Hwf Hm Hl. apply wf_add_log, wf_store_obj; [done|by eexists|].
  apply map_Forall_insert_2; [done|]. intros k' l' Hl'. by eapply wf_obj_entry.
Qed.

#[local] Hint Resolve wf_erase_step wf_insert_step : qmjson.

Lemma insert_wf h h' o k v p :
  wf_heap h -> (forall l, v = Some l -> is_Some (h_vals h !! l)) ->
  insert o k v p h = Ok (tt, h') -> wf_heap h'.
Proof.
  intros Hwf Hv Hrun. unfold insert, insert_entry, erase in Hrun. qm_inv.
  all: eauto 10 with qmjson.
Qed.

Lemma remove_wf h h' o k : wf_heap h -> remove o k h = Ok (tt, h') -> wf_heap h'.
Proof. intros Hwf Hrun. unfold remove, erase in Hrun. qm_inv; eauto with qmjson. Qed.

Lemma take_wf h h' o k r : wf_heap h -> take o k h = Ok (r, h') -> wf_heap h'.
Proof. intros Hwf Hrun. unfold take, erase in Hrun. qm_inv; eauto with qmjson. Qed.

Lemma take_default_wf h h' o k d r :
  wf_heap h -> take_default o k d h = Ok (r, h') -> wf_heap h'.
Proof. intros Hwf Hrun. unfold take_default, erase in Hrun. qm_inv; eauto with qmjson. Qed.

Lemma from_kind_wf h h' o k nv r :
  wf_heap h -> val_refs_ok h nv ->
  from_kind (fun l => QMJsonValue.fromValue l nv) o k h = Ok (r, h') -> wf_heap h'.
Proof.
  intros Hwf Hok Hrun. unfold from_kind in Hrun. apply bind_inv in Hrun as (l & h1 & Hv & Hrun).
  unfold value in Hv. qm_inv; by eapply QMJsonValue.fromValue_wf.
Qed.

(** *** The mutating operations return on an object of the heap *)

Lemma insert_returns h o m k v p :
  h_objs h !! o = Some m -> exists r h', insert o k v p h = Ok (r, h').
Proof.
  intros Hm. unfold insert, insert_entry, erase. destruct (String.eqb k ""); [by eexists _, _|].
  qm_unfold. rewrite Hm. repeat (case_match; simplify_map_eq/=); eauto.
Qed.

Lemma remove_returns h o m k : h_objs h !! o = Some m -> exists r h', remove o k h = Ok (r, h').
Proof. intros Hm. rewrite (remove_run _ _ _ _ Hm). by eexists _, _. Qed.

Lemma take_returns h o m k : h_objs h !! o = Some m -> exists r h', take o k h = Ok (r, h').
Proof. intros Hm. unfold take, erase. qm_unfold. rewrite Hm. case_match; simplify_map_eq/=; eauto. Qed.

Lemma take_default_returns h o m k d :
  h_objs h !! o = Some m -> exists r h', take_default o k d h = Ok (r, h').
Proof. intros Hm. unfold take_default, erase. qm_unfold. rewrite Hm. case_match; simplify_map_eq/=; eauto. Qed.

Lemma from_kind_returns h o m k nv :
  wf_heap h -> h_objs h !! o = Some m ->
  exists r h', from_kind (fun l => QMJsonValue.fromValue l nv) o k h = Ok (r, h').
Proof.
  intros Hwf Hm. unfold from_kind. qm_run (value_ok _ _ _ k Hm).
  destruct (m !! k) as [l|] eqn:Hk; simpl.
  - destruct (wf_obj_entry _ _ _ _ _ Hwf Hm Hk) as [v Hv].
    rewrite (QMJsonValue.fromValue_run _ _ _ _ Hv). by eexists _, _.
  - destruct (wf_null _ Hwf) as [v Hv].
    rewrite (QMJsonValue.fromValue_run _ _ _ _ Hv). by eexists _, _.
Qed.

(** *** The shared default value *)

(** C8: [fromBool(key, b)] on a missing key does not create the entry:
    it writes [b] into the process-wide [static defaultValue] of
    [value(key)], so afterwards [toBool(key')] of every missing key of
    every object returns [b]. *)
Theorem fromBool_absent_shared h o m k b o' m' k' :
  wf_heap h -> h_objs h !! o = Some m -> m !! k = None ->
  h_objs h !! o' = Some m' -> m' !! k' = None ->
  exists r h', fromBool o k b h = Ok (r, h') /\ h_objs h' = h_objs h /\
               toBool o' k' h' = Ok (b, h').
Proof.
  intros Hwf Hm Hk Hm' Hk'. destruct (wf_null _ Hwf) as [v0 Hv0].
  unfold fromBool, from_kind, toBool, to_kind, QMJsonValue.fromBool.
  rewrite (bind_ok _ _ _ _ _ (value_ok _ _ _ _ Hm)), Hk. simpl.
  rewrite (QMJsonValue.fromValue_run _ _ _ _ Hv0).
  destruct (QMJsonValue.same v0 (VBool b)) eqn:Hs.
  - apply QMJsonValue.same_bool in Hs as ->. eexists _, _. split_and!; [done|done|].
    rewrite (bind_ok _ _ _ _ _ (value_ok _ _ _ _ Hm')), Hk'. simpl. by qm_crush.
  - eexists _, _. split_and!; [done|done|]. unfold value. qm_crush.
Qed.

(** C28: [toDouble(key, d)] of a missing key returns [d] only while the
    shared default value holds no double. *)
Theorem toDouble_default_absent h o m k d v0 :
  h_objs h !! o = Some m -> m !! k = None -> h_vals h !! h_null h = Some v0 ->
  QMJsonValue.isDouble v0 = false ->
  toDouble_default o k d h = Ok (d, h).
Proof.
  intros Hm Hk Hv0 Hd. unfold toDouble_default, to_kind. unfold value. qm_unfold.
  rewrite Hm, Hk, Hv0. destruct v0; done.
Qed.
(** *** Replace as remove then insert; insert then lookup *)

(** C17: for a non-empty key, [insert(key, value, Replace)] behaves
    exactly as [remove(key)] followed by [insert(key, value, Ignore)]:
    same result, same maps, same signals in the same order, and the same
    failure on a handle that is not an object.  With the empty key the
    two differ: [insert] ignores it, [remove] does not. *)
Theorem insert_replace_as_remove_insert o k v h :
  k <> "" ->
  insert o k v QMJsonReplacementPolicy_Replace h =
  (let* _ := remove o k in insert o k v QMJsonReplacementPolicy_Ignore) h.
Proof.
  intros Hk. apply String.eqb_neq in Hk.
  unfold insert, remove, insert_entry, erase. rewrite Hk.
  qm_unfold. destruct (h_objs h !! o) as [m|] eqn:Ho; [|done].
  destruct (m !! k) eqn:Hmk; destruct v; simplify_map_eq; done.
Qed.

(** C18: after [insert(key, l, p)] with a non-empty key, [value(key)]
    returns [l], unless the policy is [Ignore] and the key was present,
    when it returns the handle already stored. *)
Theorem insert_value_roundtrip h o m k l p :
  h_objs h !! o = Some m -> k <> "" ->
  exists h', insert o k (Some l) p h = Ok (tt, h') /\
    value o k h' = Ok (match p with
                       | QMJsonReplacementPolicy_Ignore => default l (m !! k)
                       | QMJsonReplacementPolicy_Replace => l
                       end, h').
Proof.
  intros Hm Hk. destruct (insert_effect h o m k l p Hm) as (h' & Hrun & Hobjs & _).
  exists h'. split; [done|]. rewrite (value_ok h' o (insert_map m k l p)); [|by rewrite Hobjs, lookup_insert_eq].
  f_equal. f_equal. unfold insert_map. apply String.eqb_neq in Hk. rewrite Hk.
  destruct (m !! k) eqn:Hmk, p; simpl; by simplify_map_eq.
Qed.

(** C19: [insert(key, l, p)] of a new non-empty key followed by
    [remove(key)] restores the object's map and every other container,
    changes no cell, and emits [itemAdded(key, l)] then one
    [itemRemoved] from the object, under either policy. *)
Theorem insert_remove_roundtrip h o m k l p :
  String.eqb k "" = false -> h_objs h !! o = Some m -> m !! k = None ->
  exists h1 h2, insert o k (Some l) p h = Ok (tt, h1) /\ remove o k h1 = Ok (tt, h2) /\
    h_objs h2 = h_objs h /\ same_but_objs h h2 /\
    observe <$> h_log h2 = (observe <$> h_log h) ++ [SigAdded o k l; SigRemoved o].
Proof.
  intros Hk Hm Hnone. destruct (insert_run h o m k l p Hm) as (h1 & Hr1 & Ho1 & Hs1 & Hl1).
  unfold insert_map, insert_events in *. rewrite Hk, Hnone in *.
  assert (Hm1 : h_objs h1 !! o = Some (<[k:=l]> m)) by (rewrite Ho1; apply lookup_insert_eq).
  eexists h1, _. split_and!; [done|rewrite (remove_run _ _ _ _ Hm1), lookup_insert_eq; reflexivity|..]; simpl.
  - by rewrite Ho1, insert_insert_eq, delete_insert_id, insert_id.
  - destruct Hs1 as (? & ? & ? & ? & ? & ?). by split_and!.
  - by rewrite Hl1, <-app_assoc, !fmap_app.
Qed.

Lemma is_kind_present h o m k l v p :
  h_objs h !! o = Some m -> m !! k = Some l -> h_vals h !! l = Some v -> is_kind p o k h = Ok (p v, h).
Proof. intros Hm Hk Hv. unfold is_kind. qm_run (load_obj_ok _ _ _ Hm). rewrite Hk. by qm_run (load_val_ok _ _ _ Hv). Qed.

Lemma is_kind_absent h o m k p :
  h_objs h !! o = Some m -> m !! k = None -> is_kind p o k h = Ok (false, h).
Proof. intros Hm Hk. unfold is_kind. qm_run (load_obj_ok _ _ _ Hm). by rewrite Hk. Qed.

(** C21: the kind tests of an entry partition the present keys.  For a
    key [contains(key)] holds of, exactly one of [isNull(key)] ...
    [isObject(key)] returns true; for a missing key all six return false
    (they do not consult the shared default [value(key)] returns).  So,
    as the spec says, only [contains] together with [isX] tells an absent
    key from a value of another kind.  None of them changes anything. *)
Theorem kind_tests_partition h o m key :
  wf_heap h -> h_objs h !! o = Some m ->
  exists c bs, contains o key h = Ok (c, h) /\
    [isNull o key h; isBool o key h; isDouble o key h; isString o key h; isArray o key h;
     isObject o key h] = (fun b => Ok (b, h)) <$> bs /\
    length (List.filter id bs) = Nat.b2n c.
Proof.
  intros Hwf Hm. unfold contains, isNull, isBool, isDouble, isString, isArray, isObject.
  destruct (m !! key) as [l|] eqn:Hk.
  - destruct (wf_obj_entry _ _ _ _ _ Hwf Hm Hk) as [v Hv].
    exists true, ((fun p => p v) <$> [QMJsonValue.isNull; QMJsonValue.isBool; QMJsonValue.isDouble;
                                    QMJsonValue.isString; QMJsonValue.isArray; QMJsonValue.isObject]).
    rewrite !(is_kind_present h o m key l v _ Hm Hk Hv). split; [|by destruct v].
    qm_run (load_obj_ok _ _ _ Hm). rewrite Hk. done.
  - exists false, (replicate 6 false). rewrite !(is_kind_absent h o m key _ Hm Hk).
    split; [|done]. qm_run (load_obj_ok _ _ _ Hm). rewrite Hk. done.
Qed.

(** The copy constructor does not keep the spec's invariant that
    an object maps non-empty keys.  Built from a hash holding the empty
    key, the new object contains [""] and [value("")] returns the stored
    handle.  Yet [insert] with the empty key never stores anything, under
    either policy. *)
Example construct_hash_keeps_empty_key :
  exists o h', alloc_obj {["" := 1%positive]} init_heap = Ok (o, h') /\
    contains o "" h' = Ok (true, h') /\ value o "" h' = Ok (1%positive, h') /\
    forall p l, insert o "" (Some l) p h' = Ok (tt, h').
Proof.
  eexists _, _. split; [reflexivity|]. split_and!; [reflexivity|reflexivity|]. intros [] l; reflexivity.
Qed.

End Operations.

Section Iteration_lemmas.
Context `{!HashOrder}.
Implicit Types (h : heap) (o l : loc) (m : gmap string loc).

Lemma elem_of_hash_order m k l : (k, l) ∈ hash_order m <-> m !! k = Some l.
Proof. by rewrite hash_order_perm, elem_of_map_to_list. Qed.

Lemma hash_order_singleton k l : hash_order {[k := l]} = [(k, l)].
Proof. apply Permutation_length_1_inv. by rewrite hash_order_perm, map_to_list_singleton. Qed.

Lemma keys_ok h o m : h_objs h !! o = Some m -> keys o h = Ok (map fst (hash_order m), h).
Proof. intros Hm. unfold keys. qm_crush. Qed.

Lemma hash_order_keys_NoDup m : NoDup (map fst (hash_order m)).
Proof. rewrite hash_order_perm. apply NoDup_fst_map_to_list. Qed.

Lemma elem_of_hash_order_keys m k : k ∈ map fst (hash_order m) <-> is_Some (m !! k).
Proof.
  rewrite list_elem_of_fmap. split.
  - intros ([k' l] & -> & Hin). apply elem_of_hash_order in Hin. by eexists.
  - intros [l Hl]. exists (k, l). split; [done|]. by apply elem_of_hash_order.
Qed.

(** C27: [key(value, default)] returns a key whose stored handle is
    [value] (handle identity), and the default exactly when no key holds
    that handle. *)
Theorem key_default_spec h o m l d :
  h_objs h !! o = Some m ->
  exists r, key_default o (Some l) d h = Ok (r, h) /\
    ((m !! r = Some l) \/ (r = d /\ forall k, m !! k <> Some l)).
Proof.
  intros Hm. unfold key_default. qm_unfold. rewrite Hm.
  destruct (List.find _ (hash_order m)) as [[k l']|] eqn:Hf; eexists; (split; [done|]).
  - left. apply List.find_some in Hf as [Hin Heq]. simpl in Heq.
    apply bool_decide_eq_true_1 in Heq. simplify_eq.
    apply elem_of_hash_order, list_elem_of_In, Hin.
  - right. split; [done|]. intros k Hk.
    apply elem_of_hash_order, list_elem_of_In in Hk.
    apply (List.find_none _ _ Hf) in Hk. simpl in Hk.
    by rewrite bool_decide_eq_true_2 in Hk.
Qed.
Lemma keys_split_notin m pre k post :
  map fst (hash_order m) = (pre ++ k :: post) -> (k ∉ pre) /\ is_Some (m !! k).
Proof.
  intros Hks. split.
  - pose proof (hash_order_keys_NoDup m) as Hnd. rewrite Hks in Hnd.
    apply NoDup_app in Hnd as (_ & Hdisj & _). intros Hk. eapply Hdisj; [exact Hk|set_solver].
  - apply elem_of_hash_order_keys. rewrite Hks. set_solver.
Qed.

End Iteration_lemmas.

End QMJsonObject.

(** ** Concrete instances

    Each theorem with hypotheses, applied to the example document
    [ex_heap], whose object at 7 is [{"x": 1.0, "y": {"z": true}}]. *)

Section Witnesses.
Import QMJsonObject.
#[local] Abbreviation h := ex_heap.

Lemma insert_replace_present_witness :
  exists h', insert 7 "x" (Some 5%positive) QMJsonReplacementPolicy_Replace h = Ok (tt, h') /\
    h_objs h' !! 7%positive = Some (<["x":=5%positive]> ex_obj) /\
    observe <$> h_log h' = [SigRemoved 7; SigAdded 7 "x" 5].
Proof.
  destruct (insert_replace_present h 7 ex_obj "x" 4 5) as (h' & Hr & Ho & _ & Hl); [reflexivity..|].
  exists h'. split_and!; [done|rewrite Ho; reflexivity|rewrite Hl; reflexivity].
Defined.

Lemma insert_ignore_present_witness :
  insert 7 "x" (Some 5%positive) QMJsonReplacementPolicy_Ignore h = Ok (tt, h).
Proof. apply (insert_ignore_present h 7 ex_obj "x" 4); reflexivity. Defined.

Lemma insert_absent_witness :
  insert 7 "w" (Some 5%positive) QMJsonReplacementPolicy_Ignore h =
  Ok (tt, mkHeap (h_vals h) (<[7%positive:=<["w":=5%positive]> ex_obj]> (h_objs h)) (h_arrs h)
                 (h_next h) (h_null h) (h_noarr h) (h_noobj h) (h_log h ++ [ItemAdded 7 "w" 5])).
Proof. apply (insert_absent h 7 ex_obj "w" 5); reflexivity. Defined.

Lemma insert_null_handle_witness :
  h_vals h !! 10%positive = None /\
  insert 7 "w" None QMJsonReplacementPolicy_Replace h =
  Ok (tt, mkHeap (<[10%positive:=VNull]> (h_vals h))
                 (<[7%positive:=<["w":=10%positive]> ex_obj]> (h_objs h)) (h_arrs h)
                 11%positive (h_null h) (h_noarr h) (h_noobj h) (h_log h ++ [ItemAdded 7 "w" 10])).
Proof.
  apply (insert_null_handle h 7 ex_obj "w").
  - apply wf_heap_check. vm_compute. reflexivity.
  - reflexivity.
  - reflexivity.
  - reflexivity.
Defined.

Lemma remove_absent_witness : remove 7 "w" h = Ok (tt, h).
Proof. apply (remove_absent h 7 ex_obj "w"); reflexivity. Defined.

Lemma remove_present_witness :
  exists h', remove 7 "x" h = Ok (tt, h') /\ (exists r, take 7 "x" h = Ok (r, h')) /\
    h_objs h' !! 7%positive = Some (delete "x" ex_obj) /\ observe <$> h_log h' = [SigRemoved 7].
Proof.
  destruct (remove_present h 7 ex_obj "x" 4) as (h' & Hr & Ht & Ho & _ & Hl); [reflexivity..|].
  exists h'. split_and!; [done|done|rewrite Ho; reflexivity|rewrite Hl; reflexivity].
Defined.

Lemma take_absent_witness :
  h_vals h !! 10%positive = None /\
  take 7 "w" h = Ok (10%positive, mkHeap (<[10%positive:=VNull]> (h_vals h)) (h_objs h) (h_arrs h)
                                         11%positive (h_null h) (h_noarr h) (h_noobj h) (h_log h)).
Proof.
  apply (take_absent h 7 ex_obj "w"); [apply wf_heap_check; vm_compute| |]; reflexivity.
Defined.

Lemma take_default_absent_witness : take_default 7 "w" (Some 5%positive) h = Ok (Some 5%positive, h).
Proof. apply (take_default_absent h 7 ex_obj "w"); reflexivity. Defined.

Lemma key_default_spec_witness :
  exists r, @key_default stdpp_order 7 (Some 6%positive) "none" h = Ok (r, h) /\
    ((ex_obj !! r = Some 6%positive) \/ (r = "none" /\ forall k, ex_obj !! k <> Some 6%positive)).
Proof. apply (@key_default_spec stdpp_order h 7 ex_obj 6 "none"). reflexivity. Defined.

Lemma fromBool_absent_shared_witness :
  exists r h', fromBool 7 "a" true h = Ok (r, h') /\ h_objs h' = h_objs h /\
               toBool 8 "w" h' = Ok (true, h').
Proof.
  apply (fromBool_absent_shared h 7 ex_obj "a" true 8 {["z" := 9%positive]} "w");
    [apply wf_heap_check; vm_compute| | | |]; reflexivity.
Defined.

Lemma toDouble_default_absent_witness : toDouble_default 7 "w" 3.5%float h = Ok (3.5%float, h).
Proof. apply (toDouble_default_absent h 7 ex_obj "w" 3.5 VNull); reflexivity. Defined.
Lemma insert_replace_as_remove_insert_witness :
  insert 7 "x" (Some 5%positive) QMJsonReplacementPolicy_Replace h =
  (let* _ := remove 7 "x" in insert 7 "x" (Some 5%positive) QMJsonReplacementPolicy_Ignore) h.
Proof. apply (insert_replace_as_remove_insert 7 "x" (Some 5%positive) h). discriminate. Defined.

Lemma insert_value_roundtrip_witness :
  exists h', insert 7 "x" (Some 5%positive) QMJsonReplacementPolicy_Ignore h = Ok (tt, h') /\
             value 7 "x" h' = Ok (4%positive, h').
Proof.
  destruct (insert_value_roundtrip h 7 ex_obj "x" 5 QMJsonReplacementPolicy_Ignore eq_refl
              ltac:(discriminate)) as (h' & H1 & H2).
  exists h'. split; [exact H1|exact H2].
Defined.

Lemma kind_tests_partition_witness :
  exists c bs, contains 7 "y" h = Ok (c, h) /\
    [isNull 7 "y" h; isBool 7 "y" h; isDouble 7 "y" h; isString 7 "y" h; isArray 7 "y" h;
     isObject 7 "y" h] = (fun b => Ok (b, h)) <$> bs /\
    length (List.filter id bs) = Nat.b2n c.
Proof. apply kind_tests_partition with ex_obj; [apply wf_heap_check; vm_compute|]; reflexivity. Defined.

(** Witness of C19: "w" is new in the example object. *)
Lemma insert_remove_roundtrip_witness :
  exists h1 h2, insert 7 "w" (Some 5%positive) QMJsonReplacementPolicy_Ignore h = Ok (tt, h1) /\
    remove 7 "w" h1 = Ok (tt, h2) /\ h_objs h2 = h_objs h /\
    observe <$> h_log h2 = [SigAdded 7 "w" 5; SigRemoved 7].
Proof.
  destruct (insert_remove_roundtrip h 7 ex_obj "w" 5 QMJsonReplacementPolicy_Ignore)
    as (h1 & h2 & ? & ? & ? & _ & Hl); [reflexivity..|].
  exists h1, h2. split_and!; [done|done|done|]. by rewrite Hl.
Defined.

End Witnesses.

(** The spec's claim that [toDouble(K, 3.5)] returns 3.5 for a
    missing [K] fails once some [fromDouble] was called on a missing key
    of any object: here [fromDouble("a", 2.0)] on object 7 makes
    [toDouble("w", 3.5)] on object 8 return 2.0, and "a" was not
    created. *)
Example toDouble_default_after_sentinel_write :
  exists h', QMJsonObject.fromDouble 7 "a" 2.0 QMJsonObject.ex_heap = Ok (true, h') /\
    h_objs h' = h_objs QMJsonObject.ex_heap /\
    QMJsonObject.toDouble_default 8 "w" 3.5 h' = Ok (2.0%float, h').
Proof. eexists. split; [reflexivity|]. split; reflexivity. Qed.
