(* ===== verification/Debug.v ===== *)
(** * The debug printer of QMJsonObject: [operator<<] (lines 545-578)

    [QDebug] is an output stream.  The model records what the printer
    streams, in order, as a list of items:
    - literal text;
    - a key (a [QString], which [QDebug] itself formats);
    - a value handle (printed by [QMJsonValue]'s own [operator<<], which
      is not under src/).

    The spacing state ([nospace], [QDebugStateSaver]) only decides how
    [QDebug] separates items and is not modelled.  The printer reads the
    object through [keys()] and [value(key)], with the flag [started] of
    the source deciding where a comma goes.

    [object_text] is the form the spec gives for the diagnostic text:
    [TypeName{key:value,key2:value2,...}], with no trailing separator and
    the keys in the hash's iteration order.  [print_object_spec] proves
    that the printer produces exactly that and changes nothing. *)

From stdpp Require Import base gmap strings list.
From S2P Require Import Prelude Heap Object.

Inductive dbg_item :=
| DLit (s : string)
| DKey (k : string)
| DValue (l : loc).

#[export] Instance dbg_item_eq_dec : EqDecision dbg_item.
Proof. solve_decision. Defined.

Module QMJsonDebug.
Section Printer.
Context `{!HashOrder}.

(** The range-for of lines 553-560 with the stream [dbg] so far and the
    flag [started]: a comma before every key but the first. *)
Fixpoint print_keys (o : loc) (started : bool) (dbg : list dbg_item) (ks : list string)
    : M (list dbg_item) :=
  match ks with
  | [] => ret dbg
  | key :: ks' =>
      let dbg := if started then dbg ++ [DLit ","] else dbg in
      let* v := QMJsonObject.value o key in
      print_keys o true (dbg ++ [DKey key; DLit ":"; DValue v]) ks'
  end.

(** [operator<<(QDebug, const QMJsonObject &)], lines 545-563. *)
Definition print_object (o : loc) : M (list dbg_item) :=
  let dbg := [DLit "QMJsonObject{"] in
  let* ks := QMJsonObject.keys o in
  let* dbg := print_keys o false dbg ks in
  ret (dbg ++ [DLit "}"]).

(** [operator<<(QDebug, const QMPointer<QMJsonObject> &)], lines 565-578. *)
Definition print_pointer (p : option loc) : M (list dbg_item) :=
  match p with
  | None => ret [DLit "QMPointer<"; DLit "QMJsonObject"; DLit ">: NULL"]
  | Some o => print_object o
  end.

End Printer.

(** ** The diagnostic form of the spec *)

(** The items of one entry: [key:value]. *)
Definition entry_items (kl : string * loc) : list dbg_item := [DKey kl.1; DLit ":"; DValue kl.2].

(** The groups joined by [sep], with no separator after the last. *)
Fixpoint sep_by {A} (sep : list A) (xs : list (list A)) : list A :=
  match xs with
  | [] => []
  | [x] => x
  | x :: xs' => x ++ sep ++ sep_by sep xs'
  end.

Definition object_text (es : list (string * loc)) : list dbg_item :=
  [DLit "QMJsonObject{"] ++ sep_by [DLit ","] (entry_items <$> es) ++ [DLit "}"].

End QMJsonDebug.

(** ** The printer produces the diagnostic form *)

Lemma sep_by_cons {A} (sep x : list A) xs :
  QMJsonDebug.sep_by sep (x :: xs) = x ++ concat ((fun y => sep ++ y) <$> xs).
Proof.
  revert x. induction xs as [|y xs IH]; intros x; [simpl; by rewrite app_nil_r|].
  change (x ++ sep ++ QMJsonDebug.sep_by sep (y :: xs) = x ++ concat ((fun y => sep ++ y) <$> y :: xs)).
  rewrite IH. simpl. by rewrite !app_assoc.
Qed.

Section PrinterLemmas.
Context `{!HashOrder}.

(** The loop over entries whose handles are stored: the comma goes
    before every entry once [started] is set, and between entries
    otherwise. *)
Lemma print_keys_ok h o m kvs started dbg :
  h_objs h !! o = Some m -> Forall (fun kl => m !! kl.1 = Some kl.2) kvs ->
  QMJsonDebug.print_keys o started dbg (map fst kvs) h =
  Ok (dbg ++ (if started then concat ((fun y => [DLit ","] ++ y) <$> (QMJsonDebug.entry_items <$> kvs))
              else QMJsonDebug.sep_by [DLit ","] (QMJsonDebug.entry_items <$> kvs)), h).
Proof.
  intros Hm. revert started dbg. induction kvs as [|[k l] kvs IH]; intros started dbg Hall.
  { destruct started; simpl; by rewrite app_nil_r. }
  apply Forall_cons in Hall as [Hkl Hall]. simpl in Hkl.
  rewrite (fmap_cons QMJsonDebug.entry_items). destruct started; [|rewrite sep_by_cons]; cbn [map fst QMJsonDebug.print_keys];
    qm_run (QMJsonObject.value_ok h o m k Hm); rewrite Hkl; simpl; rewrite IH by done;
    by rewrite <-!app_assoc.
Qed.

End PrinterLemmas.

(** C20: the debug printer [operator<<] renders an object in the
    spec's diagnostic form [QMJsonObject{key:value,key2:value2,...}]:
    one [key:value] group per entry, in the hash's iteration order, with
    the stored handle as the value, a comma between two groups and no
    trailing separator; printing changes nothing (no cell, no signal). *)
Theorem print_object_spec `{!HashOrder} h o m :
  h_objs h !! o = Some m ->
  QMJsonDebug.print_object o h = Ok (QMJsonDebug.object_text (hash_order m), h).
Proof.
  intros Hm. unfold QMJsonDebug.print_object. qm_run (QMJsonObject.keys_ok h o m Hm).
  assert (Hall : Forall (fun kl => m !! kl.1 = Some kl.2) (hash_order m)).
  { apply Forall_forall. intros [k l] Hin. by apply QMJsonObject.elem_of_hash_order. }
  qm_run (print_keys_ok h o m (hash_order m) false [DLit "QMJsonObject{"] Hm Hall). done.
Qed.

(** ** Witness *)

(** Witness of C20 on the example object [{"x": 1.0, "y": {...}}]. *)
Lemma print_object_spec_witness :
  h_objs QMJsonObject.ex_heap !! 7%positive = Some QMJsonObject.ex_obj /\
  @QMJsonDebug.print_object stdpp_order 7 QMJsonObject.ex_heap =
    Ok ([DLit "QMJsonObject{"; DKey "y"; DLit ":"; DValue 6; DLit ",";
         DKey "x"; DLit ":"; DValue 4; DLit "}"], QMJsonObject.ex_heap).
Proof.
  split; [reflexivity|]. rewrite (print_object_spec QMJsonObject.ex_heap 7 QMJsonObject.ex_obj); reflexivity.
Defined.
