(* ===== verification/Numeric.v ===== *)
(** * The numeric typed accessors of QMJsonObject

    Lines 349-457 and 484-537 of qmjsonobject.cpp are the accessors
    [toFloat(key)] ... [toULongLong(key)], their variants with a default,
    and [fromFloat(key, v)] ... [fromULongLong(key, v)].  Each one is
    [this->value(key)->toX(...)] or [this->value(key)->fromX(v)], like the
    accessors of [Object.v], for one C++ arithmetic type X.

    The conversions belong to [QMJsonValue], which is not under src/.  The
    spec (section 3) says a number is held as a [double].  [conversion X]
    is what one type needs: the zero value of [toX()], the reading of a
    double payload as an X (when it is one), and the double that [fromX]
    stores.  The class [QMJsonValueNumbers] gathers the eleven types.  The
    accessors are defined for every instance, and the theorems on the
    object side hold for every instance.

    [qmjson_value_numbers] is one instance written from the spec.  An X is
    stored as the nearest double (IEEE round to nearest even, as a C++
    conversion does).  A double reads back as an integer type by
    truncation toward zero, when the result is in range.  Out of range
    the C++ conversion is undefined; the instance then returns the
    caller's default.  C++ [char] is taken as signed and [long] as 64
    bits (LP64).  C++ [float] values are modelled by doubles: their
    single-precision rounding is not modelled. *)

From stdpp Require Import base gmap strings list.
From Stdlib Require Import ZArith Floats.
From S2P Require Import Prelude Heap Value Object.

Record conversion (X : Type) := Conversion {
  conv_zero : X;
  conv_to : float -> option X;
  conv_of : X -> float
}.
Arguments Conversion {X} _ _ _.
Arguments conv_zero {X} _.
Arguments conv_to {X} _ _.
Arguments conv_of {X} _ _.

Class QMJsonValueNumbers := {
  conv_float : conversion float;
  conv_char : conversion Z;
  conv_uchar : conversion Z;
  conv_short : conversion Z;
  conv_ushort : conversion Z;
  conv_int : conversion Z;
  conv_uint : conversion Z;
  conv_long : conversion Z;
  conv_ulong : conversion Z;
  conv_longlong : conversion Z;
  conv_ulonglong : conversion Z
}.

(** [QMJsonValue::toX(default)] and [QMJsonValue::fromX(v)] for one
    numeric type: only a number converts; [fromX] goes through the
    generic typed write of [Value.v]. *)
Module QMJsonNumber.

Definition toNumber {X} (c : conversion X) (d : X) (v : jvalue) : X :=
  match v with
  | VDouble x => default d (conv_to c x)
  | _ => d
  end.

Definition fromNumber {X} (c : conversion X) (l : loc) (x : X) : M bool :=
  QMJsonValue.fromValue l (VDouble (conv_of c x)).

End QMJsonNumber.

(** ** One implementation of the conversions *)

(** The double nearest to an integer. *)
Definition Z_to_double (z : Z) : float :=
  SF2Prim (SpecFloat.binary_normalize FloatOps.prec FloatOps.emax z 0 false).

(** A finite double truncated toward zero. *)
Definition double_trunc (d : float) : option Z :=
  match Prim2SF d with
  | SpecFloat.S754_zero _ => Some 0%Z
  | SpecFloat.S754_finite s m e =>
      Some (SpecFloat.cond_Zopp s
              (if Z.leb 0 e then Z.pos m * 2 ^ e else Z.pos m / 2 ^ (- e)))%Z
  | _ => None
  end.

(** The range of a C++ integer type of [bits] bits. *)
Definition int_min (bits : Z) (signed : bool) : Z :=
  if signed then - 2 ^ (bits - 1) else 0.
Definition int_max (bits : Z) (signed : bool) : Z :=
  if signed then 2 ^ (bits - 1) else 2 ^ bits.

Definition int_conversion (bits : Z) (signed : bool) : conversion Z :=
  Conversion 0%Z
    (fun d => z ← double_trunc d;
              if bool_decide (int_min bits signed <= z < int_max bits signed)%Z
              then Some z else None)
    Z_to_double.

Definition float_conversion : conversion float := Conversion 0%float Some id.

#[export] Instance qmjson_value_numbers : QMJsonValueNumbers := {|
  conv_float := float_conversion;
  conv_char := int_conversion 8 true;
  conv_uchar := int_conversion 8 false;
  conv_short := int_conversion 16 true;
  conv_ushort := int_conversion 16 false;
  conv_int := int_conversion 32 true;
  conv_uint := int_conversion 32 false;
  conv_long := int_conversion 64 true;
  conv_ulong := int_conversion 64 false;
  conv_longlong := int_conversion 64 true;
  conv_ulonglong := int_conversion 64 false
|}.

(** ** The accessors of QMJsonObject *)

Module QMJsonObjectNumeric.

(** [this->value(key)->toX()], [this->value(key)->toX(defaultValue)] and
    [this->value(key)->fromX(value)] for one conversion. *)
Definition toNumber {X} (c : conversion X) (o : loc) (key : string) : M X :=
  QMJsonObject.to_kind (QMJsonNumber.toNumber c (conv_zero c)) o key.
Definition toNumber_default {X} (c : conversion X) (o : loc) (key : string) (d : X) : M X :=
  QMJsonObject.to_kind (QMJsonNumber.toNumber c d) o key.
Definition fromNumber {X} (c : conversion X) (o : loc) (key : string) (x : X) : M bool :=
  QMJsonObject.from_kind (fun l => QMJsonNumber.fromNumber c l x) o key.

Section Accessors.
Context `{!QMJsonValueNumbers}.

Definition toFloat o key := toNumber conv_float o key.
Definition toChar o key := toNumber conv_char o key.
Definition toUChar o key := toNumber conv_uchar o key.
Definition toShort o key := toNumber conv_short o key.
Definition toUShort o key := toNumber conv_ushort o key.
Definition toInt o key := toNumber conv_int o key.
Definition toUInt o key := toNumber conv_uint o key.
Definition toLong o key := toNumber conv_long o key.
Definition toULong o key := toNumber conv_ulong o key.
Definition toLongLong o key := toNumber conv_longlong o key.
Definition toULongLong o key := toNumber conv_ulonglong o key.

Definition toFloat_default o key d := toNumber_default conv_float o key d.
Definition toChar_default o key d := toNumber_default conv_char o key d.
Definition toUChar_default o key d := toNumber_default conv_uchar o key d.
Definition toShort_default o key d := toNumber_default conv_short o key d.
Definition toUShort_default o key d := toNumber_default conv_ushort o key d.
Definition toInt_default o key d := toNumber_default conv_int o key d.
Definition toUInt_default o key d := toNumber_default conv_uint o key d.
Definition toLong_default o key d := toNumber_default conv_long o key d.
Definition toULong_default o key d := toNumber_default conv_ulong o key d.
Definition toLongLong_default o key d := toNumber_default conv_longlong o key d.
Definition toULongLong_default o key d := toNumber_default conv_ulonglong o key d.

Definition fromFloat o key x := fromNumber conv_float o key x.
Definition fromChar o key x := fromNumber conv_char o key x.
Definition fromUChar o key x := fromNumber conv_uchar o key x.
Definition fromShort o key x := fromNumber conv_short o key x.
Definition fromUShort o key x := fromNumber conv_ushort o key x.
Definition fromInt o key x := fromNumber conv_int o key x.
Definition fromUInt o key x := fromNumber conv_uint o key x.
Definition fromLong o key x := fromNumber conv_long o key x.
Definition fromULong o key x := fromNumber conv_ulong o key x.
Definition fromLongLong o key x := fromNumber conv_longlong o key x.
Definition fromULongLong o key x := fromNumber conv_ulonglong o key x.

End Accessors.
End QMJsonObjectNumeric.

(** A linear check of a predicate on [n] consecutive integers. *)
Fixpoint all_from (f : Z -> bool) (z : Z) (n : nat) : bool :=
  match n with
  | O => true
  | S n' => f z && all_from f (Z.succ z) n'
  end.

(** ** Lemmas *)

Section NumericLemmas.
Implicit Types (h : heap) (o l : loc) (m : gmap string loc).

Lemma all_from_spec f z n :
  all_from f z n = true -> forall x, (z <= x < z + Z.of_nat n)%Z -> f x = true.
Proof.
  revert z. induction n as [|n IH]; intros z Hall x Hx; simpl in *; [lia|].
  apply andb_prop in Hall as [Hz Hall].
  destruct (decide (x = z)) as [->|Hne]; [done|]. apply (IH (Z.succ z)); [done|lia].
Qed.

(** The read of [key] through [value(key)], for a value cell [l]. *)
Lemma to_kind_run {A} (f : jvalue -> A) h o m k l v :
  h_objs h !! o = Some m -> default (h_null h) (m !! k) = l -> h_vals h !! l = Some v ->
  QMJsonObject.to_kind f o k h = Ok (f v, h).
Proof.
  intros Hm Hl Hv. unfold QMJsonObject.to_kind.
  qm_run (QMJsonObject.value_ok _ _ _ k Hm). rewrite Hl. qm_run (load_val_ok _ _ _ Hv). done.
Qed.

(** The typed write of [key] is the generic write of the cell [value(key)]. *)
Lemma from_kind_run (g : loc -> M bool) h o m k :
  h_objs h !! o = Some m ->
  QMJsonObject.from_kind g o k h = g (default (h_null h) (m !! k)) h.
Proof. intros Hm. unfold QMJsonObject.from_kind. by qm_run (QMJsonObject.value_ok _ _ _ k Hm). Qed.

(** After a typed write the cell holds the new payload, or already held
    one equal to it under C++ [==]; nothing but that cell changes. *)
Lemma fromValue_post h l v nv :
  h_vals h !! l = Some v ->
  exists r v1, QMJsonValue.fromValue l nv h = Ok (r, set_vals <[l:=v1]> h) /\
    (v1 = nv \/ QMJsonValue.same v1 nv = true).
Proof.
  intros Hv. rewrite (QMJsonValue.fromValue_run _ _ _ _ Hv).
  destruct (QMJsonValue.same v nv) eqn:Hs; eexists _, _; (split; [|by eauto]); [|done].
  f_equal. f_equal. destruct h; unfold set_vals; simpl in *. by rewrite insert_id.
Qed.

End NumericLemmas.

Section NumericWrites.
Implicit Types (h : heap) (o l : loc) (m : gmap string loc).

(** A typed numeric write to a key holding a value that is not a number
    overwrites that value cell. *)
Lemma fromNumber_present_write {X} (c : conversion X) h o m k l v x :
  h_objs h !! o = Some m -> m !! k = Some l -> h_vals h !! l = Some v ->
  QMJsonValue.isDouble v = false ->
  QMJsonObjectNumeric.fromNumber c o k x h = Ok (true, set_vals <[l:=VDouble (conv_of c x)]> h).
Proof.
  intros Hm Hk Hv Hd. unfold QMJsonObjectNumeric.fromNumber. rewrite (from_kind_run _ _ _ _ _ Hm), Hk.
  simpl. unfold QMJsonNumber.fromNumber. rewrite (QMJsonValue.fromValue_run _ _ _ _ Hv).
  by destruct v.
Qed.

(** A numeric read of any key holding the value cell [l]. *)
Lemma toNumber_cell {X} (c : conversion X) h o m k l y :
  h_objs h !! o = Some m -> m !! k = Some l -> h_vals h !! l = Some (VDouble y) ->
  QMJsonObjectNumeric.toNumber c o k h = Ok (default (conv_zero c) (conv_to c y), h).
Proof.
  intros Hm Hk Hv. unfold QMJsonObjectNumeric.toNumber.
  by rewrite (to_kind_run _ _ _ m _ l (VDouble y) Hm); [|rewrite Hk|].
Qed.

Lemma write_then_read {X} (c : conversion X) h o m k l v x o' m' k' :
  h_objs h !! o = Some m -> m !! k = Some l -> h_vals h !! l = Some v ->
  QMJsonValue.isDouble v = false ->
  h_objs h !! o' = Some m' -> m' !! k' = Some l ->
  exists h', QMJsonObjectNumeric.fromNumber c o k x h = Ok (true, h') /\ h_objs h' = h_objs h /\
    QMJsonObjectNumeric.toNumber c o' k' h' = Ok (default (conv_zero c) (conv_to c (conv_of c x)), h').
Proof.
  intros Hm Hk Hv Hd Hm' Hk'. eexists. split; [by eapply fromNumber_present_write|]. split; [done|].
  apply (toNumber_cell _ _ _ m' _ l); [done|done|]. simpl. by simplify_map_eq.
Qed.

(** The check behind the round trips of the small integer types. *)
Definition roundtrip_check (c : conversion Z) (z : Z) : bool :=
  match conv_to c (conv_of c z) with Some z' => Z.eqb z' z | None => false end.

Lemma roundtrip_by_check c lo n :
  all_from (roundtrip_check c) lo (Z.to_nat n) = true ->
  forall x, (lo <= x < lo + n)%Z -> conv_to c (conv_of c x) = Some x.
Proof.
  intros Hall x Hx. pose proof (all_from_spec _ _ _ Hall x) as Hc. unfold roundtrip_check in Hc.
  rewrite Z2Nat.id in Hc by lia. specialize (Hc Hx).
  destruct (conv_to c (conv_of c x)) as [z'|]; [|done]. by apply Z.eqb_eq in Hc as ->.
Qed.

Lemma char_roundtrip x : (-128 <= x < 128)%Z -> conv_to (int_conversion 8 true) (conv_of (int_conversion 8 true) x) = Some x.
Proof. intros Hx. apply (roundtrip_by_check (int_conversion 8 true) (-128) 256); [vm_compute; reflexivity|lia]. Qed.
Lemma uchar_roundtrip x : (0 <= x < 256)%Z -> conv_to (int_conversion 8 false) (conv_of (int_conversion 8 false) x) = Some x.
Proof. intros Hx. apply (roundtrip_by_check (int_conversion 8 false) 0 256); [vm_compute; reflexivity|lia]. Qed.
Lemma short_roundtrip x : (-32768 <= x < 32768)%Z -> conv_to (int_conversion 16 true) (conv_of (int_conversion 16 true) x) = Some x.
Proof. intros Hx. apply (roundtrip_by_check (int_conversion 16 true) (-32768) 65536); [vm_compute; reflexivity|lia]. Qed.
Lemma ushort_roundtrip x : (0 <= x < 65536)%Z -> conv_to (int_conversion 16 false) (conv_of (int_conversion 16 false) x) = Some x.
Proof. intros Hx. apply (roundtrip_by_check (int_conversion 16 false) 0 65536); [vm_compute; reflexivity|lia]. Qed.

End NumericWrites.

Section NumericTheorems.
Implicit Types (h : heap) (o l : loc) (m : gmap string loc).

(** C14: a numeric typed write [fromX(key, x)] on a missing key creates
    no entry: it writes the process-wide default value, which then holds
    [x]'s double (or already held one equal to it under [==]).  Every
    later numeric read [toY(key', d)] of a missing key of any object, at
    any numeric type Y, reads that number instead of returning [d]. *)
Theorem fromNumber_absent_shared {X Y} (c : conversion X) (c' : conversion Y) h o m k x o' m' k' d :
  wf_heap h -> h_objs h !! o = Some m -> m !! k = None ->
  h_objs h !! o' = Some m' -> m' !! k' = None ->
  exists r h' v1, QMJsonObjectNumeric.fromNumber c o k x h = Ok (r, h') /\ h_objs h' = h_objs h /\
    (v1 = VDouble (conv_of c x) \/ QMJsonValue.same v1 (VDouble (conv_of c x)) = true) /\
    QMJsonObjectNumeric.toNumber_default c' o' k' d h' = Ok (QMJsonNumber.toNumber c' d v1, h').
Proof.
  intros Hwf Hm Hk Hm' Hk'. destruct (wf_null _ Hwf) as [v0 Hv0].
  unfold QMJsonObjectNumeric.fromNumber. rewrite (from_kind_run _ _ _ _ _ Hm), Hk. simpl.
  destruct (fromValue_post _ _ _ (VDouble (conv_of c x)) Hv0) as (r & v1 & Hrun & Hv1).
  exists r, (set_vals <[h_null h:=v1]> h), v1. split_and!; [exact Hrun|done|done|].
  apply (to_kind_run _ _ _ m' _ (h_null h) v1); [done|by rewrite Hk'|]. simpl. by simplify_map_eq.
Qed.

(** C15: a numeric write to a present key whose value is not a number,
    followed by the matching read of any key holding the same value cell
    (the key itself or an alias in any object), returns the written
    number whenever the conversion round-trips it; no map changes. *)
Theorem fromNumber_toNumber_present {X} (c : conversion X) h o m k l v x o' m' k' :
  h_objs h !! o = Some m -> m !! k = Some l -> h_vals h !! l = Some v ->
  QMJsonValue.isDouble v = false -> conv_to c (conv_of c x) = Some x ->
  h_objs h !! o' = Some m' -> m' !! k' = Some l ->
  exists h', QMJsonObjectNumeric.fromNumber c o k x h = Ok (true, h') /\ h_objs h' = h_objs h /\
    QMJsonObjectNumeric.toNumber c o' k' h' = Ok (x, h').
Proof.
  intros Hm Hk Hv Hd Hrt Hm' Hk'.
  destruct (write_then_read c _ _ _ _ _ _ x _ _ _ Hm Hk Hv Hd Hm' Hk') as (h' & ? & ? & Hread).
  rewrite Hrt in Hread. eauto.
Qed.

(** C16: with the spec's double payload, every value of the 8- and 16-bit
    integer types survives [fromX(key, x)] followed by [toX(key)]. *)
Theorem small_int_accessors_roundtrip h o m k l v x :
  h_objs h !! o = Some m -> m !! k = Some l -> h_vals h !! l = Some v ->
  QMJsonValue.isDouble v = false ->
  ((-128 <= x < 128)%Z -> exists h', QMJsonObjectNumeric.fromChar o k x h = Ok (true, h') /\
                                     QMJsonObjectNumeric.toChar o k h' = Ok (x, h')) /\
  ((0 <= x < 256)%Z -> exists h', QMJsonObjectNumeric.fromUChar o k x h = Ok (true, h') /\
                                  QMJsonObjectNumeric.toUChar o k h' = Ok (x, h')) /\
  ((-32768 <= x < 32768)%Z -> exists h', QMJsonObjectNumeric.fromShort o k x h = Ok (true, h') /\
                                         QMJsonObjectNumeric.toShort o k h' = Ok (x, h')) /\
  ((0 <= x < 65536)%Z -> exists h', QMJsonObjectNumeric.fromUShort o k x h = Ok (true, h') /\
                                    QMJsonObjectNumeric.toUShort o k h' = Ok (x, h')).
Proof.
  intros Hm Hk Hv Hd.
  split; [|split; [|split]]; intros Hx;
    [ pose proof (char_roundtrip x Hx) as Hrt;
      destruct (write_then_read (int_conversion 8 true) _ _ _ _ _ _ x _ _ _ Hm Hk Hv Hd Hm Hk) as (h' & Hw & _ & Hr)
    | pose proof (uchar_roundtrip x Hx) as Hrt;
      destruct (write_then_read (int_conversion 8 false) _ _ _ _ _ _ x _ _ _ Hm Hk Hv Hd Hm Hk) as (h' & Hw & _ & Hr)
    | pose proof (short_roundtrip x Hx) as Hrt;
      destruct (write_then_read (int_conversion 16 true) _ _ _ _ _ _ x _ _ _ Hm Hk Hv Hd Hm Hk) as (h' & Hw & _ & Hr)
    | pose proof (ushort_roundtrip x Hx) as Hrt;
      destruct (write_then_read (int_conversion 16 false) _ _ _ _ _ _ x _ _ _ Hm Hk Hv Hd Hm Hk) as (h' & Hw & _ & Hr)];
    (exists h'; split; [exact Hw|]; refine (eq_trans Hr _); by rewrite Hrt).
Qed.

End NumericTheorems.

(** A [long long] above 2^53 does not survive the double payload:
    [fromLongLong(key, 2^53 + 1)] followed by [toLongLong(key)] returns
    2^53. *)
Example longlong_precision_loss :
  exists h', QMJsonObjectNumeric.fromLongLong 7 "y" (2 ^ 53 + 1)%Z QMJsonObject.ex_heap = Ok (true, h') /\
    QMJsonObjectNumeric.toLongLong 7 "y" h' = Ok ((2 ^ 53)%Z, h').
Proof. eexists. split; [reflexivity|]. vm_compute. reflexivity. Qed.

Section NumericWitnesses.
#[local] Abbreviation h := QMJsonObject.ex_heap.

Lemma fromNumber_absent_shared_witness :
  exists r h' v1, QMJsonObjectNumeric.fromInt 7 "a" 5%Z h = Ok (r, h') /\ h_objs h' = h_objs h /\
    (v1 = VDouble (Z_to_double 5) \/ QMJsonValue.same v1 (VDouble (Z_to_double 5)) = true) /\
    QMJsonObjectNumeric.toLongLong_default 8 "w" 9%Z h' =
      Ok (QMJsonNumber.toNumber (int_conversion 64 true) 9%Z v1, h').
Proof.
  apply (fromNumber_absent_shared (int_conversion 32 true) (int_conversion 64 true) h 7
           QMJsonObject.ex_obj "a" 5%Z 8 {["z" := 9%positive]} "w" 9%Z);
    [apply wf_heap_check; vm_compute| | | |]; reflexivity.
Defined.

Lemma fromNumber_toNumber_present_witness :
  exists h', QMJsonObjectNumeric.fromUShort 7 "y" 500%Z h = Ok (true, h') /\ h_objs h' = h_objs h /\
    QMJsonObjectNumeric.toUShort 7 "y" h' = Ok (500%Z, h').
Proof.
  apply (fromNumber_toNumber_present (int_conversion 16 false) h 7 QMJsonObject.ex_obj "y" 6
           (VObject 8) 500%Z 7 QMJsonObject.ex_obj "y"); reflexivity.
Defined.

Lemma small_int_accessors_roundtrip_witness :
  exists h', QMJsonObjectNumeric.fromUChar 7 "y" 200%Z h = Ok (true, h') /\
             QMJsonObjectNumeric.toUChar 7 "y" h' = Ok (200%Z, h').
Proof.
  apply (proj1 (proj2 (small_int_accessors_roundtrip h 7 QMJsonObject.ex_obj "y" 6 (VObject 8) 200%Z
                         eq_refl eq_refl eq_refl eq_refl))).
  lia.
Defined.

End NumericWitnesses.
