(* ===== verification/Clear.v ===== *)
(** * QMJsonObject::clear and QMJsonArray::clear

    [QMJsonObject::clear] (qmjsonobject.cpp, lines 61-80) first clears
    every nested object and array in place, then removes each of its own
    keys with [remove], so each removal emits its [itemRemoved].
    [QMJsonArray::clear] is not under [src/]; following the spec (section
    4.3: "recursively releases children") it clears its nested containers
    the same way and then empties its list.  The two recurse into each
    other, so they are one fixpoint over a container, bounded by fuel.

    The theorems: with fuel above the depth of the document ([bounded]),
    [clear] terminates, empties every container reachable from the object
    and leaves every other container as it was; on a document that
    contains itself, [clear] does not terminate for any fuel. *)

From stdpp Require Import base gmap strings list relations.
From S2P Require Import Prelude Heap Value Object.

Section Clear.
Context `{!HashOrder}.

Fixpoint clear_container (fuel : nat) (c : container) : M unit :=
  match fuel with
  | O => throw OutOfFuel
  | S fuel' =>
      let clear_child (l : loc) : M unit :=
        let* v := load_val l in
        match v with
        | VObject o' => clear_container fuel' (CObj o')
        | VArray a => clear_container fuel' (CArr a)
        | _ => ret tt
        end in
      match c with
      | CObj o =>
          let* m := load_obj o in
          let* _ := foreach (fun kl => clear_child kl.2) (hash_order m) in
          let* m' := load_obj o in
          foreach (fun k => QMJsonObject.remove o k) (map fst (hash_order m'))
      | CArr a =>
          let* xs := load_arr a in
          let* _ := foreach clear_child xs in
          store_arr a []
      end
  end.

Definition clear (fuel : nat) (o : loc) : M unit := clear_container fuel (CObj o).

Definition array_clear (fuel : nat) (a : loc) : M unit := clear_container fuel (CArr a).

(** The body of both first loops, read through [val_container]. *)
Definition clear_child (fuel : nat) (l : loc) : M unit :=
  let* v := load_val l in
  match val_container v with
  | Some c => clear_container fuel c
  | None => ret tt
  end.
End Clear.

(** ** What a run of [clear] changes

    [clears R h h'] says that [h'] is [h] with every container of [R]
    emptied and every other container unchanged; the values, the
    allocator and the static defaults are untouched (the log is free). *)
Definition cell_same (h h' : heap) (c : container) : Prop :=
  match c with
  | CObj o => h_objs h' !! o = h_objs h !! o
  | CArr a => h_arrs h' !! a = h_arrs h !! a
  end.

Definition cell_cleared (h h' : heap) (c : container) : Prop :=
  match c with
  | CObj o => h_objs h' !! o = (fun _ => ∅) <$> h_objs h !! o
  | CArr a => h_arrs h' !! a = (fun _ => []) <$> h_arrs h !! a
  end.

Record clears (R : container -> Prop) (h h' : heap) : Prop := {
  clears_vals : h_vals h' = h_vals h;
  clears_next : h_next h' = h_next h;
  clears_null : h_null h' = h_null h;
  clears_noarr : h_noarr h' = h_noarr h;
  clears_noobj : h_noobj h' = h_noobj h;
  clears_in : forall c, R c -> cell_cleared h h' c;
  clears_out : forall c, R c \/ cell_same h h' c;
}.

(** The notifications a clear of [R] owes: one [itemRemoved] for each
    entry of each object of [R], as the entry was in [h]. *)
Definition removal_of (R : container -> Prop) (h : heap) (ev : event) : Prop :=
  exists o k l m, ev = ItemRemoved o k l /\ R (CObj o) /\ h_objs h !! o = Some m /\ m !! k = Some l.

(** The removals of a sub-object come before those of its ancestors:
    an [itemRemoved] of [d] at position [i] follows every [itemRemoved]
    of an object [d'] below [d] in [h]. *)
Definition bottom_up (h : heap) (evs : list event) : Prop :=
  forall i j d k l d' k' l', evs !! i = Some (ItemRemoved d k l) ->
    evs !! j = Some (ItemRemoved d' k' l') -> tc (child_of h) (CObj d) (CObj d') -> j < i.

(** [notifies R h h'] says that the signals emitted from [h] to [h'] are
    those owed by [R], each exactly once, sub-objects before their
    ancestors. *)
Definition notifies (R : container -> Prop) (h h' : heap) : Prop :=
  exists evs, h_log h' = h_log h ++ evs /\ NoDup evs /\ (forall ev, ev ∈ evs <-> removal_of R h ev) /\
    bottom_up h evs.

(** The signal is an [itemRemoved] emitted by the object [o]. *)
Definition removed_from (o : loc) (ev : event) : Prop :=
  match ev with
  | ItemRemoved o' _ _ => o' = o
  | ItemAdded _ _ _ => False
  end.

#[export] Instance removed_from_dec o ev : Decision (removed_from o ev).
Proof. destruct ev; simpl; apply _. Defined.


(** ** The frame of a clear *)

Section ClearsLemmas.
Implicit Types (h : heap) (c d : container) (R : container -> Prop).

Lemma cell_cleared_contents h h' c :
  cell_cleared h h' c -> contents h' c = (fun _ => []) <$> contents h c.
Proof.
  destruct c; simpl; intros ->; [|done].
  destruct (h_objs h !! o); simpl; [|done]. by rewrite map_to_list_empty.
Qed.

Lemma cell_same_contents h h' c : cell_same h h' c -> contents h' c = contents h c.
Proof. destruct c; simpl; by intros ->. Qed.

Lemma clears_add_log R h h' ev : clears R h h' -> clears R h (add_log ev h').
Proof. intros []. by split. Qed.

Lemma clears_iff R R' h h' : (forall c, R c <-> R' c) -> clears R h h' -> clears R' h h'.
Proof.
  intros Hiff []. split; auto.
  - intros c Hc. apply clears_in0. by apply Hiff.
  - intros c. rewrite <-Hiff. auto.
Qed.

Lemma clears_trans R1 R2 h h1 h2 :
  clears R1 h h1 -> clears R2 h1 h2 -> clears (fun d => R1 d \/ R2 d) h h2.
Proof.
  intros [Hv1 Hn1 Hz1 Ha1 Ho1 Hin1 Hout1] [Hv2 Hn2 Hz2 Ha2 Ho2 Hin2 Hout2].
  split; try congruence.
  - intros d Hd.
    assert (cell_cleared h h1 d \/ cell_same h h1 d) as H1
      by (destruct (Hout1 d); auto).
    assert (cell_cleared h1 h2 d \/ cell_same h1 h2 d) as H2
      by (destruct (Hout2 d); auto).
    assert (cell_cleared h h1 d \/ cell_cleared h1 h2 d) as H12
      by (destruct Hd; auto).
    destruct d; simpl in *; eapply const_fmap_steps; eauto.
  - intros d. destruct (Hout1 d) as [?|Hs1]; [by left; left|].
    destruct (Hout2 d) as [?|Hs2]; [by left; right|].
    right. destruct d; simpl in *; congruence.
Qed.

Lemma cleared_no_entry R h h1 o m k :
  clears R h h1 -> R (CObj o) -> h_objs h1 !! o = Some m -> m !! k = None.
Proof.
  intros Hcl HR Hm. pose proof (clears_in _ _ _ Hcl _ HR) as Hc. simpl in Hc.
  rewrite Hm in Hc. destruct (h_objs h !! o); simplify_eq/=. apply lookup_empty.
Qed.

Lemma notifies_nil h : notifies (fun _ => False) h h.
Proof.
  exists []. split_and!; [by rewrite app_nil_r|constructor| |done].
  intros ev. split; [by intros ?%not_elem_of_nil|by intros (? & ? & ? & ? & _ & [] & _)].
Qed.

Lemma notifies_iff R R' h h' : (forall c, R c <-> R' c) -> notifies R h h' -> notifies R' h h'.
Proof.
  intros Hiff (evs & Hl & Hnd & Hin & Hb). exists evs. split_and!; [done|done| |done].
  intros ev. rewrite Hin. unfold removal_of. by setoid_rewrite Hiff.
Qed.

(** What a second clear owes, seen from the heap before the first: the
    objects the first one emptied owe nothing more. *)
Lemma removal_after R1 R2 h h1 ev :
  clears R1 h h1 -> removal_of R2 h1 ev -> removal_of R2 h ev /\ ~ removal_of R1 h ev.
Proof.
  intros Hcl (o & k & l & m & -> & HR2 & Hm & Hk). split.
  - destruct (clears_out _ _ _ Hcl (CObj o)) as [HR1|Hs].
    + by rewrite (cleared_no_entry _ _ _ _ _ k Hcl HR1 Hm) in Hk.
    + exists o, k, l, m. simpl in Hs. by rewrite <-Hs.
  - intros (o' & k' & l' & m' & [= <- <- <-] & HR1 & _).
    by rewrite (cleared_no_entry _ _ _ _ _ k Hcl HR1 Hm) in Hk.
Qed.

(** An edge out of a container the clear did not touch survives it. *)
Lemma child_of_same R h h' c d :
  clears R h h' -> cell_same h h' c -> child_of h c d -> child_of h' c d.
Proof.
  intros Hcl Hs (ls & l & v & Hc & Hl & Hv & Hvc). exists ls, l, v.
  by rewrite (cell_same_contents _ _ _ Hs), (clears_vals _ _ _ Hcl).
Qed.

Lemma tc_closed R h c d :
  (forall c1 c2, R c1 -> child_of h c1 c2 -> R c2) -> R c -> tc (child_of h) c d -> R d.
Proof. intros Hclosed HR Htc. induction Htc; eauto. Qed.

(** A path from an untouched container either enters the cleared part
    or survives the clear. *)
Lemma tc_clears_fwd R h h' c d :
  clears R h h' -> (forall c1 c2, R c1 -> child_of h c1 c2 -> R c2) ->
  cell_same h h' c -> tc (child_of h) c d -> R d \/ tc (child_of h') c d.
Proof.
  intros Hcl Hclosed Hs Htc. revert Hs. induction Htc as [c d Hcd|c e d Hce Hed IH]; intros Hs.
  - right. apply tc_once. by eapply child_of_same.
  - destruct (clears_out _ _ _ Hcl e) as [He|Hse]; [left; by eapply tc_closed|].
    destruct (IH Hse) as [|Hed']; [by left|]. right. eapply tc_l; [by eapply child_of_same|exact Hed'].
Qed.

(** An object a second clear still notifies was not touched by the first. *)
Lemma removal_same R1 R2 h h1 (o : loc) k l :
  clears R1 h h1 -> removal_of R2 h1 (ItemRemoved o k l) -> cell_same h h1 (CObj o) /\ ~ R1 (CObj o).
Proof.
  intros Hcl (o' & k' & l' & m & [= <- <- <-] & _ & Hm & Hk).
  assert (HnR : ~ R1 (CObj o)) by (intros HR1; by rewrite (cleared_no_entry _ _ _ _ _ k Hcl HR1 Hm) in Hk).
  split; [|done]. by destruct (clears_out _ _ _ Hcl (CObj o)).
Qed.

Lemma notifies_trans R1 R2 h h1 h2 :
  clears R1 h h1 -> (forall c1 c2, R1 c1 -> child_of h c1 c2 -> R1 c2) ->
  notifies R1 h h1 -> notifies R2 h1 h2 -> notifies (fun d => R1 d \/ R2 d) h h2.
Proof.
  intros Hcl Hclosed (evs1 & Hl1 & Hnd1 & Hin1 & Hb1) (evs2 & Hl2 & Hnd2 & Hin2 & Hb2).
  exists (evs1 ++ evs2). split_and!.
  - by rewrite Hl2, Hl1, app_assoc.
  - apply NoDup_app. split_and!; [done| |done].
    intros ev H1 H2. apply Hin1 in H1. apply Hin2 in H2. by apply (removal_after _ _ _ _ _ Hcl H2).
  - intros ev. rewrite elem_of_app, Hin1, Hin2. split.
    + intros [(o & k & l & m & -> & ? & ? & ?)|H2]; [exists o, k, l, m; naive_solver|].
      destruct (removal_after _ _ _ _ _ Hcl H2) as [(o & k & l & m & -> & ? & ? & ?) _].
      exists o, k, l, m; naive_solver.
    + intros (o & k & l & m & -> & [HR1|HR2] & Hm & Hk); [left; by exists o, k, l, m|].
      destruct (clears_out _ _ _ Hcl (CObj o)) as [HR1|Hs]; [left; by exists o, k, l, m|].
      right. exists o, k, l, m. simpl in Hs. by rewrite Hs.
  - intros i j d k l d' k' l' Hi Hj Htc.
    apply lookup_app_Some in Hi as [Hi|[Hli Hi]]; apply lookup_app_Some in Hj as [Hj|[Hlj Hj]].
    + exact (Hb1 _ _ _ _ _ _ _ _ Hi Hj Htc).
    + exfalso. apply list_elem_of_lookup_2, Hin1 in Hi as (o & ? & ? & ? & [= <- <- <-] & HR1 & _).
      apply list_elem_of_lookup_2, Hin2 in Hj.
      apply (removal_same _ _ _ _ _ _ _ Hcl Hj). by eapply tc_closed.
    + apply lookup_lt_Some in Hj. lia.
    + pose proof (list_elem_of_lookup_2 _ _ _ Hi) as Hri%Hin2.
      pose proof (list_elem_of_lookup_2 _ _ _ Hj) as Hrj%Hin2.
      destruct (removal_same _ _ _ _ _ _ _ Hcl Hri) as [Hs _].
      destruct (removal_same _ _ _ _ _ _ _ Hcl Hrj) as [_ Hn'].
      destruct (tc_clears_fwd _ _ _ _ _ Hcl Hclosed Hs Htc) as [|Htc']; [done|].
      specialize (Hb2 _ _ _ _ _ _ _ _ Hi Hj Htc'). lia.
Qed.

(** Emptied containers have no children; the others keep theirs. *)
Lemma child_of_clears R h h' c d : clears R h h' -> child_of h' c d -> child_of h c d.
Proof.
  intros Hcl (ls & l & v & Hc & Hl & Hv & Hvc).
  destruct (clears_out _ _ _ Hcl c) as [HR|Hs].
  - apply clears_in with (c := c) in Hcl; [|done].
    apply cell_cleared_contents in Hcl. rewrite Hc in Hcl.
    destruct (contents h c); simplify_eq/=. by apply not_elem_of_nil in Hl.
  - apply cell_same_contents in Hs. rewrite (clears_vals _ _ _ Hcl) in Hv.
    exists ls, l, v. by rewrite <-Hs.
Qed.

Lemma rtc_clears_back R h h' c d :
  clears R h h' -> rtc (child_of h') c d -> rtc (child_of h) c d.
Proof. intros Hcl. apply rtc_subrel. intros ??. by eapply child_of_clears. Qed.

Lemma rtc_clears_fwd R h h' c d :
  clears R h h' -> (forall c1 c2, R c1 -> child_of h c1 c2 -> R c2) ->
  rtc (child_of h) c d -> R d \/ rtc (child_of h') c d.
Proof.
  intros Hcl Hclosed Hrtc. induction Hrtc as [c|c e d Hce Hed IH]; [by right|].
  destruct (clears_out _ _ _ Hcl c) as [HR|Hs].
  - left. assert (R e) as He by eauto. clear IH Hce HR. induction Hed; eauto.
  - destruct IH as [?|IH]; [by left|]. right. eapply rtc_l; [|exact IH].
    destruct Hce as (ls & l & v & Hc & Hl & Hv & Hvc). exists ls, l, v.
    rewrite (cell_same_contents _ _ _ Hs), (clears_vals _ _ _ Hcl). done.
Qed.
(** The removals owed by [R] on one of its objects are as many as the
    object's entries. *)
Lemma removals_count R h evs o m :
  NoDup evs -> (forall ev, ev ∈ evs <-> removal_of R h ev) -> R (CObj o) -> h_objs h !! o = Some m ->
  length (filter (removed_from o) evs) = size m.
Proof.
  intros Hnd Hin HR Hm. rewrite <-length_map_to_list, <-(length_fmap (fun kl => ItemRemoved o kl.1 kl.2)).
  apply Permutation_length, NoDup_Permutation; [by apply NoDup_filter| |].
  { apply NoDup_fmap_2_strong; [by intros [] [] _ _ [= -> ->]|apply NoDup_map_to_list]. }
  intros ev. rewrite list_elem_of_filter, Hin, list_elem_of_fmap. split.
  - intros [Hr (o' & k & l & m' & -> & _ & Hm' & Hk)]. simpl in Hr. subst o'.
    rewrite Hm in Hm'. injection Hm' as <-. exists (k, l). by rewrite elem_of_map_to_list.
  - intros ([k l] & -> & Hkl%elem_of_map_to_list). split; [done|]. by exists o, k, l, m.
Qed.

End ClearsLemmas.

(** ** Depth bounds *)

Section Bounded.
Implicit Types (h : heap) (c d : container).

Lemma bounded_S h n c :
  bounded (S n) h c = true <->
  exists ls, contents h c = Some ls /\
    forall l, l ∈ ls -> exists v, h_vals h !! l = Some v /\
      forall c', val_container v = Some c' -> bounded n h c' = true.
Proof.
  simpl. destruct (contents h c) as [ls|]; [|split; [done|by intros (? & ? & _)]].
  rewrite forallb_forall. split.
  - intros Hall. exists ls. split; [done|]. intros l Hl.
    apply list_elem_of_In, Hall in Hl. destruct (h_vals h !! l) as [v|]; [|done].
    exists v. split; [done|]. intros c' Hc'. by rewrite Hc' in Hl.
  - intros (? & [= <-] & Hall) l Hl. apply list_elem_of_In, Hall in Hl as (v & -> & Hc).
    destruct (val_container v); [by apply Hc|done].
Qed.

Lemma bounded_child h n c c' :
  bounded (S n) h c = true -> child_of h c c' -> bounded n h c' = true.
Proof.
  intros (ls & Hc & Hall)%bounded_S (ls' & l & v & Hc' & Hl & Hv & Hvc).
  rewrite Hc in Hc'. simplify_eq. destruct (Hall _ Hl) as (v' & Hv' & Hb).
  rewrite Hv in Hv'. simplify_eq. by apply Hb.
Qed.

Lemma bounded_rtc h n c d :
  bounded n h c = true -> rtc (child_of h) c d -> exists n', n' <= n /\ bounded n' h d = true.
Proof.
  intros Hb Hrtc. revert n Hb. induction Hrtc as [c|c e d Hce Hed IH]; intros n Hb.
  - by exists n.
  - destruct n as [|n]; [done|]. destruct (IH n) as (n' & ? & ?); [by eapply bounded_child|].
    exists n'. split; [lia|done].
Qed.

(** A bounded document has no cycle through its root. *)
Lemma bounded_acyclic h n c c' :
  bounded n h c = true -> child_of h c c' -> rtc (child_of h) c' c -> False.
Proof.
  revert c c'. induction n as [n IH] using lt_wf_ind. intros c c' Hb Hcc' Hback.
  destruct n as [|n]; [done|].
  destruct (bounded_rtc h n c' c) as (n' & Hle & Hb'); [by eapply bounded_child|done|].
  eapply (IH n'); [lia|exact Hb'|exact Hcc'|exact Hback].
Qed.

Lemma bounded_no_cycle h n c : bounded n h c = true -> ~ tc (child_of h) c c.
Proof.
  intros Hb Htc. inversion Htc as [? ? Hcc|? e ? Hce Hec]; subst.
  - apply (bounded_acyclic _ _ _ c Hb Hcc). apply rtc_refl.
  - apply (bounded_acyclic _ _ _ e Hb Hce). by apply tc_rtc.
Qed.

Lemma bounded_clears R h h' n c :
  clears R h h' -> bounded n h c = true -> bounded n h' c = true.
Proof.
  intros Hcl. revert c. induction n as [|n IH]; intros c Hb; [done|].
  apply bounded_S in Hb as (ls & Hc & Hall). apply bounded_S.
  destruct (clears_out _ _ _ Hcl c) as [HR|Hs].
  - exists []. split; [|by intros ? ?%not_elem_of_nil].
    rewrite (cell_cleared_contents _ _ _ (clears_in _ _ _ Hcl _ HR)), Hc. done.
  - exists ls. rewrite (cell_same_contents _ _ _ Hs), (clears_vals _ _ _ Hcl). split; [done|].
    intros l Hl. destruct (Hall _ Hl) as (v & Hv & Hb). eauto.
Qed.
End Bounded.

(** ** Runs of clear *)

Section ClearRuns.
Context `{!HashOrder}.
Implicit Types (h : heap) (c d : container) (R : container -> Prop).

Lemma clear_container_S n c h :
  clear_container (S n) c h =
  (match c with
   | CObj o =>
       let* m := load_obj o in
       let* _ := foreach (clear_child n) (map snd (hash_order m)) in
       let* m' := load_obj o in
       foreach (fun k => QMJsonObject.remove o k) (map fst (hash_order m'))
   | CArr a =>
       let* xs := load_arr a in
       let* _ := foreach (clear_child n) xs in
       store_arr a []
   end) h.
Proof.
  assert (forall l s, (let* v := load_val l in
                       match v with
                       | VObject o' => clear_container n (CObj o')
                       | VArray a => clear_container n (CArr a)
                       | _ => ret tt
                       end) s = clear_child n l s) as Hchild.
  { intros l s. unfold clear_child. apply bind_ext. by intros [] ?. }
  destruct c as [o|a]; simpl; apply bind_ext; intros x s.
  - apply bind_congr_l. rewrite <-foreach_map. apply foreach_ext. intros ??. apply Hchild.
  - apply bind_congr_l. apply foreach_ext. intros ??. apply Hchild.
Qed.

Lemma clears_nil h : clears (fun _ => False) h h.
Proof. split; try done. intros []; by right. Qed.

(** What the containers held by a list of handles reach is closed under
    [child_of]. *)
Lemma children_closed h (ls : list loc) c1 c2 :
  (exists l v c', l ∈ ls /\ h_vals h !! l = Some v /\ val_container v = Some c' /\ rtc (child_of h) c' c1) ->
  child_of h c1 c2 ->
  exists l v c', l ∈ ls /\ h_vals h !! l = Some v /\ val_container v = Some c' /\ rtc (child_of h) c' c2.
Proof. intros (l & v & c' & ? & ? & ? & ?) ?. exists l, v, c'. eauto using rtc_r. Qed.

(** The first loop: clearing the children held by a list of handles. *)
Lemma clear_children_run n h ls :
  (forall c h, bounded n h c = true ->
     exists h', clear_container n c h = Ok (tt, h') /\
       clears (rtc (child_of h) c) h h' /\ notifies (rtc (child_of h) c) h h') ->
  (forall l, l ∈ ls -> exists v, h_vals h !! l = Some v /\
     forall c', val_container v = Some c' -> bounded n h c' = true) ->
  let R d := exists l v c', l ∈ ls /\ h_vals h !! l = Some v /\
                            val_container v = Some c' /\ rtc (child_of h) c' d in
  exists h', foreach (clear_child n) ls h = Ok (tt, h') /\ clears R h h' /\ notifies R h h'.
Proof.
  intros IH Hall R.
  set (Rpre (pre : list loc) d := exists l v c', l ∈ pre /\ h_vals h !! l = Some v /\
                                    val_container v = Some c' /\ rtc (child_of h) c' d).
  apply (foreach_rule (fun pre h1 => clears (Rpre pre) h h1 /\ notifies (Rpre pre) h h1)).
  { assert (Hnil : forall d, False <-> Rpre [] d).
    { intros d. split; [done|]. by intros (? & ? & ? & ?%not_elem_of_nil & _). }
    split; [eapply clears_iff; [exact Hnil|apply clears_nil]|eapply notifies_iff; [exact Hnil|apply notifies_nil]]. }
  intros pre l post h1 Hls [Hcl1 Hn1].
  destruct (Hall l) as (v & Hv & Hb); [rewrite Hls; set_solver|].
  assert (Hclosed : forall c1 c2, Rpre pre c1 -> child_of h c1 c2 -> Rpre pre c2).
  { intros c1 c2. apply children_closed. }
  unfold clear_child. rewrite (bind_ok _ _ _ _ _ (load_val_ok h1 l v ltac:(by rewrite (clears_vals _ _ _ Hcl1)))).
  destruct (val_container v) as [c'|] eqn:Hvc.
  - destruct (IH c' h1) as (h2 & Hrun & Hcl2 & Hn2); [by eapply bounded_clears, Hb|].
    exists h2. split; [done|].
    assert (Hiff : forall d, (Rpre pre d \/ rtc (child_of h1) c' d) <-> Rpre (pre ++ [l]) d).
    { intros d. split.
      + intros [(l' & v' & c'' & ? & ? & ? & ?)|Hd]; [exists l', v', c''; set_solver|].
        exists l, v, c'. split_and!; [set_solver|done|done|]. by eapply rtc_clears_back.
      + intros (l' & v' & c'' & [Hl'|Hl'%list_elem_of_singleton]%elem_of_app & Hv' & Hvc' & Hd).
        * left. by exists l', v', c''.
        * subst. simplify_eq. by apply (rtc_clears_fwd _ _ _ _ _ Hcl1 Hclosed). }
    split; [eapply clears_iff; [exact Hiff|exact (clears_trans _ _ _ _ _ Hcl1 Hcl2)]|].
    eapply notifies_iff; [exact Hiff|exact (notifies_trans _ _ _ _ _ Hcl1 Hclosed Hn1 Hn2)].
  - exists h1. split; [done|].
    assert (Hiff : forall d, Rpre pre d <-> Rpre (pre ++ [l]) d).
    { intros d. split.
      + intros (l' & v' & c'' & ? & ? & ? & ?). exists l', v', c''. set_solver.
      + intros (l' & v' & c'' & [Hl'|Hl'%list_elem_of_singleton]%elem_of_app & Hv' & Hvc' & Hd).
        * by exists l', v', c''.
        * subst. congruence. }
    split; [eapply clears_iff|eapply notifies_iff]; eauto.
Qed.

Lemma filter_keys_step (m : gmap string loc) (pre : list string) x :
  delete x (filter (fun kv => kv.1 ∉ pre) m) = filter (fun kv => kv.1 ∉ pre ++ [x]) m.
Proof.
  apply map_eq. intros i. rewrite lookup_delete, !map_lookup_filter.
  case_decide as Hi; [subst i; destruct (m !! x); simpl; [|done]; case_guard; set_solver|].
  destruct (m !! i); simpl; [|done]. repeat case_guard; set_solver.
Qed.

(** The signals of the second loop, key by key. *)
Lemma omap_removals o (m : gmap string loc) kvs :
  Forall (fun kl => m !! kl.1 = Some kl.2) kvs ->
  omap (fun k => ItemRemoved o k <$> m !! k) (map fst kvs) = (fun kl => ItemRemoved o kl.1 kl.2) <$> kvs.
Proof.
  induction kvs as [|[k l] kvs IH]; intros Hall; [done|].
  apply Forall_cons in Hall as [Hk Hall]. simpl in Hk.
  change (map fst ((k, l) :: kvs)) with (k :: map fst kvs).
  rewrite (fmap_cons (fun kl : string * loc => ItemRemoved o kl.1 kl.2)), <-IH by done.
  simpl. by rewrite Hk.
Qed.

Lemma NoDup_removals o (kvs : list (string * loc)) :
  NoDup (map fst kvs) -> NoDup ((fun kl => ItemRemoved o kl.1 kl.2) <$> kvs).
Proof.
  induction kvs as [|[k l] kvs IH]; intros Hnd; simpl in *; [constructor|].
  apply NoDup_cons in Hnd as [Hk Hnd]. constructor; [|by apply IH].
  intros ([k' l'] & [= <- <-] & Hin)%list_elem_of_fmap. apply Hk.
  apply list_elem_of_fmap. by exists (k, l).
Qed.

(** The second loop of [clear]: [remove] every key of the snapshot, with
    one [itemRemoved] per entry, in the hash's order. *)
Lemma remove_all_run h o m :
  h_objs h !! o = Some m -> ~ tc (child_of h) (CObj o) (CObj o) ->
  exists h', foreach (fun k => QMJsonObject.remove o k) (map fst (hash_order m)) h = Ok (tt, h') /\
    clears (fun d => d = CObj o) h h' /\ notifies (fun d => d = CObj o) h h'.
Proof.
  intros Hm Hacyc.
  destruct (foreach_rule (fun pre h1 =>
    h_objs h1 = <[o:=filter (fun kv => kv.1 ∉ pre) m]> (h_objs h) /\
    h_log h1 = h_log h ++ omap (fun k => ItemRemoved o k <$> m !! k) pre /\ h_vals h1 = h_vals h /\
    h_arrs h1 = h_arrs h /\ h_next h1 = h_next h /\ h_null h1 = h_null h /\
    h_noarr h1 = h_noarr h /\ h_noobj h1 = h_noobj h)
    (fun k => QMJsonObject.remove o k) (map fst (hash_order m)) h) as (h' & Hrun & Hinv).
  - split_and!; try done; [|by rewrite app_nil_r]. rewrite map_filter_id by set_solver. by rewrite insert_id.
  - intros pre x post h1 Hks (Hobj & Hlog & Hrest).
    destruct (QMJsonObject.keys_split_notin m pre x post Hks) as [Hx [l Hl]].
    assert (Hf : filter (fun kv => kv.1 ∉ pre) m !! x = Some l) by (by apply map_lookup_filter_Some).
    rewrite (QMJsonObject.remove_run h1 o (filter (fun kv => kv.1 ∉ pre) m)) by (by rewrite Hobj, lookup_insert_eq).
    rewrite Hf. eexists. split; [done|]. simpl.
    rewrite Hobj, insert_insert_eq, filter_keys_step, Hlog, omap_app, <-app_assoc. simpl. rewrite Hl. done.
  - exists h'. split; [done|]. destruct Hinv as (Hobj & Hlog & Hv & Ha & Hn & Hz & Hna & Hno).
    assert (Hall : Forall (fun kl => m !! kl.1 = Some kl.2) (hash_order m)).
    { apply Forall_forall. intros [k l] Hin. by apply QMJsonObject.elem_of_hash_order. }
    assert (filter (fun kv => kv.1 ∉ map fst (hash_order m)) m = ∅) as Hempty.
    { apply map_empty. intros k. rewrite map_lookup_filter.
      destruct (m !! k) as [l|] eqn:Hk; simpl; [|done]. case_guard as Hin; [|done].
      exfalso. apply Hin, list_elem_of_fmap. exists (k, l). split; [done|].
      by rewrite hash_order_perm, elem_of_map_to_list. }
    rewrite Hempty in Hobj. split.
    + split; try done.
      * intros c ->. simpl. by rewrite Hobj, Hm, lookup_insert_eq.
      * intros [o'|a]; simpl; [|by right; rewrite Ha].
        destruct (decide (o' = o)) as [->|Hne]; [by left|right].
        by rewrite Hobj, lookup_insert_ne by congruence.
    + rewrite omap_removals in Hlog by done. eexists. split_and!; [exact Hlog| | |].
      * apply NoDup_removals, QMJsonObject.hash_order_keys_NoDup.
      * intros ev. rewrite list_elem_of_fmap. split.
        -- intros ([k l] & -> & Hin). exists o, k, l, m. split_and!; try done.
           by apply QMJsonObject.elem_of_hash_order.
        -- intros (o' & k & l & m' & -> & [= ->] & Hm' & Hk). rewrite Hm in Hm'. injection Hm' as <-.
           exists (k, l). split; [done|]. by apply QMJsonObject.elem_of_hash_order.
      * intros i j d k l d' k' l' Hi Hj Htc. exfalso.
        apply list_elem_of_lookup_2, list_elem_of_fmap in Hi as ([? ?] & [= -> _ _] & _).
        apply list_elem_of_lookup_2, list_elem_of_fmap in Hj as ([? ?] & [= -> _ _] & _). done.
Qed.

Lemma store_arr_clears h a xs :
  h_arrs h !! a = Some xs ->
  exists h', store_arr a [] h = Ok (tt, h') /\
    clears (fun d => d = CArr a) h h' /\ notifies (fun d => d = CArr a) h h'.
Proof.
  intros Ha. rewrite store_arr_ok by (by eexists). eexists. split; [done|]. split.
  - split; try done.
    + intros c ->. simpl. by rewrite Ha, lookup_insert_eq.
    + intros [o'|a']; simpl; [by right|].
      destruct (decide (a' = a)) as [->|Hne]; [by left|right].
      by rewrite lookup_insert_ne by congruence.
  - exists []. split_and!; [simpl; by rewrite app_nil_r|constructor| |done].
    intros ev. split; [by intros ?%not_elem_of_nil|by intros (? & ? & ? & ? & _ & [=] & _)].
Qed.

(** What is reachable from a container: itself and what is reachable
    from the containers its handles hold. *)
Lemma rtc_children_iff h c (ls0 ls : list loc) :
  contents h c = Some ls0 -> (forall l, l ∈ ls <-> l ∈ ls0) ->
  forall d, ((exists l v c', l ∈ ls /\ h_vals h !! l = Some v /\
               val_container v = Some c' /\ rtc (child_of h) c' d) \/ d = c) <->
            rtc (child_of h) c d.
Proof.
  intros Hc Hls d. split.
  - intros [(l & v & c' & Hl & Hv & Hvc & Hd)| ->]; [|done].
    eapply rtc_l; [|exact Hd]. exists ls0, l, v. rewrite <-Hls. done.
  - intros [->|(c' & (ls1 & l & v & Hc1 & Hl & Hv & Hvc) & Hd)]%rtc_inv; [by right|].
    left. rewrite Hc in Hc1. simplify_eq. exists l, v, c'. rewrite Hls. done.
Qed.

Lemma clear_container_spec n :
  forall c h, bounded n h c = true ->
    exists h', clear_container n c h = Ok (tt, h') /\
      clears (rtc (child_of h) c) h h' /\ notifies (rtc (child_of h) c) h h'.
Proof.
  induction n as [|n IH]; intros c h Hb; [done|].
  pose proof Hb as (ls0 & Hc & Hall)%bounded_S. rewrite clear_container_S.
  (* after the first loop the container itself is unchanged: it is not
     reachable from its children *)
  assert (forall (ls : list loc) h1, (forall l, l ∈ ls <-> l ∈ ls0) ->
            clears (fun d => exists l v c', l ∈ ls /\ h_vals h !! l = Some v /\
                       val_container v = Some c' /\ rtc (child_of h) c' d) h h1 ->
            cell_same h h1 c) as Hsame.
  { intros ls h1 Hls Hcl1. destruct (clears_out _ _ _ Hcl1 c) as [(l & v & c' & Hl & Hv & Hvc & Hback)|]; [|done].
    exfalso. apply (bounded_acyclic _ _ _ c' Hb); [|done]. exists ls0, l, v. by rewrite <-Hls. }
  destruct c as [o|a]; simpl in Hc.
  - destruct (h_objs h !! o) as [m|] eqn:Hm; simplify_eq/=.
    assert (Hls : forall l, l ∈ map snd (hash_order m) <-> l ∈ (map_to_list m).*2).
    { intros l. by rewrite hash_order_perm. }
    qm_run (load_obj_ok _ _ _ Hm).
    destruct (clear_children_run n h (map snd (hash_order m)) IH) as (h1 & Hrun1 & Hcl1 & Hn1).
    { intros l Hl. apply Hall. by apply Hls. }
    qm_run Hrun1.
    assert (Hm1 : h_objs h1 !! o = Some m).
    { specialize (Hsame _ _ Hls Hcl1). simpl in Hsame. congruence. }
    qm_run (load_obj_ok _ _ _ Hm1).
    assert (Hnc : ~ tc (child_of h1) (CObj o) (CObj o))
      by (apply (bounded_no_cycle _ (S n)); by eapply bounded_clears).
    destruct (remove_all_run h1 o m Hm1 Hnc) as (h2 & Hrun2 & Hcl2 & Hn2).
    pose proof (rtc_children_iff h (CObj o) ((map_to_list m).*2) _ ltac:(simpl; by rewrite Hm) Hls) as Hiff.
    exists h2. split; [done|]. split; [eapply clears_iff|eapply notifies_iff]; [exact Hiff| |exact Hiff|].
    + exact (clears_trans _ _ _ _ _ Hcl1 Hcl2).
    + exact (notifies_trans _ _ _ _ _ Hcl1 (children_closed _ _) Hn1 Hn2).
  - qm_run (load_arr_ok _ _ _ Hc).
    destruct (clear_children_run n h ls0 IH) as (h1 & Hrun1 & Hcl1 & Hn1); [done|].
    qm_run Hrun1.
    assert (Ha1 : h_arrs h1 !! a = Some ls0).
    { specialize (Hsame ls0 h1 (fun _ => reflexivity _) Hcl1). simpl in Hsame. congruence. }
    destruct (store_arr_clears h1 a ls0 Ha1) as (h2 & Hrun2 & Hcl2 & Hn2).
    pose proof (rtc_children_iff h (CArr a) ls0 ls0 Hc (fun _ => reflexivity _)) as Hiff.
    exists h2. split; [done|]. split; [eapply clears_iff|eapply notifies_iff]; [exact Hiff| |exact Hiff|].
    + exact (clears_trans _ _ _ _ _ Hcl1 Hcl2).
    + exact (notifies_trans _ _ _ _ _ Hcl1 (children_closed _ _) Hn1 Hn2).
Qed.

(** Every heap property that [remove] and emptying an array keep,
    [clear] keeps together with well-formedness, on every run that
    returns, whatever the document. *)
Lemma clear_container_inv (P : heap -> Prop) :
  (forall h h' o k, wf_heap h -> P h -> QMJsonObject.remove o k h = Ok (tt, h') -> P h') ->
  (forall h a xs, P h -> P (set_arrs <[a:=xs]> h)) ->
  forall n c h h', wf_heap h -> P h -> clear_container n c h = Ok (tt, h') -> wf_heap h' /\ P h'.
Proof.
  intros HremP HarrP. induction n as [|n IH]; intros c h h' Hwf HP Hrun; [discriminate|].
  rewrite clear_container_S in Hrun.
  assert (Hchildren : forall ls h1 h2, wf_heap h1 -> P h1 ->
            foreach (clear_child n) ls h1 = Ok (tt, h2) -> wf_heap h2 /\ P h2).
  { intros ls h1 h2 Hw1 HP1. apply (foreach_ok_inv (fun _ s => wf_heap s /\ P s)); [done|].
    intros pre l post s1 s2 _ [Hws HPs] Hc. unfold clear_child in Hc.
    apply bind_inv in Hc as (v & s3 & Hv & Hc). unfold load_val in Hv.
    destruct (h_vals s1 !! l) as [v0|]; [|discriminate]. injection Hv as <- <-.
    destruct (val_container v0); [by eapply IH|unfold ret in Hc; by simplify_eq]. }
  destruct c as [o|a].
  - apply bind_inv in Hrun as (m & h1 & Hm & Hrun). unfold load_obj in Hm.
    destruct (h_objs h !! o); [|discriminate]. injection Hm as <- <-.
    apply bind_inv in Hrun as ([] & h2 & H2 & Hrun). destruct (Hchildren _ _ _ Hwf HP H2) as [Hw2 HP2].
    apply bind_inv in Hrun as (m' & h3 & Hm' & Hrun). unfold load_obj in Hm'.
    destruct (h_objs h2 !! o); [|discriminate]. injection Hm' as <- <-.
    revert Hrun. apply (foreach_ok_inv (fun _ s => wf_heap s /\ P s)); [done|].
    intros pre k post s1 s2 _ [Hws HPs] Hr. split; [by eapply QMJsonObject.remove_wf|by eapply HremP].
  - apply bind_inv in Hrun as (xs & h1 & Hxs & Hrun). unfold load_arr in Hxs.
    destruct (h_arrs h !! a); [|discriminate]. injection Hxs as <- <-.
    apply bind_inv in Hrun as ([] & h2 & H2 & Hrun). destruct (Hchildren _ _ _ Hwf HP H2) as [Hw2 HP2].
    unfold store_arr in Hrun. destruct (h_arrs h2 !! a) eqn:Ha; [|discriminate]. injection Hrun as <-.
    split; [apply wf_store_arr; [done|by eexists|constructor]|by apply HarrP].
Qed.

End ClearRuns.

(** ** Theorems *)

Section ClearTheorems.
Context `{!HashOrder}.
Implicit Types (h : heap) (c d : container) (R : container -> Prop).

Lemma clears_cell_objs R h h' o :
  clears R h h' ->
  h_objs h' !! o = h_objs h !! o \/ h_objs h' !! o = (fun _ => ∅) <$> h_objs h !! o.
Proof.
  intros Hcl. destruct (clears_out _ _ _ Hcl (CObj o)) as [HR|Hs]; [|by left].
  right. exact (clears_in _ _ _ Hcl _ HR).
Qed.

Lemma clears_cell_arrs R h h' a :
  clears R h h' ->
  h_arrs h' !! a = h_arrs h !! a \/ h_arrs h' !! a = (fun _ => []) <$> h_arrs h !! a.
Proof.
  intros Hcl. destruct (clears_out _ _ _ Hcl (CArr a)) as [HR|Hs]; [|by left].
  right. exact (clears_in _ _ _ Hcl _ HR).
Qed.

Lemma clears_wf R h h' : wf_heap h -> clears R h h' -> wf_heap h'.
Proof.
  intros (Hv & Ho & Ha & Hn & Hna & Hno) Hcl.
  pose proof (fun o => clears_cell_objs R h h' o Hcl) as Hobj.
  pose proof (fun a => clears_cell_arrs R h h' a Hcl) as Harr.
  destruct Hcl as [Hvals Hnext Hnull Hnoarr Hnoobj _ _].
  assert (Hso : forall o, is_Some (h_objs h !! o) -> is_Some (h_objs h' !! o)).
  { intros o [m Hm]. destruct (Hobj o) as [->| ->]; rewrite Hm; by eexists. }
  assert (Hsa : forall a, is_Some (h_arrs h !! a) -> is_Some (h_arrs h' !! a)).
  { intros a [xs Hxs]. destruct (Harr a) as [->| ->]; rewrite Hxs; by eexists. }
  unfold wf_heap. rewrite Hvals, Hnext, Hnull, Hnoarr, Hnoobj. split_and!; auto.
  - intros l v Hl. destruct (Hv _ _ Hl) as [? Hok]. split; [done|].
    destruct v; simpl in *; auto.
  - intros o m Hm. destruct (Hobj o) as [Heq|Heq]; rewrite Heq in Hm.
    + auto.
    + destruct (h_objs h !! o) eqn:E; simplify_eq/=. split; [by destruct (Ho _ _ E)|done].
  - intros a xs Hxs. destruct (Harr a) as [Heq|Heq]; rewrite Heq in Hxs.
    + auto.
    + destruct (h_arrs h !! a) eqn:E; simplify_eq/=. split; [by destruct (Ha _ _ E)|done].
Qed.

(** C3: when the document under an object has depth below the fuel,
    [clear] terminates; it empties the object and every object and
    array reachable from it, leaves every other container and every
    value cell unchanged, and preserves well-formedness. *)
Theorem clear_terminates_and_empties h o n :
  wf_heap h -> bounded n h (CObj o) = true ->
  exists h', clear n o h = Ok (tt, h') /\ wf_heap h' /\ h_vals h' = h_vals h /\
    (forall c, rtc (child_of h) (CObj o) c -> container_empty h' c) /\
    (forall c, ~ rtc (child_of h) (CObj o) c -> cell_same h h' c).
Proof.
  intros Hwf Hb. destruct (clear_container_spec n (CObj o) h Hb) as (h' & Hrun & Hcl & _).
  exists h'. split_and!; [done|by eapply clears_wf|apply (clears_vals _ _ _ Hcl)| |].
  - intros c Hc. destruct (bounded_rtc _ _ _ _ Hb Hc) as ([|n'] & _ & Hb'); [done|].
    apply bounded_S in Hb' as (ls & Hls & _). unfold container_empty.
    by rewrite (cell_cleared_contents _ _ _ (clears_in _ _ _ Hcl _ Hc)), Hls.
  - intros c Hc. by destruct (clears_out _ _ _ Hcl c).
Qed.

(** C4: [clear] sends exactly as many [itemRemoved] signals from each
    object reachable from the cleared one as that object had entries
    before the call, and no other signal: every signal it appends is an
    [itemRemoved] from a reachable object, even when sub-objects are
    shared.  The key and handle of each signal are read from the erased
    node (line 542) and are left out. *)
Theorem clear_notifies_each_entry_once h o n :
  bounded n h (CObj o) = true ->
  exists h' evs, clear n o h = Ok (tt, h') /\ h_log h' = h_log h ++ evs /\
    Forall (fun ev => exists o' k l, ev = ItemRemoved o' k l /\ rtc (child_of h) (CObj o) (CObj o')) evs /\
    forall o' m, rtc (child_of h) (CObj o) (CObj o') -> h_objs h !! o' = Some m ->
      length (filter (removed_from o') evs) = size m.
Proof.
  intros Hb. destruct (clear_container_spec n (CObj o) h Hb) as (h' & Hrun & _ & evs & Hl & Hnd & Hin & _).
  exists h', evs. split_and!; [done|done| |intros; by eapply removals_count].
  apply Forall_forall. intros ev (o' & k & l & m & -> & HR & _)%Hin. by exists o', k, l.
Qed.

(** C5: [clear] notifies bottom-up.  Take an [itemRemoved] of an object
    [o1] and one of an object [o2] below [o1] in the document before the
    call.  Then the one of [o2] comes first.  So an observer sees a
    sub-object emptied before any entry of its parent is removed, at
    every depth, whatever the iteration order and even with shared
    sub-objects. *)
Theorem clear_notifies_bottom_up h o n :
  bounded n h (CObj o) = true ->
  exists h' evs, clear n o h = Ok (tt, h') /\ h_log h' = h_log h ++ evs /\
    forall i j o1 k1 l1 o2 k2 l2, evs !! i = Some (ItemRemoved o1 k1 l1) ->
      evs !! j = Some (ItemRemoved o2 k2 l2) -> tc (child_of h) (CObj o1) (CObj o2) -> j < i.
Proof.
  intros Hb. destruct (clear_container_spec n (CObj o) h Hb) as (h' & Hrun & _ & evs & Hl & _ & _ & Hbu).
  by exists h', evs.
Qed.

(** C24: on an object that holds itself, [clear] recurses forever:
    it runs out of fuel whatever the fuel. *)
Theorem clear_cyclic_diverges : forall n, clear n 5 QMJsonObject.cyclic_heap = Err OutOfFuel.
Proof.
  intros n. induction n as [|n IH]; [done|]. unfold clear. rewrite clear_container_S.
  qm_run (load_obj_ok QMJsonObject.cyclic_heap 5 {["self" := 4%positive]} eq_refl).
  assert (clear_child n 4 QMJsonObject.cyclic_heap = Err OutOfFuel) as Hchild.
  { unfold clear_child. qm_run (load_val_ok QMJsonObject.cyclic_heap 4 (VObject 5) eq_refl).
    exact IH. }
  rewrite QMJsonObject.hash_order_singleton. simpl. unfold bind. by rewrite Hchild.
Qed.
End ClearTheorems.

(** Witness of C3 on the example document: clearing the outer object
    (fuel 3) also empties the nested object at 8. *)
Lemma clear_terminates_and_empties_witness :
  wf_heap QMJsonObject.ex_heap /\ bounded 3 QMJsonObject.ex_heap (CObj 7) = true /\
  exists h', @clear stdpp_order 3 7 QMJsonObject.ex_heap = Ok (tt, h') /\
             container_empty h' (CObj 7) /\ container_empty h' (CObj 8).
Proof.
  assert (Hwf : wf_heap QMJsonObject.ex_heap) by (apply wf_heap_check; vm_compute; reflexivity).
  assert (Hb : bounded 3 QMJsonObject.ex_heap (CObj 7) = true) by (vm_compute; reflexivity).
  split; [exact Hwf|]. split; [exact Hb|].
  destruct (@clear_terminates_and_empties stdpp_order _ 7 3 Hwf Hb) as (h' & Hrun & _ & _ & Hemp & _).
  exists h'. split; [exact Hrun|]. split; apply Hemp.
  - apply rtc_refl.
  - apply rtc_once. exists [6%positive; 4%positive], 6%positive, (VObject 8).
    split; [vm_compute; reflexivity|]. split; [left|]. split; reflexivity.
Defined.

(** Witness of C4 on the example document: clearing the outer object
    notifies its two entries and the entry of the nested object. *)
Lemma clear_notifies_each_entry_once_witness :
  bounded 3 QMJsonObject.ex_heap (CObj 7) = true /\
  exists h' evs, @clear stdpp_order 3 7 QMJsonObject.ex_heap = Ok (tt, h') /\
    h_log h' = h_log QMJsonObject.ex_heap ++ evs /\
    length (filter (removed_from 7) evs) = 2 /\ length (filter (removed_from 8) evs) = 1.
Proof.
  split; [vm_compute; reflexivity|].
  destruct (@clear_notifies_each_entry_once stdpp_order QMJsonObject.ex_heap 7 3) as (h' & evs & Hr & Hl & _ & Hc);
    [vm_compute; reflexivity|].
  exists h', evs. split_and!; [done|done|..].
  - rewrite (Hc 7%positive QMJsonObject.ex_obj); [reflexivity|apply rtc_refl|reflexivity].
  - rewrite (Hc 8%positive {["z" := 9%positive]}); [reflexivity| |reflexivity].
    apply rtc_once. eexists _, 6%positive, (VObject 8).
    split_and!; [reflexivity|apply list_elem_of_In; vm_compute; tauto|reflexivity|reflexivity].
Defined.

(** Witness of C5 on the example document: the entry of the nested
    object at 8 is notified before the entry "y" of the outer object. *)
Lemma clear_notifies_bottom_up_witness :
  bounded 3 QMJsonObject.ex_heap (CObj 7) = true /\
  exists h' evs, @clear stdpp_order 3 7 QMJsonObject.ex_heap = Ok (tt, h') /\
    h_log h' = h_log QMJsonObject.ex_heap ++ evs /\
    forall i j o1 k1 l1 o2 k2 l2, evs !! i = Some (ItemRemoved o1 k1 l1) ->
      evs !! j = Some (ItemRemoved o2 k2 l2) -> tc (child_of QMJsonObject.ex_heap) (CObj o1) (CObj o2) -> j < i.
Proof.
  split; [vm_compute; reflexivity|]. apply clear_notifies_bottom_up. vm_compute. reflexivity.
Defined.
