(* ===== verification/Array.v ===== *)
(** * QMJsonArray::unite: the interface QMJsonObject::unite relies on

    [QMJsonArray] is not under [src/].  [QMJsonObject::unite] calls
    [value1->toArray()->unite(value2->toArray(), unitePolicy)] when both
    values of a key are arrays, and the spec (section 4.3) leaves the
    combination strategy to the array: it only promises that the call
    mutates the receiver in place.  [ArrayUnite] states that promise; the
    theorems of [Unite.v] are proved for every instance.

    [qmjson_array_unite] is one instance, written from the two strategies
    the spec names (append-all and index-wise merge). *)

From stdpp Require Import base gmap strings list.
From S2P Require Import Prelude Heap.

(** The promise: on two arrays of a well-formed heap, [array_unite]
    succeeds and replaces the receiver's list by a list of valid handles;
    no other cell, the allocator, the defaults and the log are touched. *)
Class ArrayUnite := {
  array_policy : Type;
  array_unite : array_policy -> loc -> loc -> M unit;
  array_unite_spec : forall p a1 a2 h xs1 xs2,
    wf_heap h -> h_arrs h !! a1 = Some xs1 -> h_arrs h !! a2 = Some xs2 ->
    exists xs, array_unite p a1 a2 h = Ok (tt, set_arrs <[a1:=xs]> h) /\
               Forall (fun l => is_Some (h_vals h !! l)) xs
}.

Inductive QMJsonArrayUnitePolicy :=
| QMJsonArrayUnitePolicy_Append
| QMJsonArrayUnitePolicy_Replace.

(** Append-all: the other array's handles after the receiver's.
    Index-wise: the other array's handles over the receiver's first
    elements, the receiver's longer tail kept. *)
Definition array_unite_impl (p : QMJsonArrayUnitePolicy) (a1 a2 : loc) : M unit :=
  let* xs1 := load_arr a1 in
  let* xs2 := load_arr a2 in
  match p with
  | QMJsonArrayUnitePolicy_Append => store_arr a1 (xs1 ++ xs2)
  | QMJsonArrayUnitePolicy_Replace => store_arr a1 (xs2 ++ drop (length xs2) xs1)
  end.

#[export] Instance qmjson_array_unite : ArrayUnite.
Proof.
  refine {| array_policy := QMJsonArrayUnitePolicy; array_unite := array_unite_impl |}.
  intros p a1 a2 h xs1 xs2 (_ & _ & Ha & _) H1 H2.
  pose proof (proj2 (Ha _ _ H1)) as F1. pose proof (proj2 (Ha _ _ H2)) as F2.
  unfold array_unite_impl. qm_run (load_arr_ok _ _ _ H1).
  qm_run (load_arr_ok _ _ _ H2).
  destruct p; (eexists; split; [apply store_arr_ok; by eexists|]).
  - by apply Forall_app.
  - apply Forall_app. split; [done|]. by apply Forall_drop.
Defined.
