(* ===== verification/Unite.v ===== *)
(** * QMJsonObject::unite: the deep merge

    [unite(object, replacementPolicy, unitePolicy)] (qmjsonobject.cpp,
    lines 131-162) walks the keys of [object] in its hash's iteration
    order.  For a key present on both sides it recurses when both values
    are objects, delegates to [QMJsonArray::unite] when both are arrays,
    and otherwise calls [insert(key, value2, replacementPolicy)]; a key
    missing from [this] is inserted under the same policy.  The recursion
    is bounded by fuel; the array merge is any [ArrayUnite] instance.

    The theorems: the result of a merge without nested conflicts (the
    policy decides every conflicting key, a missing key is inserted under
    either policy, the empty key of [object] is dropped); preservation of
    well-formedness; the recursive merge of the spec's example; that on
    shared (aliased) sub-objects the result depends on the iteration
    order; that on a document containing itself the merge does not
    terminate; and that on a document without cycles but with a
    sub-object shared by [this] and [object], the merge can create a
    cycle, or run forever, depending on the iteration order. *)

From stdpp Require Import base gmap strings list.
From Stdlib Require Import Floats.
From S2P Require Import Prelude Heap Value Object Array.

Section Unite.
Context `{!HashOrder} `{!ArrayUnite}.

Fixpoint unite (fuel : nat) (o : loc) (object : option loc)
    (replacementPolicy : QMJsonReplacementPolicy) (unitePolicy : array_policy) : M unit :=
  match object with
  | None => ret tt
  | Some ot =>
      match fuel with
      | O => throw OutOfFuel
      | S fuel' =>
          let* ks := QMJsonObject.keys ot in
          foreach (fun key =>
            let* present := QMJsonObject.contains o key in
            if present then
              let* l1 := QMJsonObject.value o key in
              let* l2 := QMJsonObject.value ot key in
              let* v1 := load_val l1 in
              let* v2 := load_val l2 in
              match v1, v2 with
              | VObject o1, VObject o2 =>
                  unite fuel' o1 (Some o2) replacementPolicy unitePolicy
              | VArray a1, VArray a2 => array_unite unitePolicy a1 a2
              | _, _ => QMJsonObject.insert o key (Some l2) replacementPolicy
              end
            else
              let* l2 := QMJsonObject.value ot key in
              QMJsonObject.insert o key (Some l2) replacementPolicy) ks
      end
  end.
End Unite.

(** ** The merge of two maps, as a pure function

    [merge_pol p m1 m2] is the map of [this] after inserting every entry
    of [m2] into [m1] under policy [p]: the left-biased union of stdpp
    with [m2] first for [Replace] and [m1] first for [Ignore]. *)
Definition merge_pol (p : QMJsonReplacementPolicy) (m1 m2 : gmap string loc) : gmap string loc :=
  match p with
  | QMJsonReplacementPolicy_Replace => m2 ∪ m1
  | QMJsonReplacementPolicy_Ignore => m1 ∪ m2
  end.

(** The map [unite] computes when no key holds two objects or two
    arrays: [insert] drops the empty key of [object]. *)
Definition unite_map (m1 m2 : gmap string loc) (p : QMJsonReplacementPolicy) : gmap string loc :=
  merge_pol p m1 (delete "" m2).

(** The entries of [m2] whose keys are in [pre] and not empty. *)
Definition merged_part (m2 : gmap string loc) (pre : list string) : gmap string loc :=
  filter (fun kv => kv.1 ∈ pre /\ kv.1 <> "") m2.

(** No key of both maps holds two objects or two arrays. *)
Definition no_nested_conflict (h : heap) (m1 m2 : gmap string loc) : bool :=
  forallb (fun kl =>
    match m1 !! kl.1 with
    | None => true
    | Some l1 =>
        match h_vals h !! l1, h_vals h !! kl.2 with
        | Some v1, Some v2 =>
            negb (QMJsonValue.isObject v1 && QMJsonValue.isObject v2) &&
            negb (QMJsonValue.isArray v1 && QMJsonValue.isArray v2)
        | _, _ => true
        end
    end) (map_to_list m2).

(** The signals [unite] sends for the key [k] of [object] when no key
    holds two objects or two arrays: those of [insert(k, object[k], p)]
    on [this]'s map. *)
Definition unite_key_events (o : loc) (m1 m2 : gmap string loc) (p : QMJsonReplacementPolicy)
    (k : string) : list event :=
  match m2 !! k with
  | Some l2 => QMJsonObject.insert_events o m1 k l2 p
  | None => []
  end.

(** The signals of the whole merge, key by key in the hash's order. *)
Definition unite_events `{!HashOrder} (o : loc) (m1 m2 : gmap string loc)
    (p : QMJsonReplacementPolicy) : list event :=
  concat (unite_key_events o m1 m2 p <$> map fst (hash_order m2)).

(** ** Example documents *)

(** Two flat objects: A = [{"x": 1.0, "k": true}] at 10 and
    B = [{"x": 2.0, "": "e", "n": null}] at 14. *)
Definition flat_heap : heap :=
  mkHeap (list_to_map [(1, VNull); (11, VDouble 1.0); (12, VBool true);
                       (13, VDouble 2.0); (15, VString "e"); (16, VNull)])%positive
         (list_to_map [(3, ∅); (10, {["x" := 11; "k" := 12]});
                       (14, {["x" := 13; "" := 15; "n" := 16]})])%positive
         {[2%positive := []]} 17%positive 1%positive 2%positive 3%positive [].

(** The spec's example: A = [{"x": {"y": 1}}] at 10, B = [{"x": {"z": 2}}]
    at 14. *)
Definition nested_heap : heap :=
  mkHeap (list_to_map [(1, VNull); (11, VObject 12); (13, VDouble 1.0);
                       (15, VObject 16); (17, VDouble 2.0)])%positive
         (list_to_map [(3, ∅); (10, {["x" := 11]}); (12, {["y" := 13]});
                       (14, {["x" := 15]}); (16, {["z" := 17]})])%positive
         {[2%positive := []]} 18%positive 1%positive 2%positive 3%positive [].

(** Aliasing: both keys of A (at 10) hold the same value 11, the empty
    object X at 12; B (at 14) maps "a" to {"p": 1.0} and "b" to
    {"p": 2.0}. *)
Definition aliased_heap : heap :=
  mkHeap (list_to_map [(1, VNull); (11, VObject 12); (15, VObject 17);
                       (16, VObject 18); (19, VDouble 1.0); (20, VDouble 2.0)])%positive
         (list_to_map [(3, ∅); (10, {["a" := 11; "b" := 11]}); (12, ∅);
                       (14, {["a" := 15; "b" := 16]}); (17, {["p" := 19]});
                       (18, {["p" := 20]})])%positive
         {[2%positive := []]} 21%positive 1%positive 2%positive 3%positive [].

(** Shared handles, no cycle: A (at 10) = [{"a": X, "c": X}] and
    B (at 14) = [{"a": Z, "c": X}] with X (at 30) = [{"b": null}] and
    Z (at 31) = [{"b": X}]; A's "c" and B's "c" share the object X. *)
Definition shared_heap : heap :=
  mkHeap (list_to_map [(1, VNull); (21, VObject 30); (22, VObject 30); (23, VObject 31);
                       (24, VObject 30); (25, VObject 30); (26, VNull)])%positive
         (list_to_map [(3, ∅); (10, {["a" := 21; "c" := 22]}); (14, {["a" := 23; "c" := 24]});
                       (30, {["b" := 26]}); (31, {["b" := 25]})])%positive
         {[2%positive := []]} 32%positive 1%positive 2%positive 3%positive [].

(** ** Lemmas on the pure merge *)

Section MergeLemmas.
Implicit Types (m : gmap string loc) (pre : list string).

Lemma merged_part_nil m2 : merged_part m2 [] = ∅.
Proof.
  apply map_empty. intros k. unfold merged_part. rewrite map_lookup_filter.
  destruct (m2 !! k); simpl; [|done]. repeat case_guard; simpl; try done; set_solver.
Qed.

Lemma merged_part_notin m2 pre k : k ∉ pre -> merged_part m2 pre !! k = None.
Proof.
  intros Hk. unfold merged_part. rewrite map_lookup_filter.
  destruct (m2 !! k); simpl; [|done]. repeat case_guard; simpl; try done; set_solver.
Qed.

Lemma merged_part_snoc m2 pre k l :
  m2 !! k = Some l ->
  merged_part m2 (pre ++ [k]) =
  if String.eqb k "" then merged_part m2 pre else <[k:=l]> (merged_part m2 pre).
Proof.
  intros Hk. apply map_eq. intros i. unfold merged_part.
  destruct (String.eqb_spec k "") as [->|Hne].
  - rewrite !map_lookup_filter. destruct (m2 !! i); simpl; [|done].
    repeat case_guard; set_solver.
  - rewrite lookup_insert, !map_lookup_filter. case_decide as Hi.
    + subst i. rewrite Hk. simpl. case_guard; [done|set_solver].
    + destruct (m2 !! i); simpl; [|done]. repeat case_guard; set_solver.
Qed.

Lemma merged_part_all m2 (ks : list string) :
  (forall k, is_Some (m2 !! k) -> k ∈ ks) -> merged_part m2 ks = delete "" m2.
Proof.
  intros Hks. apply map_eq. intros i. unfold merged_part. rewrite map_lookup_filter, lookup_delete.
  case_decide as Hi.
  - subst i. destruct (m2 !! ""); simpl; [|done]. repeat case_guard; simpl; try done; set_solver.
  - destruct (m2 !! i) as [l|] eqn:Hl; simpl; [|done]. case_guard as Hg; [done|].
    exfalso. apply Hg. split; [|done]. apply Hks. by eexists.
Qed.

(** A non-empty key missing from [this] takes [object]'s handle. *)
Lemma unite_map_new_key m1 m2 p k l :
  k <> "" -> m1 !! k = None -> m2 !! k = Some l -> unite_map m1 m2 p !! k = Some l.
Proof.
  intros Hk H1 H2. unfold unite_map, merge_pol.
  destruct p; apply lookup_union_Some_raw; rewrite lookup_delete_ne by done; auto.
Qed.

Lemma merge_pol_notin p m1 m2 pre k :
  k ∉ pre -> merge_pol p m1 (merged_part m2 pre) !! k = m1 !! k.
Proof.
  intros Hk. destruct p; simpl; rewrite lookup_union, merged_part_notin by done;
    by destruct (m1 !! k).
Qed.

(** One iteration of the loop of [unite] without a nested conflict. *)
Lemma merge_pol_step p m1 m2 pre k l :
  k ∉ pre -> m2 !! k = Some l ->
  QMJsonObject.insert_map (merge_pol p m1 (merged_part m2 pre)) k l p =
  merge_pol p m1 (merged_part m2 (pre ++ [k])).
Proof.
  intros Hk Hl. unfold QMJsonObject.insert_map. rewrite (merged_part_snoc _ _ _ _ Hl).
  destruct (String.eqb k ""); [done|]. rewrite merge_pol_notin by done.
  destruct p; simpl.
  - rewrite insert_union_l. by destruct (m1 !! k).
  - destruct (m1 !! k) eqn:Hm1.
    + apply map_eq. intros i. rewrite !lookup_union, lookup_insert.
      case_decide; [subst; rewrite Hm1; by destruct (merged_part m2 pre !! _)|done].
    + by rewrite insert_union_r by done.
Qed.

Lemma no_nested_conflict_spec h m1 m2 k l1 l2 v1 v2 :
  no_nested_conflict h m1 m2 = true -> m1 !! k = Some l1 -> m2 !! k = Some l2 ->
  h_vals h !! l1 = Some v1 -> h_vals h !! l2 = Some v2 ->
  QMJsonValue.isObject v1 && QMJsonValue.isObject v2 = false /\
  QMJsonValue.isArray v1 && QMJsonValue.isArray v2 = false.
Proof.
  intros Hnc H1 H2 Hv1 Hv2. unfold no_nested_conflict in Hnc.
  rewrite forallb_forall in Hnc. specialize (Hnc (k, l2)).
  rewrite <-list_elem_of_In, elem_of_map_to_list in Hnc. specialize (Hnc H2).
  simpl in Hnc. rewrite H1, Hv1, Hv2 in Hnc.
  apply andb_prop in Hnc as [Ho Ha]. apply negb_true_iff in Ho, Ha. done.
Qed.
End MergeLemmas.

(** ** Theorems *)

Section UniteTheorems.
Context `{!HashOrder} `{!ArrayUnite}.
Implicit Types (h : heap) (o : loc) (m : gmap string loc).

(** The run of [unite] without nested conflicts, on the model's
    [erase]: [this]'s map becomes [unite_map], the log grows by the
    signals of the inserts.  This includes [ot = o], where line 155 hands
    [insert] a reference into the hash it erases first. *)
Lemma unite_shallow_run h o ot m1 m2 rp ap n :
  wf_heap h -> h_objs h !! o = Some m1 -> h_objs h !! ot = Some m2 ->
  no_nested_conflict h m1 m2 = true ->
  exists h', unite (S n) o (Some ot) rp ap h = Ok (tt, h') /\
    h_objs h' = <[o:=unite_map m1 m2 rp]> (h_objs h) /\ same_but_objs h h' /\
    h_log h' = h_log h ++ unite_events o m1 m2 rp.
Proof.
  intros Hwf Hm1 Hm2 Hnc. simpl. qm_run (QMJsonObject.keys_ok _ _ _ Hm2).
  match goal with |- context [foreach ?f ?ks h] =>
    destruct (foreach_rule (fun pre h1 =>
      h_objs h1 = <[o:=merge_pol rp m1 (merged_part m2 pre)]> (h_objs h) /\ same_but_objs h h1 /\
      h_log h1 = h_log h ++ concat (unite_key_events o m1 m2 rp <$> pre))
      f ks h) as (h' & Hrun & Hobj & Hs & Hlog) end.
  - split_and!; [|apply same_but_objs_refl|simpl; by rewrite app_nil_r]. rewrite merged_part_nil.
    destruct rp; simpl; rewrite ?map_empty_union, ?map_union_empty; by rewrite insert_id.
  - intros pre k post h1 Hks (Hobj1 & Hs1 & Hlog1).
    destruct (QMJsonObject.keys_split_notin _ _ _ _ Hks) as [Hk [l2 Hl2]].
    assert (Ho1 : h_objs h1 !! o = Some (merge_pol rp m1 (merged_part m2 pre)))
      by (rewrite Hobj1; apply lookup_insert_eq).
    assert (HM := merge_pol_notin rp m1 m2 pre k Hk).
    assert (Hv2 : QMJsonObject.value ot k h1 = Ok (l2, h1)).
    { destruct (decide (ot = o)) as [->|Hne].
      - rewrite (QMJsonObject.value_ok _ _ _ _ Ho1), HM. rewrite Hm1 in Hm2.
        injection Hm2 as ->. by rewrite Hl2.
      - rewrite (QMJsonObject.value_ok _ _ m2) by (by rewrite Hobj1, lookup_insert_ne).
        by rewrite Hl2. }
    destruct (QMJsonObject.insert_run h1 o _ k l2 rp Ho1) as (h2 & Hins & Hobj2 & Hs2 & Hlog2).
    exists h2. split.
    + rewrite (bind_ok _ _ _ _ _ (QMJsonObject.contains_ok _ _ _ k Ho1)), HM.
      destruct (m1 !! k) as [l1|] eqn:Hl1; simpl.
      * rewrite (bind_ok _ _ _ _ _ (QMJsonObject.value_ok _ _ _ k Ho1)), HM. simpl.
        qm_run Hv2.
        destruct (wf_obj_entry _ _ _ _ _ Hwf Hm1 Hl1) as [v1 Hv1].
        destruct (wf_obj_entry _ _ _ _ _ Hwf Hm2 Hl2) as [v2 Hv2'].
        destruct (no_nested_conflict_spec _ _ _ _ _ _ _ _ Hnc Hl1 Hl2 Hv1 Hv2') as [Hno Hna].
        destruct Hs1 as [Hvals1 _].
        qm_run (load_val_ok h1 l1 v1 ltac:(by rewrite Hvals1)).
        qm_run (load_val_ok h1 l2 v2 ltac:(by rewrite Hvals1)).
        destruct v1, v2; simpl in Hno, Hna; try discriminate; exact Hins.
      * by qm_run Hv2.
    + split_and!; [|by eapply same_but_objs_trans|].
      * by rewrite Hobj2, Hobj1, insert_insert_eq, merge_pol_step.
      * rewrite Hlog2, Hlog1, (QMJsonObject.insert_events_lookup _ _ m1 _ _ _ HM), fmap_app, concat_app,
          <-app_assoc. simpl. unfold unite_key_events. rewrite Hl2. by rewrite app_nil_r.
  - exists h'. split; [done|]. split_and!; [|done|exact Hlog]. rewrite Hobj. unfold unite_map.
    rewrite (merged_part_all m2); [done|]. intros k. apply QMJsonObject.elem_of_hash_order_keys.
Qed.

(** C2: without nested conflicts and for two distinct objects, [unite]
    inserts every entry of [object] into [this] under the replacement
    policy: [Replace] takes [object]'s value on a common key, [Ignore]
    keeps [this]'s, a key missing from [this] is inserted under either
    policy (the handle is then shared by both objects), and the empty key
    of [object] is dropped.  Only the map of [this] changes.  The signals
    are those of the inserts, key by key in [object]'s order:
    [itemAdded(key, value)] for a missing key, an [itemRemoved] then
    [itemAdded] for a conflict under [Replace], nothing under [Ignore] or
    for the empty key; the payload of each [itemRemoved] is read from the
    erased node (line 542) and is left out. *)
Theorem unite_shallow h o ot m1 m2 rp ap n :
  wf_heap h -> o <> ot -> h_objs h !! o = Some m1 -> h_objs h !! ot = Some m2 ->
  no_nested_conflict h m1 m2 = true ->
  exists h', unite (S n) o (Some ot) rp ap h = Ok (tt, h') /\
    h_objs h' = <[o:=unite_map m1 m2 rp]> (h_objs h) /\ same_but_objs h h' /\
    observe <$> h_log h' = observe <$> (h_log h ++ unite_events o m1 m2 rp).
Proof.
  intros Hwf _ Hm1 Hm2 Hnc.
  destruct (unite_shallow_run h o ot m1 m2 rp ap n Hwf Hm1 Hm2 Hnc) as (h' & Hrun & Hobj & Hs & Hl).
  exists h'. by rewrite Hl.
Qed.
End UniteTheorems.

Section UniteMore.
Context `{!HashOrder} `{!ArrayUnite}.
Implicit Types (h : heap) (o : loc) (m : gmap string loc).

Lemma value_valid h o k l h' :
  wf_heap h -> QMJsonObject.value o k h = Ok (l, h') -> h' = h /\ is_Some (h_vals h !! l).
Proof.
  intros Hwf Hrun. unfold QMJsonObject.value in Hrun. qm_inv; split; try done.
  - by eapply wf_obj_entry.
  - by apply wf_null.
Qed.

(** Every heap property that [insert] and the array merge keep, [unite]
    keeps together with well-formedness, on every run that returns. *)
Lemma unite_inv (P : heap -> Prop) :
  (forall h h' o k l p, wf_heap h -> P h -> is_Some (h_vals h !! l) ->
     QMJsonObject.insert o k (Some l) p h = Ok (tt, h') -> P h') ->
  (forall h a xs, P h -> P (set_arrs <[a:=xs]> h)) ->
  forall n h o object rp ap h', wf_heap h -> P h ->
    unite n o object rp ap h = Ok (tt, h') -> wf_heap h' /\ P h'.
Proof.
  intros HinsP HarrP.
  induction n as [|n IH]; intros h o [ot|] rp ap h' Hwf HP Hrun; simpl in Hrun;
    unfold ret, throw in Hrun; try (simplify_eq; done).
  apply bind_inv in Hrun as (ks & h0 & Hks & Hrun).
  unfold QMJsonObject.keys, load_obj, bind, ret in Hks.
  destruct (h_objs h !! ot); [|discriminate]. injection Hks as <- <-.
  revert Hrun. apply (foreach_ok_inv (fun _ h1 => wf_heap h1 /\ P h1)); [done|].
  intros pre k post h1 h2 _ [Hwf1 HP1] Hstep.
  assert (Hins : forall l, is_Some (h_vals h1 !! l) ->
            QMJsonObject.insert o k (Some l) rp h1 = Ok (tt, h2) -> wf_heap h2 /\ P h2).
  { intros l Hl Hi. split; [eapply QMJsonObject.insert_wf; [done| |exact Hi]; by intros ? [= <-]|].
    by eapply HinsP. }
  apply bind_inv in Hstep as (b & h3 & Hb & Hstep).
  unfold QMJsonObject.contains, load_obj, bind, ret in Hb.
  destruct (h_objs h1 !! o); [|discriminate]. injection Hb as <- <-.
  case_bool_decide.
  - apply bind_inv in Hstep as (l1 & h4 & Hl1 & Hstep).
    apply value_valid in Hl1 as [-> [v1 Hv1]]; [|done].
    apply bind_inv in Hstep as (l2 & h5 & Hl2 & Hstep).
    apply value_valid in Hl2 as [-> [v2 Hv2]]; [|done].
    rewrite (bind_ok _ _ _ _ _ (load_val_ok _ _ _ Hv1)),
      (bind_ok _ _ _ _ _ (load_val_ok _ _ _ Hv2)) in Hstep.
    destruct v1 as [| | | |a1|o1], v2 as [| | | |a2|o2]; try (apply (Hins l2); [by eexists|exact Hstep]).
    + destruct (wf_val_refs _ _ _ Hwf1 Hv1) as [xs1 Hxs1].
      destruct (wf_val_refs _ _ _ Hwf1 Hv2) as [xs2 Hxs2].
      destruct (array_unite_spec ap a1 a2 h1 xs1 xs2 Hwf1 Hxs1 Hxs2) as (xs & Hau & Hxs).
      rewrite Hau in Hstep. simplify_eq. split; [apply wf_store_arr; [done|by eexists|done]|by apply HarrP].
    + by eapply IH.
  - apply bind_inv in Hstep as (l2 & h5 & Hl2 & Hstep).
    apply value_valid in Hl2 as [-> [v2 Hv2]]; [|done].
    apply (Hins l2); [by eexists|exact Hstep].
Qed.

(** An object whose only entry holds the object itself: uniting it with
    itself recurses into the same call at every level. *)
Lemma unite_self_loop n h o k l rp ap :
  h_objs h !! o = Some {[k := l]} -> h_vals h !! l = Some (VObject o) ->
  unite n o (Some o) rp ap h = Err OutOfFuel.
Proof.
  intros Hm Hl. induction n as [|n IH]; [done|].
  cbn [unite]. qm_run (QMJsonObject.keys_ok _ _ _ Hm).
  rewrite QMJsonObject.hash_order_singleton. cbn [map fst foreach]. apply bind_err.
  qm_run (QMJsonObject.contains_ok _ _ _ k Hm). rewrite lookup_singleton_eq, bool_decide_true by by eexists.
  rewrite !(bind_ok _ _ _ _ _ (QMJsonObject.value_ok _ _ _ k Hm)), lookup_singleton_eq. cbn [default].
  rewrite !(bind_ok _ _ _ _ _ (load_val_ok _ _ _ Hl)). exact IH.
Qed.

(** C25: [unite] of an object with itself, when the object holds itself,
    recurses forever: it runs out of fuel whatever the fuel and the
    policies. *)
Theorem unite_cyclic_diverges :
  forall n rp ap, unite n 5 (Some 5%positive) rp ap QMJsonObject.cyclic_heap = Err OutOfFuel.
Proof. intros n rp ap. by apply (unite_self_loop n _ 5 "self" 4). Qed.
End UniteMore.

(** ** The spec's examples and the order dependence *)

(** The spec's example of a recursive merge: with A =
    [{"x": {"y": 1}}] and B = [{"x": {"z": 2}}], [A.unite(B, p, ap)]
    leaves A's inner object holding both "y" and "z" under either policy;
    A's own map is unchanged (its "x" is not replaced). *)
Example unite_nested_example : forall rp,
  exists h', @unite stdpp_order qmjson_array_unite 2 10 (Some 14%positive) rp
                    QMJsonArrayUnitePolicy_Append nested_heap = Ok (tt, h') /\
    h_objs h' !! 12%positive = Some {["y" := 13%positive; "z" := 17%positive]} /\
    h_objs h' !! 10%positive = h_objs nested_heap !! 10%positive.
Proof. intros []; (eexists; split; [reflexivity|]); split; vm_compute; reflexivity. Qed.

(** When two keys of [this] share one sub-object (a handle held
    twice), the merged document depends on the hash's iteration order:
    two valid orders give the shared object different values. *)
Example unite_order_dependent :
  exists h1 h2,
    @unite stdpp_order qmjson_array_unite 2 10 (Some 14%positive)
      QMJsonReplacementPolicy_Replace QMJsonArrayUnitePolicy_Append aliased_heap = Ok (tt, h1) /\
    @unite reverse_order qmjson_array_unite 2 10 (Some 14%positive)
      QMJsonReplacementPolicy_Replace QMJsonArrayUnitePolicy_Append aliased_heap = Ok (tt, h2) /\
    h_objs h1 !! 12%positive = Some {["p" := 20%positive]} /\
    h_objs h2 !! 12%positive = Some {["p" := 19%positive]}.
Proof.
  do 2 eexists. split; [reflexivity|]. split; [reflexivity|].
  split; vm_compute; reflexivity.
Qed.

(** C13: [unite] may run forever on a document without cycles.  On
    [shared_heap], both of whose objects have finite depth, under
    [Replace] and an order that visits "a" before "c", the merge of "a"
    stores X's handle into X itself; the merge of "c" then unites X with
    X, which holds itself, and recurses without end: the run fails for
    every fuel and every array policy. *)
Example unite_acyclic_diverges :
  bounded 3 shared_heap (CObj 10) = true /\ bounded 4 shared_heap (CObj 14) = true /\
  forall n ap, @unite reverse_order qmjson_array_unite n 10 (Some 14%positive)
                 QMJsonReplacementPolicy_Replace ap shared_heap = Err OutOfFuel.
Proof.
  split; [reflexivity|]. split; [reflexivity|].
  intros [|[|n]] ap; [reflexivity|reflexivity|].
  cbn [unite].
  assert (Hk : @QMJsonObject.keys reverse_order 14 shared_heap = Ok (["a"; "c"], shared_heap))
    by reflexivity.
  qm_run Hk. cbn [foreach].
  match goal with |- bind ?f _ _ = _ =>
    assert (Ha : exists h1, f shared_heap = Ok (tt, h1) /\
       h_objs h1 !! 10%positive = Some {["a" := 21; "c" := 22]}%positive /\
       h_objs h1 !! 14%positive = Some {["a" := 23; "c" := 24]}%positive /\
       h_objs h1 !! 30%positive = Some {["b" := 25]}%positive /\
       h_vals h1 !! 22%positive = Some (VObject 30) /\
       h_vals h1 !! 24%positive = Some (VObject 30) /\
       h_vals h1 !! 25%positive = Some (VObject 30)) end.
  { eexists. split; [reflexivity|]. vm_compute. repeat split. }
  destruct Ha as (h1 & Ha & H10 & H14 & H30 & H22 & H24 & H25).
  qm_run Ha. apply bind_err.
  assert (Hc : QMJsonObject.contains 10 "c" h1 = Ok (true, h1))
    by (rewrite (QMJsonObject.contains_ok _ _ _ _ H10); reflexivity).
  assert (Hv1 : QMJsonObject.value 10 "c" h1 = Ok (22%positive, h1))
    by (rewrite (QMJsonObject.value_ok _ _ _ _ H10); reflexivity).
  assert (Hv2 : QMJsonObject.value 14 "c" h1 = Ok (24%positive, h1))
    by (rewrite (QMJsonObject.value_ok _ _ _ _ H14); reflexivity).
  qm_run Hc. cbv beta iota. qm_run Hv1. qm_run Hv2.
  qm_run (load_val_ok _ _ _ H22). qm_run (load_val_ok _ _ _ H24). cbv beta iota.
  exact (@unite_self_loop reverse_order qmjson_array_unite (S n) h1 30 "b" 25
           QMJsonReplacementPolicy_Replace ap H30 H25).
Qed.

(** [unite] can turn a document without cycles into one with a
    cycle.  With the order that visits "c" first, the run on
    [shared_heap] returns, and leaves X (at 30) holding itself: a cycle
    of reference-counted handles, which no later release frees and on
    which [clear] and [unite] recurse forever. *)
Example unite_creates_cycle :
  bounded 3 shared_heap (CObj 10) = true /\ bounded 4 shared_heap (CObj 14) = true /\
  exists h', @unite stdpp_order qmjson_array_unite 3 10 (Some 14%positive)
               QMJsonReplacementPolicy_Replace QMJsonArrayUnitePolicy_Append shared_heap = Ok (tt, h') /\
    child_of h' (CObj 30) (CObj 30).
Proof.
  split; [reflexivity|]. split; [reflexivity|].
  eexists. split; [reflexivity|].
  exists [25%positive], 25%positive, (VObject 30). split_and!; [vm_compute; reflexivity|by left|vm_compute; reflexivity|reflexivity].
Qed.

(** Witness of C2 on two flat objects: under [Ignore], "x" keeps A's
    value, the missing "n" is inserted and the empty key is dropped. *)
Lemma unite_shallow_witness :
  exists h', @unite stdpp_order qmjson_array_unite 1 10 (Some 14%positive)
               QMJsonReplacementPolicy_Ignore QMJsonArrayUnitePolicy_Append flat_heap = Ok (tt, h') /\
    h_objs h' !! 10%positive = Some {["x" := 11%positive; "k" := 12%positive; "n" := 16%positive]}.
Proof.
  assert (Hwf : wf_heap flat_heap) by (apply wf_heap_check; vm_compute; reflexivity).
  destruct (@unite_shallow stdpp_order qmjson_array_unite flat_heap 10 14
              {["x" := 11; "k" := 12]}%positive {["x" := 13; "" := 15; "n" := 16]}%positive
              QMJsonReplacementPolicy_Ignore QMJsonArrayUnitePolicy_Append 0
              Hwf ltac:(discriminate) ltac:(reflexivity) ltac:(reflexivity) ltac:(vm_compute; reflexivity))
    as (h' & Hrun & Hobj & _).
  exists h'. split; [exact Hrun|]. rewrite Hobj. vm_compute. reflexivity.
Defined.

