(* ===== verification/UniteTree.v ===== *)
(** * QMJsonObject::unite on tree-shaped documents: a refinement

    The spec (section 4.2) describes [unite] as a merge of two JSON
    documents.  This file states that merge as a pure function [tmerge] on
    JSON trees and proves that the heap-level [unite] of [Unite.v]
    implements it, when the two documents are trees: no object is
    reachable twice from [this] and [other] together, and no object of
    [this] has the empty key (the spec's invariant of section 3).  The
    examples of [Unite.v] show that without these conditions the merge
    depends on the iteration order, or does not terminate.

    [jtree] is the tree of a document.  An object node keeps its location,
    so the theorem also says which objects survive: the merged object is
    [this] itself, and the sub-objects inserted from [other] are shared
    with [other], not copied.  An array is kept as its handle, since
    [QMJsonArray::unite] changes it in place.  [tread n h o] reads the tree
    of the object [o] up to depth [n] and [tfoot n h o] lists the objects
    it meets.

    The proof has four parts.
    - [unite_body] is the loop body of [unite], and [unite_S_body] shows
      that one level of [unite] is its [foreach] over the keys of [other].
    - [key_inv] is the invariant of that loop: the keys done read as
      their merged entry, the others are untouched.  [step_absent],
      [step_arrays], [step_insert] and [step_objects] prove one key in
      each branch of the body.  The last uses the merge of the level
      below, [unite_tree_spec n].
    - [key_inv_final] turns the invariant after the last key into
      [unite_post].  [unite_tree_step] and [unite_tree_all] are the
      induction on the fuel.
    - [unite_refines_tmerge] is the result for any fuel [n]. *)

From stdpp Require Import base gmap strings list.
From Stdlib Require Import Floats.
From S2P Require Import Prelude Heap Value Object Array Unite.

#[local] Set Warnings "-register-all".

Inductive jtree :=
| TNull
| TBool (b : bool)
| TDouble (d : float)
| TString (s : string)
| TArray (a : loc)
| TObject (o : loc) (m : gmap string jtree).

(** ** The merge the spec describes *)

(** The value kept for a key present on both sides: the recursive merge
    of two objects, the receiver's array (merged in place), or the
    replacement policy's choice. *)
Fixpoint tmerge (p : QMJsonReplacementPolicy) (t1 t2 : jtree) : jtree :=
  match t1, t2 with
  | TObject o1 m1, TObject _ m2 =>
      TObject o1 (union_with (fun a b => Some
        (match a, b with
         | TObject _ _, TObject _ _ => tmerge p a b
         | TArray _, TArray _ => a
         | _, _ => match p with
                   | QMJsonReplacementPolicy_Replace => b
                   | QMJsonReplacementPolicy_Ignore => a
                   end
         end)) m1 (delete "" m2))
  | _, _ => t1
  end.

(** ** Reading a document *)

Definition leaf (v : jvalue) : option jtree :=
  match v with
  | VNull => Some TNull
  | VBool b => Some (TBool b)
  | VDouble d => Some (TDouble d)
  | VString s => Some (TString s)
  | VArray a => Some (TArray a)
  | VObject _ => None
  end.

(** The tree under one value cell, given the reader of objects. *)
Definition tentry (rd : loc -> option jtree) (h : heap) (l : loc) : option jtree :=
  v ← h_vals h !! l;
  match v with
  | VObject o => rd o
  | _ => leaf v
  end.

Fixpoint tread (n : nat) (h : heap) (o : loc) : option jtree :=
  match n with
  | O => None
  | S n' =>
      m ← h_objs h !! o;
      let r := tentry (tread n' h) h <$> m in
      if bool_decide (map_Forall (fun _ x => is_Some x) r)
      then Some (TObject o (omap id r)) else None
  end.

(** The objects under one value cell, given the footprint of objects. *)
Definition fentry (fd : loc -> list loc) (h : heap) (l : loc) : list loc :=
  match h_vals h !! l with
  | Some (VObject o) => fd o
  | _ => []
  end.

Fixpoint tfoot (n : nat) (h : heap) (o : loc) : list loc :=
  match n with
  | O => []
  | S n' =>
      o :: match h_objs h !! o with
           | Some m => concat ((fun kl => fentry (tfoot n' h) h kl.2) <$> map_to_list m)
           | None => []
           end
  end.

(** The arrays under one value cell, given the arrays under objects. *)
Definition aentry (fa : loc -> list loc) (h : heap) (l : loc) : list loc :=
  match h_vals h !! l with
  | Some (VArray a) => [a]
  | Some (VObject o) => fa o
  | _ => []
  end.

(** The arrays the objects of the document hold directly: the only
    arrays a merge into [this] may change. *)
Fixpoint afoot (n : nat) (h : heap) (o : loc) : list loc :=
  match n with
  | O => []
  | S n' =>
      match h_objs h !! o with
      | Some m => concat ((fun kl => aentry (afoot n' h) h kl.2) <$> map_to_list m)
      | None => []
      end
  end.

(** No object of the document has the empty key. *)
Fixpoint tkeys_ok (n : nat) (h : heap) (o : loc) : bool :=
  match n with
  | O => true
  | S n' =>
      match h_objs h !! o with
      | Some m =>
          bool_decide (m !! "" = None) &&
          forallb (fun kl => match h_vals h !! kl.2 with
                             | Some (VObject o') => tkeys_ok n' h o'
                             | _ => true
                             end) (map_to_list m)
      | None => true
      end
  end.

(** [this] and [other] form a tree: every object is met once. *)
Definition tree_pair (n : nat) (h : heap) (o ot : loc) : bool :=
  bool_decide (NoDup (tfoot n h o ++ tfoot n h ot)) && tkeys_ok n h o.

(** The read of a map entry: [Some None] for a missing key. *)
Definition eread (n : nat) (h : heap) (ol : option loc) : option (option jtree) :=
  match ol with
  | None => Some None
  | Some l => Some <$> tentry (tread n h) h l
  end.

(** The merge of one key present on both sides, as in [tmerge]. *)
Definition tmerge_entry (p : QMJsonReplacementPolicy) (a b : jtree) : jtree :=
  match a, b with
  | TObject _ _, TObject _ _ => tmerge p a b
  | TArray _, TArray _ => a
  | _, _ => match p with
            | QMJsonReplacementPolicy_Replace => b
            | QMJsonReplacementPolicy_Ignore => a
            end
  end.

(** The objects under a map entry. *)
Definition entry_foot (n : nat) (h : heap) (ol : option loc) : list loc :=
  match ol with
  | Some l => fentry (tfoot n h) h l
  | None => []
  end.

(** Two objects that share no object but hold the same array: A =
    [{"a": [1.0]}] at 10 and B = [{"a": [1.0]}] at 14, whose values 11
    and 15 both hold the array 20. *)
Definition shared_array_heap : heap :=
  mkHeap (list_to_map [(1, VNull); (11, VArray 20); (12, VDouble 1.0); (15, VArray 20)])%positive
         (list_to_map [(3, ∅); (10, {["a" := 11]}); (14, {["a" := 15]})])%positive
         (list_to_map [(2, []); (20, [12])])%positive 21%positive 1%positive 2%positive 3%positive [].

Section Refinement.
Context `{!HashOrder} `{!ArrayUnite}.
Variables (rp : QMJsonReplacementPolicy) (ap : array_policy).

(** The body of the key loop of [unite], with fuel [n] left for the
    recursion. *)
Definition unite_body (n : nat) (o ot : loc) (key : string) : M unit :=
  let* present := QMJsonObject.contains o key in
  if present then
    let* l1 := QMJsonObject.value o key in
    let* l2 := QMJsonObject.value ot key in
    let* v1 := load_val l1 in
    let* v2 := load_val l2 in
    match v1, v2 with
    | VObject o1, VObject o2 => unite n o1 (Some o2) rp ap
    | VArray a1, VArray a2 => array_unite ap a1 a2
    | _, _ => QMJsonObject.insert o key (Some l2) rp
    end
  else
    let* l2 := QMJsonObject.value ot key in
    QMJsonObject.insert o key (Some l2) rp.

(** What a merge of two trees with fuel [n] guarantees: the heap stays
    well formed, no value cell changes, only objects of [this] change,
    [this] reads as the merged tree, and its objects come from the two
    documents. *)
Definition unite_post (n : nat) (h h' : heap) (o ot : loc) (t1 t2 : jtree) : Prop :=
  wf_heap h' /\ h_vals h' = h_vals h /\
  (forall x, x ∉ tfoot n h o -> h_objs h' !! x = h_objs h !! x) /\
  tread n h' o = Some (tmerge rp t1 t2) /\
  (forall x, x ∈ tfoot n h' o -> x ∈ tfoot n h o \/ x ∈ tfoot n h ot) /\
  (forall a, a ∉ afoot n h o -> h_arrs h' !! a = h_arrs h !! a).

Definition unite_tree_spec (n : nat) : Prop :=
  forall h o ot t1 t2, wf_heap h -> tree_pair n h o ot = true ->
    tread n h o = Some t1 -> tread n h ot = Some t2 ->
    exists h', unite n o (Some ot) rp ap h = Ok (tt, h') /\ unite_post n h h' o ot t1 t2.

(** The state of the key loop of [unite (S n) o (Some ot)] after the keys
    [pre]: nothing but [this] and the footprints of the keys done has
    changed; the keys not done keep their handles; each key done reads as
    its entry of the merged map [mt], with objects from the two
    documents. *)
Definition key_inv (n : nat) (h : heap) (o ot : loc) (m1 : gmap string loc)
    (mt : gmap string jtree) (pre : list string) (hi : heap) : Prop :=
  wf_heap hi /\ h_vals hi = h_vals h /\
  (forall x, x ∉ tfoot (S n) h o -> h_objs hi !! x = h_objs h !! x) /\
  (forall x, (x ∈ tfoot (S n) h ot \/ exists k, (k ∉ pre) /\ x ∈ entry_foot n h (m1 !! k)) ->
     h_objs hi !! x = h_objs h !! x) /\
  exists M, h_objs hi !! o = Some M /\ (forall k, k ∉ pre -> M !! k = m1 !! k) /\
    (forall k, k ∈ pre -> eread n hi (M !! k) = Some (mt !! k) /\
      forall x, x ∈ entry_foot n hi (M !! k) ->
        x ∈ entry_foot n h (m1 !! k) \/ x ∈ tfoot (S n) h ot) /\
    (forall a, a ∉ afoot (S n) h o -> h_arrs hi !! a = h_arrs h !! a).

End Refinement.

(** ** Reads and footprints *)

Section Reads.
Implicit Types (h : heap) (o l : loc) (m : gmap string loc).

Lemma elem_of_tfoot_entry n h o m k l x :
  h_objs h !! o = Some m -> m !! k = Some l -> x ∈ fentry (tfoot n h) h l -> x ∈ tfoot (S n) h o.
Proof.
  intros Hm Hk Hx. simpl. rewrite Hm. right. apply list_elem_of_In, in_concat.
  exists (fentry (tfoot n h) h l). split; [|by apply list_elem_of_In].
  apply list_elem_of_In, list_elem_of_fmap. exists (k, l). split; [done|].
  by apply elem_of_map_to_list.
Qed.

(** A read depends only on the value cells and on the objects of its
    footprint. *)
Lemma elem_of_afoot_entry n h o m k l a :
  h_objs h !! o = Some m -> m !! k = Some l -> a ∈ aentry (afoot n h) h l -> a ∈ afoot (S n) h o.
Proof.
  intros Hm Hk Ha. simpl. rewrite Hm. apply list_elem_of_In, in_concat.
  exists (aentry (afoot n h) h l). split; [|by apply list_elem_of_In].
  apply list_elem_of_In, list_elem_of_fmap. exists (k, l). split; [done|].
  by apply elem_of_map_to_list.
Qed.

(** The arrays of a document depend only on its objects and the values. *)
Lemma afoot_frame n h h' o :
  h_vals h' = h_vals h -> (forall x, x ∈ tfoot n h o -> h_objs h' !! x = h_objs h !! x) ->
  afoot n h' o = afoot n h o.
Proof.
  revert o. induction n as [|n IH]; intros o Hv Hx; [done|].
  assert (Ho : h_objs h' !! o = h_objs h !! o) by (apply Hx; left).
  simpl. rewrite Ho. destruct (h_objs h !! o) as [m|] eqn:Hm; [|done].
  f_equal. apply list_fmap_ext. intros i [k l] Hi. unfold aentry. rewrite Hv. simpl.
  destruct (h_vals h !! l) as [[]|] eqn:Hl; try done. apply IH; [done|].
  intros x Hxo. apply Hx. apply (elem_of_tfoot_entry _ _ _ m k l); [done| |by unfold fentry; rewrite Hl].
  by apply elem_of_map_to_list, list_elem_of_lookup_2 with i.
Qed.

Lemma tread_frame n h h' o :
  h_vals h' = h_vals h -> (forall x, x ∈ tfoot n h o -> h_objs h' !! x = h_objs h !! x) ->
  tread n h' o = tread n h o /\ tfoot n h' o = tfoot n h o /\ tkeys_ok n h' o = tkeys_ok n h o.
Proof.
  revert o. induction n as [|n IH]; intros o Hv Hx; [done|].
  assert (Ho : h_objs h' !! o = h_objs h !! o) by (apply Hx; left).
  assert (Hent : forall k l, (exists m, h_objs h !! o = Some m /\ m !! k = Some l) ->
            tentry (tread n h') h' l = tentry (tread n h) h l /\
            fentry (tfoot n h') h' l = fentry (tfoot n h) h l /\
            match h_vals h' !! l with Some (VObject o') => tkeys_ok n h' o' | _ => true end =
            match h_vals h !! l with Some (VObject o') => tkeys_ok n h o' | _ => true end).
  { intros k l (m & Hm & Hk). unfold tentry, fentry. rewrite Hv.
    destruct (h_vals h !! l) as [[]|] eqn:Hl; simpl; try done.
    destruct (IH o0) as (-> & -> & ->); [done| |done].
    intros x Hxo. apply Hx. apply (elem_of_tfoot_entry _ _ _ m k l); [done|done|].
    unfold fentry. by rewrite Hl. }
  simpl. rewrite Ho. destruct (h_objs h !! o) as [m|] eqn:Hm; [|done]. simpl.
  assert (Hr : tentry (tread n h') h' <$> m = tentry (tread n h) h <$> m).
  { apply map_fmap_ext. intros k l Hk. by apply (Hent k l); exists m. }
  assert (Hf : (fun kl => fentry (tfoot n h') h' kl.2) <$> map_to_list m =
               (fun kl => fentry (tfoot n h) h kl.2) <$> map_to_list m).
  { apply list_fmap_ext. intros i [k l] Hi. apply (Hent k l). exists m. split; [done|].
    by apply elem_of_map_to_list, list_elem_of_lookup_2 with i. }
  rewrite Hr, Hf. split_and!; [done|done|]. f_equal. apply forallb_ext_in.
  intros [k l] Hin%elem_of_map_to_list. by apply (Hent k l); exists m.
Qed.

Lemma tread_S_inv n h o t :
  tread (S n) h o = Some t ->
  exists m mt, h_objs h !! o = Some m /\ t = TObject o mt /\
    forall k, eread n h (m !! k) = Some (mt !! k).
Proof.
  simpl. intros Ht. destruct (h_objs h !! o) as [m|] eqn:Hm; simpl in Ht; [|done].
  case_bool_decide as Hall; simplify_eq. exists m, (omap id (tentry (tread n h) h <$> m)). split_and!; [done|done|].
  intros k. rewrite lookup_omap, lookup_fmap. destruct (m !! k) as [l|] eqn:Hk; [|done].
  simpl. destruct (Hall k _ ltac:(by rewrite lookup_fmap, Hk)) as [t Ht]. simpl in Ht.
  by rewrite Ht.
Qed.

Lemma tread_S_intro n h o m mt :
  h_objs h !! o = Some m -> (forall k, eread n h (m !! k) = Some (mt !! k)) ->
  tread (S n) h o = Some (TObject o mt).
Proof.
  intros Hm Hk. simpl. rewrite Hm. simpl. rewrite bool_decide_true.
  - do 2 f_equal. apply map_eq. intros k. rewrite lookup_omap, lookup_fmap.
    specialize (Hk k). destruct (m !! k); simpl in *; [destruct (tentry _ _ _)|]; simpl in *; congruence.
  - intros k x. rewrite lookup_fmap. specialize (Hk k).
    destruct (m !! k); simpl in *; [destruct (tentry _ _ _)|]; simpl in *; intros; simplify_eq; by eexists.
Qed.

End Reads.

Section Footprints.
Implicit Types (h : heap) (o l : loc) (m : gmap string loc).

Lemma elem_of_concat_entry n h m k l x :
  m !! k = Some l -> x ∈ fentry (tfoot n h) h l ->
  x ∈ concat ((fun kl => fentry (tfoot n h) h kl.2) <$> map_to_list m).
Proof.
  intros Hk Hx. apply list_elem_of_In, in_concat. exists (fentry (tfoot n h) h l).
  split; [|by apply list_elem_of_In]. apply list_elem_of_In, list_elem_of_fmap.
  exists (k, l). split; [done|]. by apply elem_of_map_to_list.
Qed.

Lemma tfoot_S_inv n h o m x :
  h_objs h !! o = Some m -> x ∈ tfoot (S n) h o ->
  x = o \/ exists k l, m !! k = Some l /\ x ∈ fentry (tfoot n h) h l.
Proof.
  intros Hm Hx. simpl in Hx. rewrite Hm in Hx. apply elem_of_cons in Hx as [->|Hx]; [by left|right].
  apply list_elem_of_In, in_concat in Hx as (ys & Hys & Hx).
  apply list_elem_of_In, list_elem_of_fmap in Hys as ([k l] & -> & Hkl%elem_of_map_to_list).
  exists k, l. split; [done|]. by apply list_elem_of_In.
Qed.

(** In a document without sharing, the entries of one object have
    duplicate-free footprints, pairwise disjoint, and without the object
    itself. *)
Lemma tfoot_node n h o m :
  h_objs h !! o = Some m -> NoDup (tfoot (S n) h o) ->
  (forall k l, m !! k = Some l -> NoDup (fentry (tfoot n h) h l) /\ o ∉ fentry (tfoot n h) h l) /\
  (forall k k' l l' x, k <> k' -> m !! k = Some l -> m !! k' = Some l' ->
     x ∈ fentry (tfoot n h) h l -> x ∈ fentry (tfoot n h) h l' -> False).
Proof.
  intros Hm Hnd. simpl in Hnd. rewrite Hm in Hnd. apply NoDup_cons in Hnd as [Ho Hnd].
  destruct (NoDup_concat_fmap_inv _ _ Hnd) as [H1 H2]. split.
  - intros k l Hk. split; [apply (H1 (k, l)); by apply elem_of_map_to_list|].
    intros Hx. apply Ho. by eapply elem_of_concat_entry.
  - intros k k' l l' x Hne Hk Hk' Hx Hx'.
    apply elem_of_map_to_list, list_elem_of_lookup_1 in Hk as [i Hi].
    apply elem_of_map_to_list, list_elem_of_lookup_1 in Hk' as [j Hj].
    apply (H2 i j (k, l) (k', l') x); [|done..]. intros ->. congruence.
Qed.

End Footprints.

Section Unfold.
Context `{!HashOrder} `{!ArrayUnite}.

Lemma unite_S_body n o ot rp ap :
  unite (S n) o (Some ot) rp ap =
  (let* ks := QMJsonObject.keys ot in foreach (unite_body rp ap n o ot) ks).
Proof. reflexivity. Qed.

End Unfold.

Lemma tmerge_objects p o1 m1 o2 m2 :
  tmerge p (TObject o1 m1) (TObject o2 m2) =
  TObject o1 (union_with (fun a b => Some (tmerge_entry p a b)) m1 (delete "" m2)).
Proof. reflexivity. Qed.

Section EntryFrame.
Implicit Types (h : heap) (o l : loc) (m : gmap string loc).

Lemma eread_frame n h h' ol :
  h_vals h' = h_vals h -> (forall x, x ∈ entry_foot n h ol -> h_objs h' !! x = h_objs h !! x) ->
  eread n h' ol = eread n h ol /\ entry_foot n h' ol = entry_foot n h ol.
Proof.
  intros Hv Hx. destruct ol as [l|]; [|done]. unfold eread, entry_foot, tentry, fentry in *.
  rewrite Hv. destruct (h_vals h !! l) as [[]|]; try done.
  simpl. by destruct (tread_frame n h h' o Hv Hx) as (-> & -> & _).
Qed.

(** What a pair of documents without sharing gives about the entries of
    [this] ([m1]). *)
Lemma pair_facts n h o ot m1 :
  h_objs h !! o = Some m1 -> NoDup (tfoot (S n) h o ++ tfoot (S n) h ot) ->
  (o ∉ tfoot (S n) h ot) /\
  (forall k, o ∉ entry_foot n h (m1 !! k)) /\
  (forall k x, x ∈ entry_foot n h (m1 !! k) -> x ∈ tfoot (S n) h o) /\
  (forall k x, x ∈ entry_foot n h (m1 !! k) -> x ∉ tfoot (S n) h ot) /\
  (forall k k' x, k <> k' -> x ∈ entry_foot n h (m1 !! k) -> x ∉ entry_foot n h (m1 !! k')) /\
  (forall k, NoDup (entry_foot n h (m1 !! k))).
Proof.
  intros Hm Hnd. apply NoDup_app in Hnd as (Hnd1 & Hdisj & _).
  destruct (tfoot_node n h o m1 Hm Hnd1) as [Hn1 Hn2].
  assert (Hsub : forall k x, x ∈ entry_foot n h (m1 !! k) -> x ∈ tfoot (S n) h o).
  { intros k x. unfold entry_foot. destruct (m1 !! k) eqn:Hk; [|set_solver].
    by apply elem_of_tfoot_entry with m1 k. }
  split_and!.
  - apply Hdisj. simpl. left.
  - intros k. unfold entry_foot. destruct (m1 !! k) eqn:Hk; [|set_solver]. by apply (Hn1 k).
  - exact Hsub.
  - intros k x Hx. apply Hdisj. by apply Hsub with k.
  - intros k k' x Hne Hx Hx'. unfold entry_foot in *.
    destruct (m1 !! k) eqn:Hk, (m1 !! k') eqn:Hk'; [by eapply (Hn2 k k')|set_solver..].
  - intros k. unfold entry_foot. destruct (m1 !! k) eqn:Hk; [|constructor]. by apply (Hn1 k).
Qed.

End EntryFrame.

Section KeyLoop.
Implicit Types (h : heap) (o l : loc) (m : gmap string loc).

(** One more key done: a step that changes only [this] and the objects
    under the key's own entry keeps the other keys' reads, and the loop
    state extends by that key. *)
Lemma key_inv_extend n h o ot m1 mt pre k hi hi' M M' :
  h_objs h !! o = Some m1 -> NoDup (tfoot (S n) h o ++ tfoot (S n) h ot) ->
  key_inv n h o ot m1 mt pre hi -> k ∉ pre -> h_objs hi !! o = Some M ->
  wf_heap hi' -> h_vals hi' = h_vals hi ->
  (forall x, x <> o -> x ∉ entry_foot n h (m1 !! k) -> h_objs hi' !! x = h_objs hi !! x) ->
  h_objs hi' !! o = Some M' -> (forall k', k' <> k -> M' !! k' = M !! k') ->
  (forall a, a ∉ afoot (S n) h o -> h_arrs hi' !! a = h_arrs hi !! a) ->
  eread n hi' (M' !! k) = Some (mt !! k) ->
  (forall x, x ∈ entry_foot n hi' (M' !! k) ->
     x ∈ entry_foot n h (m1 !! k) \/ x ∈ tfoot (S n) h ot) ->
  key_inv n h o ot m1 mt (pre ++ [k]) hi'.
Proof.
  intros Hm1 Hnd (Hwf & Hv & Hglob & Hunt & M0 & HM0 & Hkeep & Hdone & Harr) Hk HM Hwf' Hv' Hch HM'
    HM'k Harr' Hnew Hnewf.
  rewrite HM in HM0. injection HM0 as <-.
  destruct (pair_facts n h o ot m1 Hm1 Hnd) as (Hot & Hoe & Hsub & Hdisj & Hsib & _).
  assert (Hout : forall x, (x ∈ tfoot (S n) h ot \/ exists k', k' <> k /\ x ∈ entry_foot n h (m1 !! k')) ->
            h_objs hi' !! x = h_objs hi !! x).
  { intros x Hx. apply Hch; destruct Hx as [Hx|(k' & Hne & Hx)].
    - intros ->. by apply Hot.
    - intros ->. by apply (Hoe k').
    - intros Hxk. by apply (Hdisj k x Hxk).
    - intros Hxk. by apply (Hsib k' k x). }
  split_and!; [done|by rewrite Hv'| | |].
  - intros x Hx. rewrite Hch; [by apply Hglob|intros ->; apply Hx; left|].
    intros Hxk. apply Hx. by apply Hsub with k.
  - intros x Hx. rewrite Hout.
    + apply Hunt. destruct Hx as [Hx|(k'' & Hk'' & Hx)]; [by left|right].
      exists k''. split; [set_solver|done].
    + destruct Hx as [Hx|(k'' & Hk'' & Hx)]; [by left|right]. exists k''. split; [set_solver|done].
  - exists M'. split_and!; [done| | |].
    + intros k' Hk'. rewrite HM'k by set_solver. apply Hkeep. set_solver.
    + intros k' Hk'. destruct (decide (k' = k)) as [->|Hne]; [by split|].
      assert (Hpre : k' ∈ pre) by set_solver. clear Hk'. rename Hpre into Hk'. rewrite HM'k by done.
      destruct (Hdone k' Hk') as [Hr Hf].
      destruct (eread_frame n hi hi' (M !! k') Hv') as [-> ->]; [|by split].
      intros x Hx. apply Hout. destruct (Hf x Hx) as [Hx'|Hx']; [right; by exists k'|by left].
    + intros a Ha. rewrite Harr' by done. by apply Harr.
Qed.

End KeyLoop.

(** ** One key of the loop *)

Section Step.
Context `{!HashOrder} `{!ArrayUnite}.
Variables (rp : QMJsonReplacementPolicy) (ap : array_policy) (n : nat) (h : heap) (o ot : loc)
  (m1 m2 : gmap string loc) (mt1 mt2 : gmap string jtree).
Hypotheses (Hwf : wf_heap h) (Hm1 : h_objs h !! o = Some m1) (Hm2 : h_objs h !! ot = Some m2)
  (Hr1 : forall k, eread n h (m1 !! k) = Some (mt1 !! k))
  (Hr2 : forall k, eread n h (m2 !! k) = Some (mt2 !! k))
  (Hnd : NoDup (tfoot (S n) h o ++ tfoot (S n) h ot))
  (Hkeys : tkeys_ok (S n) h o = true).

#[local] Abbreviation mt := (union_with (fun a b => Some (tmerge_entry rp a b)) mt1 (delete "" mt2)).

Lemma step_other hi pre :
  key_inv n h o ot m1 mt pre hi ->
  h_objs hi !! ot = Some m2 /\
  forall k, eread n hi (m2 !! k) = Some (mt2 !! k) /\ entry_foot n hi (m2 !! k) = entry_foot n h (m2 !! k).
Proof.
  intros (_ & Hv & _ & Hunt & _). split; [rewrite Hunt; [done|left; left]|].
  intros k. rewrite <-(Hr2 k). apply eread_frame; [done|]. intros x Hx. apply Hunt. left.
  unfold entry_foot in Hx. destruct (m2 !! k) eqn:Hk; [|set_solver].
  by eapply elem_of_tfoot_entry; [exact Hm2|exact Hk|].
Qed.

Lemma step_this hi pre k :
  key_inv n h o ot m1 mt pre hi -> k ∉ pre ->
  eread n hi (m1 !! k) = Some (mt1 !! k) /\ entry_foot n hi (m1 !! k) = entry_foot n h (m1 !! k).
Proof.
  intros (_ & Hv & _ & Hunt & _) Hk. rewrite <-(Hr1 k). apply eread_frame; [done|].
  intros x Hx. apply Hunt. right. by exists k.
Qed.

Lemma step_no_empty_key : m1 !! "" = None.
Proof. simpl in Hkeys. rewrite Hm1 in Hkeys. apply andb_prop in Hkeys as [He _]. by case_bool_decide. Qed.

Lemma step_child_keys k l1 o1 :
  m1 !! k = Some l1 -> h_vals h !! l1 = Some (VObject o1) -> tkeys_ok n h o1 = true.
Proof.
  intros Hk Hl. simpl in Hkeys. rewrite Hm1 in Hkeys. apply andb_prop in Hkeys as [_ Hall].
  apply forallb_forall with (x := (k, l1)) in Hall; [simpl in Hall; by rewrite Hl in Hall|].
  by apply list_elem_of_In, elem_of_map_to_list.
Qed.

Lemma tentry_shape l v t :
  h_vals h !! l = Some v -> tentry (tread n h) h l = Some t ->
  match v with
  | VObject o1 => tread n h o1 = Some t /\ exists mo, t = TObject o1 mo
  | VArray a => t = TArray a
  | _ => match t with TObject _ _ | TArray _ => False | _ => True end
  end.
Proof.
  intros Hl Ht. unfold tentry in Ht. rewrite Hl in Ht. simpl in Ht.
  destruct v; simplify_eq/=; try done. split; [done|].
  destruct n; [done|]. apply tread_S_inv in Ht as (? & mo & _ & -> & _). by exists mo.
Qed.

Lemma unite_body_present hi pre k M l1 l2 v1 v2 :
  key_inv n h o ot m1 mt pre hi -> h_objs hi !! o = Some M -> M !! k = Some l1 ->
  m2 !! k = Some l2 -> h_vals h !! l1 = Some v1 -> h_vals h !! l2 = Some v2 ->
  unite_body rp ap n o ot k hi =
  match v1, v2 with
  | VObject o1, VObject o2 => unite n o1 (Some o2) rp ap hi
  | VArray a1, VArray a2 => array_unite ap a1 a2 hi
  | _, _ => QMJsonObject.insert o k (Some l2) rp hi
  end.
Proof.
  intros Hinv HM Hk Hk2 Hl1 Hl2. destruct (step_other hi pre Hinv) as [Hot _].
  destruct Hinv as (_ & Hv & _). unfold unite_body.
  qm_run (QMJsonObject.contains_ok _ _ _ k HM). rewrite Hk, bool_decide_true by by eexists.
  qm_run (QMJsonObject.value_ok _ _ _ k HM). rewrite Hk. simpl.
  qm_run (QMJsonObject.value_ok _ _ _ k Hot). rewrite Hk2. simpl.
  rewrite <-Hv in Hl1, Hl2. qm_run (load_val_ok _ _ _ Hl1). qm_run (load_val_ok _ _ _ Hl2). by destruct v1, v2.
Qed.

Lemma unite_body_absent hi pre k M l2 :
  key_inv n h o ot m1 mt pre hi -> h_objs hi !! o = Some M -> M !! k = None ->
  m2 !! k = Some l2 ->
  unite_body rp ap n o ot k hi = QMJsonObject.insert o k (Some l2) rp hi.
Proof.
  intros Hinv HM Hk Hk2. destruct (step_other hi pre Hinv) as [Hot _]. unfold unite_body.
  qm_run (QMJsonObject.contains_ok _ _ _ k HM). rewrite Hk, bool_decide_false by by intros [].
  qm_run (QMJsonObject.value_ok _ _ _ k Hot). by rewrite Hk2.
Qed.

(** After a step that changes [this] only, an entry of [other] still
    reads as before, with its objects in [other]. *)
Lemma other_entry_after hi hi' pre k :
  key_inv n h o ot m1 mt pre hi -> h_vals hi' = h_vals hi ->
  (forall x, x <> o -> h_objs hi' !! x = h_objs hi !! x) ->
  eread n hi' (m2 !! k) = Some (mt2 !! k) /\
  forall x, x ∈ entry_foot n hi' (m2 !! k) -> x ∈ tfoot (S n) h ot.
Proof.
  intros Hinv Hv' Hch. destruct (step_other hi pre Hinv) as [_ Hoth].
  destruct (Hoth k) as [Hr Hf]. destruct (pair_facts n h o ot m1 Hm1 Hnd) as (Hot & _).
  assert (Hsub : forall x, x ∈ entry_foot n h (m2 !! k) -> x ∈ tfoot (S n) h ot).
  { intros x Hx. unfold entry_foot in Hx. destruct (m2 !! k) eqn:Hk; [|set_solver].
    by eapply elem_of_tfoot_entry; [exact Hm2|exact Hk|]. }
  destruct (eread_frame n hi hi' (m2 !! k) Hv') as [-> ->].
  - intros x Hx. apply Hch. intros ->. apply Hot, Hsub. by rewrite <-Hf.
  - split; [done|]. intros x Hx. apply Hsub. by rewrite <-Hf.
Qed.

Lemma step_absent hi pre k post :
  key_inv n h o ot m1 mt pre hi -> map fst (hash_order m2) = pre ++ k :: post -> m1 !! k = None ->
  exists hi', unite_body rp ap n o ot k hi = Ok (tt, hi') /\ key_inv n h o ot m1 mt (pre ++ [k]) hi'.
Proof.
  intros Hinv Hks Hk1. destruct (QMJsonObject.keys_split_notin m2 pre k post Hks) as [Hpre [l2 Hk2]].
  destruct (step_other hi pre Hinv) as [Hot _].
  pose proof Hinv as (Hwfi & _ & _ & _ & M & HM & Hkeep & _).
  assert (HMk : M !! k = None) by (rewrite Hkeep; done).
  rewrite (unite_body_absent hi pre k M l2 Hinv HM HMk Hk2).
  destruct (QMJsonObject.insert_effect hi o M k l2 rp HM) as (hi' & Hrun & Hobjs & Hv' & Ha' & _).
  assert (Hch : forall x, x <> o -> h_objs hi' !! x = h_objs hi !! x)
    by (intros x Hx; by rewrite Hobjs, lookup_insert_ne).
  exists hi'. split; [done|].
  assert (Hmt1 : mt1 !! k = None) by (specialize (Hr1 k); rewrite Hk1 in Hr1; by injection Hr1).
  apply (key_inv_extend n h o ot m1 mt pre k hi hi' M (QMJsonObject.insert_map M k l2 rp));
    try done.
  - eapply QMJsonObject.insert_wf; [done| |exact Hrun]. intros ? [= <-]. exact (wf_obj_entry _ _ _ _ _ Hwfi Hot Hk2).
  - intros x Hx _. by apply Hch.
  - by rewrite Hobjs, lookup_insert_eq.
  - intros k' Hne. unfold QMJsonObject.insert_map.
    destruct (String.eqb k ""); [done|]. rewrite HMk. by rewrite lookup_insert_ne.
  - intros a _. by rewrite Ha'.
  - destruct (other_entry_after hi hi' pre k Hinv Hv' Hch) as [Hr _]. rewrite Hk2 in Hr.
    unfold QMJsonObject.insert_map. rewrite lookup_union_with, Hmt1.
    destruct (String.eqb_spec k "") as [->|Hne].
    + by rewrite HMk, lookup_delete_eq.
    + rewrite HMk, lookup_insert_eq, lookup_delete_ne, Hr by done. by destruct (mt2 !! k).
  - destruct (other_entry_after hi hi' pre k Hinv Hv' Hch) as [_ Hf]. rewrite Hk2 in Hf.
    intros x Hx. unfold QMJsonObject.insert_map in Hx. destruct (String.eqb_spec k "") as [->|Hne].
    + rewrite HMk in Hx. by apply not_elem_of_nil in Hx.
    + rewrite HMk, lookup_insert_eq in Hx. right. by apply Hf.
Qed.

(** The facts a key present on both sides starts from. *)
Lemma present_setup hi pre k post l1 :
  key_inv n h o ot m1 mt pre hi -> map fst (hash_order m2) = pre ++ k :: post ->
  m1 !! k = Some l1 ->
  exists l2 v1 v2 t1k t2k M, (k ∉ pre) /\ k <> "" /\ m2 !! k = Some l2 /\
    h_vals h !! l1 = Some v1 /\ h_vals h !! l2 = Some v2 /\
    tentry (tread n h) h l1 = Some t1k /\ tentry (tread n h) h l2 = Some t2k /\
    mt1 !! k = Some t1k /\ mt2 !! k = Some t2k /\
    h_objs hi !! o = Some M /\ M !! k = Some l1 /\
    mt !! k = Some (tmerge_entry rp t1k t2k).
Proof.
  intros Hinv Hks Hk1. destruct (QMJsonObject.keys_split_notin m2 pre k post Hks) as [Hpre [l2 Hk2]].
  pose proof Hinv as (_ & _ & _ & _ & M & HM & Hkeep & _).
  pose proof (Hr1 k) as H1. pose proof (Hr2 k) as H2. rewrite Hk1 in H1. rewrite Hk2 in H2.
  simpl in H1, H2. unfold tentry in H1, H2.
  destruct (h_vals h !! l1) as [v1|] eqn:Hv1, (h_vals h !! l2) as [v2|] eqn:Hv2; try done.
  simpl in H1, H2.
  destruct (match v1 with VObject o0 => tread n h o0 | _ => leaf v1 end) as [t1k|] eqn:Ht1,
           (match v2 with VObject o0 => tread n h o0 | _ => leaf v2 end) as [t2k|] eqn:Ht2;
    try done.
  injection H1 as H1. injection H2 as H2.
  assert (Hne : k <> "") by (intros ->; rewrite step_no_empty_key in Hk1; done).
  exists l2, v1, v2, t1k, t2k, M. split_and!; try done.
  - unfold tentry. by rewrite Hv1.
  - unfold tentry. by rewrite Hv2.
  - by rewrite Hkeep.
  - rewrite lookup_union_with, lookup_delete_ne, <-H1, <-H2 by done. done.
Qed.

(** Both values objects: the recursive merge, by the induction
    hypothesis on the fuel. *)
Lemma step_objects hi pre k post l1 o1 o2 :
  unite_tree_spec rp ap n ->
  key_inv n h o ot m1 mt pre hi -> map fst (hash_order m2) = pre ++ k :: post ->
  m1 !! k = Some l1 -> h_vals h !! l1 = Some (VObject o1) ->
  (exists l2, m2 !! k = Some l2 /\ h_vals h !! l2 = Some (VObject o2)) ->
  exists hi', unite_body rp ap n o ot k hi = Ok (tt, hi') /\ key_inv n h o ot m1 mt (pre ++ [k]) hi'.
Proof.
  intros IH Hinv Hks Hk1 Hv1 (l2' & Hk2' & Hv2').
  destruct (present_setup hi pre k post l1 Hinv Hks Hk1)
    as (l2 & v1 & v2 & t1k & t2k & M & Hpre & Hne & Hk2 & Hl1 & Hl2 & Ht1 & Ht2 & Hmt1 & Hmt2 & HM & HMk & Hmt).
  rewrite Hk2 in Hk2'. injection Hk2' as <-. rewrite Hv1 in Hl1. rewrite Hv2' in Hl2.
  injection Hl1 as <-. injection Hl2 as <-.
  destruct (tentry_shape _ _ _ Hv1 Ht1) as (Ho1 & mo1 & ->).
  destruct (tentry_shape _ _ _ Hv2' Ht2) as (Ho2 & mo2 & ->).
  pose proof Hinv as (Hwfi & Hv & _ & Hunt & _).
  destruct (pair_facts n h o ot m1 Hm1 Hnd) as (_ & Hoe & _ & Hdisj & _ & Hnd1).
  assert (Hf1 : entry_foot n h (m1 !! k) = tfoot n h o1) by (rewrite Hk1; unfold entry_foot, fentry; by rewrite Hv1).
  assert (Hsub2 : forall x, x ∈ tfoot n h o2 -> x ∈ tfoot (S n) h ot).
  { intros x Hx. eapply elem_of_tfoot_entry; [exact Hm2|exact Hk2|]. unfold fentry. by rewrite Hv2'. }
  destruct (tread_frame n h hi o1) as (Hrd1 & Hft1 & Hkk1); [done|intros x Hx; apply Hunt; right; exists k; by rewrite Hf1|].
  destruct (tread_frame n h hi o2) as (Hrd2 & Hft2 & _); [done|intros x Hx; apply Hunt; left; by apply Hsub2|].
  destruct (IH hi o1 o2 (TObject o1 mo1) (TObject o2 mo2)) as (hi' & Hrun & Hwf' & Hv' & Hch & Hrd' & Hft' & Har');
    [done| |by rewrite Hrd1|by rewrite Hrd2|].
  { unfold tree_pair. rewrite Hft1, Hft2, Hkk1, (step_child_keys k l1 o1 Hk1 Hv1), andb_true_r.
    apply bool_decide_eq_true_2, NoDup_app. split_and!; [rewrite <-Hf1; apply Hnd1| |].
    - intros x Hx1 Hx2. apply (Hdisj k x); [by rewrite Hf1|by apply Hsub2].
    - destruct (tfoot_node n h ot m2 Hm2 (proj2 (proj2 (proj1 (NoDup_app _ _) Hnd)))) as [Hn _].
      specialize (Hn k l2 Hk2) as [Hn _]. unfold fentry in Hn. by rewrite Hv2' in Hn. }
  exists hi'. split; [by rewrite (unite_body_present hi pre k M l1 l2 _ _ Hinv HM HMk Hk2 Hv1 Hv2')|].
  assert (Hcho : forall x, x <> o -> x ∉ entry_foot n h (m1 !! k) -> h_objs hi' !! x = h_objs hi !! x).
  { intros x _ Hx. apply Hch. by rewrite Hft1, <-Hf1. }
  apply (key_inv_extend n h o ot m1 mt pre k hi hi' M M); try done.
  - rewrite Hch; [done|]. rewrite Hft1, <-Hf1. apply Hoe.
  - intros a Ha. apply Har'.
    rewrite (afoot_frame n h hi o1); [|done|intros x Hx; apply Hunt; right; exists k; by rewrite Hf1].
    intros Ha1. apply Ha. eapply elem_of_afoot_entry; [exact Hm1|exact Hk1|]. unfold aentry. by rewrite Hv1.
  - rewrite HMk, Hmt. unfold eread, tentry. rewrite Hv', Hv, Hv1. simpl. by rewrite Hrd'.
  - intros x Hx. rewrite HMk in Hx. unfold entry_foot, fentry in Hx. rewrite Hv', Hv, Hv1 in Hx.
    destruct (Hft' x Hx) as [Hx'|Hx']; [left; by rewrite Hf1, <-Hft1|right; apply Hsub2; by rewrite <-Hft2].
Qed.

Lemma step_arrays hi pre k post l1 a1 a2 :
  key_inv n h o ot m1 mt pre hi -> map fst (hash_order m2) = pre ++ k :: post ->
  m1 !! k = Some l1 -> h_vals h !! l1 = Some (VArray a1) ->
  (exists l2, m2 !! k = Some l2 /\ h_vals h !! l2 = Some (VArray a2)) ->
  exists hi', unite_body rp ap n o ot k hi = Ok (tt, hi') /\ key_inv n h o ot m1 mt (pre ++ [k]) hi'.
Proof.
  intros Hinv Hks Hk1 Hv1 (l2' & Hk2' & Hv2').
  destruct (present_setup hi pre k post l1 Hinv Hks Hk1)
    as (l2 & v1 & v2 & t1k & t2k & M & Hpre & Hne & Hk2 & Hl1 & Hl2 & Ht1 & Ht2 & Hmt1 & Hmt2 & HM & HMk & Hmt).
  rewrite Hk2 in Hk2'. injection Hk2' as <-. rewrite Hv1 in Hl1. rewrite Hv2' in Hl2.
  injection Hl1 as <-. injection Hl2 as <-.
  pose proof (tentry_shape _ _ _ Hv1 Ht1) as ->. pose proof (tentry_shape _ _ _ Hv2' Ht2) as ->.
  pose proof Hinv as (Hwfi & Hv & _).
  destruct (wf_val_refs hi l1 (VArray a1) Hwfi) as [xs1 Hxs1]; [by rewrite Hv|].
  destruct (wf_val_refs hi l2 (VArray a2) Hwfi) as [xs2 Hxs2]; [by rewrite Hv|].
  destruct (array_unite_spec ap a1 a2 hi xs1 xs2 Hwfi Hxs1 Hxs2) as (xs & Hau & Hxs).
  exists (set_arrs <[a1:=xs]> hi). split.
  { by rewrite (unite_body_present hi pre k M l1 l2 _ _ Hinv HM HMk Hk2 Hv1 Hv2'). }
  apply (key_inv_extend n h o ot m1 mt pre k hi _ M M); try done.
  - apply wf_store_arr; [done|by eexists|done].
  - intros a Ha. simpl. rewrite lookup_insert_ne; [done|]. intros Heq. subst. apply Ha.
    eapply elem_of_afoot_entry; [exact Hm1|exact Hk1|]. unfold aentry. rewrite Hv1. set_solver.
  - rewrite HMk, Hmt. destruct (step_this hi pre k Hinv Hpre) as [Hr _]. rewrite Hk1 in Hr.
    rewrite (proj1 (eread_frame n hi (set_arrs <[a1:=xs]> hi) (Some l1) eq_refl (fun _ _ => eq_refl))).
    by rewrite Hr, Hmt1.
  - rewrite HMk. unfold entry_foot, fentry. simpl. rewrite Hv, Hv1. set_solver.
Qed.

(** Any other pair of values: [insert] under the policy. *)
Lemma step_insert hi pre k post l1 l2 v1 v2 :
  key_inv n h o ot m1 mt pre hi -> map fst (hash_order m2) = pre ++ k :: post ->
  m1 !! k = Some l1 -> h_vals h !! l1 = Some v1 -> m2 !! k = Some l2 -> h_vals h !! l2 = Some v2 ->
  match v1, v2 with VObject _, VObject _ => False | VArray _, VArray _ => False | _, _ => True end ->
  exists hi', unite_body rp ap n o ot k hi = Ok (tt, hi') /\ key_inv n h o ot m1 mt (pre ++ [k]) hi'.
Proof.
  intros Hinv Hks Hk1 Hv1 Hk2' Hv2' Hkind.
  destruct (present_setup hi pre k post l1 Hinv Hks Hk1)
    as (l2' & v1' & v2' & t1k & t2k & M & Hpre & Hne & Hk2 & Hl1 & Hl2 & Ht1 & Ht2 & Hmt1 & Hmt2 & HM & HMk & Hmt).
  rewrite Hk2 in Hk2'. injection Hk2' as ->. rewrite Hv1 in Hl1. rewrite Hv2' in Hl2.
  injection Hl1 as <-. injection Hl2 as <-.
  pose proof (tentry_shape _ _ _ Hv1 Ht1) as Hs1. pose proof (tentry_shape _ _ _ Hv2' Ht2) as Hs2.
  assert (Hpick : tmerge_entry rp t1k t2k =
            match rp with QMJsonReplacementPolicy_Replace => t2k | QMJsonReplacementPolicy_Ignore => t1k end).
  { unfold tmerge_entry. destruct v1, v2; try contradiction; simpl in Hs1, Hs2;
      repeat match goal with H : _ /\ exists _, _ |- _ => destruct H as (_ & ? & ?) end;
      subst; repeat (case_match; try done). }
  pose proof Hinv as (Hwfi & Hv & _). destruct (step_other hi pre Hinv) as [Hot _].
  assert (Hb : unite_body rp ap n o ot k hi = QMJsonObject.insert o k (Some l2) rp hi).
  { rewrite (unite_body_present hi pre k M l1 l2 _ _ Hinv HM HMk Hk2 Hv1 Hv2'). by destruct v1, v2. }
  destruct (QMJsonObject.insert_effect hi o M k l2 rp HM) as (hi' & Hrun & Hobjs & Hv' & Ha' & _).
  assert (Hch : forall x, x <> o -> h_objs hi' !! x = h_objs hi !! x)
    by (intros x Hx; by rewrite Hobjs, lookup_insert_ne).
  exists hi'. rewrite Hb. split; [done|].
  assert (Hins : QMJsonObject.insert_map M k l2 rp =
            match rp with QMJsonReplacementPolicy_Replace => <[k:=l2]> M | _ => M end).
  { unfold QMJsonObject.insert_map. destruct (String.eqb_spec k "") as [|_]; [done|]. by rewrite HMk. }
  destruct (other_entry_after hi hi' pre k Hinv Hv' Hch) as [Hr2' Hf2']. rewrite Hk2 in Hr2', Hf2'.
  destruct (step_this hi pre k Hinv Hpre) as [Hr1' Hf1']. rewrite Hk1 in Hr1', Hf1'.
  destruct (pair_facts n h o ot m1 Hm1 Hnd) as (_ & Hoe & _).
  destruct (eread_frame n hi hi' (Some l1) Hv') as [Hfr1 Hfr2].
  { intros x Hx. apply Hch. intros ->. apply (Hoe k). by rewrite Hk1, <-Hf1'. }
  apply (key_inv_extend n h o ot m1 mt pre k hi hi' M (QMJsonObject.insert_map M k l2 rp)); try done.
  - eapply QMJsonObject.insert_wf; [done| |exact Hrun]. intros ? [= <-].
    exact (wf_obj_entry _ _ _ _ _ Hwfi Hot Hk2).
  - intros x Hx _. by apply Hch.
  - by rewrite Hobjs, lookup_insert_eq.
  - intros k' Hk'. rewrite Hins. destruct rp; [by rewrite lookup_insert_ne|done].
  - intros a _. by rewrite Ha'.
  - rewrite Hins, Hmt, Hpick. destruct rp.
    + by rewrite lookup_insert_eq, Hr2', Hmt2.
    + by rewrite HMk, Hfr1, Hr1', Hmt1.
  - intros x Hx. rewrite Hins in Hx. destruct rp.
    + rewrite lookup_insert_eq in Hx. right. by apply Hf2'.
    + rewrite HMk, Hfr2 in Hx. left. by rewrite Hk1, <-Hf1'.
Qed.

(** One key of the loop, whatever the two values under it. *)
Lemma key_step hi pre k post :
  unite_tree_spec rp ap n ->
  key_inv n h o ot m1 mt pre hi -> map fst (hash_order m2) = pre ++ k :: post ->
  exists hi', unite_body rp ap n o ot k hi = Ok (tt, hi') /\ key_inv n h o ot m1 mt (pre ++ [k]) hi'.
Proof.
  intros IH Hinv Hks. destruct (m1 !! k) as [l1|] eqn:Hk1; [|by eapply step_absent].
  destruct (present_setup hi pre k post l1 Hinv Hks Hk1) as (l2 & v1 & v2 & _ & _ & _ & _ & _ & Hk2 & Hv1 & Hv2 & _).
  destruct v1, v2; try (by eapply step_insert);
    [eapply step_arrays | eapply step_objects]; eauto.
Qed.

Lemma key_inv_init : key_inv n h o ot m1 mt [] h.
Proof.
  split_and!; try done. exists m1. split_and!; [done|done| |done]. intros k Hk. by apply not_elem_of_nil in Hk.
Qed.

(** After the last key, [this] reads as the merge of the two trees. *)
Lemma key_inv_final hf :
  key_inv n h o ot m1 mt (map fst (hash_order m2)) hf ->
  unite_post rp (S n) h hf o ot (TObject o mt1) (TObject ot mt2).
Proof.
  intros Hinv. pose proof Hinv as (Hwfi & Hv & Hglob & _ & M & HM & Hkeep & Hdone & Harr).
  destruct (pair_facts n h o ot m1 Hm1 Hnd) as (_ & _ & Hsub & _).
  assert (Hent : forall k, eread n hf (M !! k) = Some (mt !! k) /\
      forall x, x ∈ entry_foot n hf (M !! k) -> x ∈ tfoot (S n) h o \/ x ∈ tfoot (S n) h ot).
  { intros k. destruct (decide (k ∈ map fst (hash_order m2))) as [Hk|Hk].
    - destruct (Hdone k Hk) as [Hr Hf]. split; [done|].
      intros x Hx. destruct (Hf x Hx); [left; by eapply Hsub|by right].
    - destruct (step_this hf _ k Hinv Hk) as [Hr Hf]. rewrite Hkeep by done. split.
      + assert (Hn2 : mt2 !! k = None).
        { rewrite QMJsonObject.elem_of_hash_order_keys, <-eq_None_not_Some in Hk. specialize (Hr2 k). rewrite Hk in Hr2. by injection Hr2. }
        rewrite Hr, lookup_union_with. destruct (String.eqb_spec k "") as [->|Hne];
          [rewrite lookup_delete_eq|rewrite lookup_delete_ne, Hn2 by done]; by destruct (mt1 !! _).
      + intros x Hx. left. rewrite Hf in Hx. by eapply Hsub. }
  split_and!; try done.
  - rewrite tmerge_objects. apply (tread_S_intro n hf o M mt HM). intros k; apply Hent.
  - intros x Hx. destruct (tfoot_S_inv n hf o M x HM Hx) as [->|(k & l & Hk & Hx')].
    + left. simpl. rewrite Hm1. apply elem_of_cons. by left.
    + apply (proj2 (Hent k)). by rewrite Hk.
Qed.

End Step.

Section Induction.
Context `{!HashOrder} `{!ArrayUnite}.
Variables (rp : QMJsonReplacementPolicy) (ap : array_policy).

Lemma unite_tree_step n : unite_tree_spec rp ap n -> unite_tree_spec rp ap (S n).
Proof.
  intros IH h o ot t1 t2 Hwf Hpair Ht1 Ht2.
  apply andb_prop in Hpair as [Hnd%bool_decide_eq_true Hkeys].
  destruct (tread_S_inv n h o t1 Ht1) as (m1 & mt1 & Hm1 & -> & Hr1).
  destruct (tread_S_inv n h ot t2 Ht2) as (m2 & mt2 & Hm2 & -> & Hr2).
  rewrite unite_S_body. qm_run (QMJsonObject.keys_ok _ _ _ Hm2).
  destruct (foreach_rule
              (key_inv n h o ot m1 (union_with (fun a b => Some (tmerge_entry rp a b)) mt1 (delete "" mt2)))
              (unite_body rp ap n o ot) (map fst (hash_order m2)) h) as (hf & Hrun & Hinv).
  - eapply key_inv_init; eauto.
  - intros pre k post s1 Hks HI. eapply key_step; eauto.
  - exists hf. split; [done|]. eapply key_inv_final; eauto.
Qed.

Lemma unite_tree_all n : unite_tree_spec rp ap n.
Proof.
  induction n as [|n IH]; [|by apply unite_tree_step].
  intros h o ot t1 t2 _ _ Ht. simpl in Ht. discriminate Ht.
Qed.

End Induction.

(** C1: refinement of [QMJsonObject::unite] by a pure merge of trees.
    When [this] and [other] are two disjoint tree-shaped documents (no
    object reached twice, no empty key in [this]) that read, with [n]
    levels, as the trees [t1] and [t2], [unite] with fuel [n] returns, the
    heap stays well formed, [this] then reads as [tmerge rp t1 t2] (the
    recursive merge: nested objects merged, arrays merged in place, other
    conflicts settled by the policy, the empty key of [other] dropped),
    [other] still reads as [t2], no value cell changes, no object
    outside [this]'s document changes, every object of the merged
    document comes from one of the two documents (those taken from
    [other] are shared with it, not copied), and the only arrays that
    may change are those [this]'s objects hold ([afoot]). *)
Theorem unite_refines_tmerge `{!HashOrder} `{!ArrayUnite} n h o ot t1 t2 rp ap :
  wf_heap h -> tree_pair n h o ot = true -> tread n h o = Some t1 -> tread n h ot = Some t2 ->
  exists h', unite n o (Some ot) rp ap h = Ok (tt, h') /\ wf_heap h' /\
    tread n h' o = Some (tmerge rp t1 t2) /\ tread n h' ot = Some t2 /\
    h_vals h' = h_vals h /\ (forall x, x ∉ tfoot n h o -> h_objs h' !! x = h_objs h !! x) /\
    (forall x, x ∈ tfoot n h' o -> x ∈ tfoot n h o \/ x ∈ tfoot n h ot) /\
    (forall a, a ∉ afoot n h o -> h_arrs h' !! a = h_arrs h !! a).
Proof.
  intros Hwf Hpair Ht1 Ht2.
  destruct (unite_tree_all rp ap n h o ot t1 t2 Hwf Hpair Ht1 Ht2) as (h' & Hrun & Hw & Hv & Hfr & Hr & Hft & Har).
  exists h'. split_and!; try done.
  apply andb_prop in Hpair as [Hnd%bool_decide_eq_true _]. apply NoDup_app in Hnd as (_ & Hdisj & _).
  rewrite <-Ht2. apply (tread_frame n h h' ot Hv). intros x Hx. apply Hfr. intros Hx'. by apply (Hdisj x).
Qed.


(** The tree condition of [unite_refines_tmerge] does not keep [other] unchanged when
    the two documents share an array.  On [shared_array_heap], where A
    and B share no object, [A.unite(B, Replace, Append)] returns, and B
    still reads as the same tree.  But the array both hold goes from
    [[1.0]] to [[1.0, 1.0]]: [QMJsonArray::unite] appended the array to
    itself, and B sees the change. *)
Example unite_shared_array_changes_other :
  tree_pair 1 shared_array_heap 10 14 = true /\
  exists h', @unite stdpp_order qmjson_array_unite 1 10 (Some 14%positive)
               QMJsonReplacementPolicy_Replace QMJsonArrayUnitePolicy_Append shared_array_heap = Ok (tt, h') /\
    tread 1 h' 14 = tread 1 shared_array_heap 14 /\
    h_arrs shared_array_heap !! 20%positive = Some [12%positive] /\
    h_arrs h' !! 20%positive = Some [12%positive; 12%positive].
Proof.
  split; [vm_compute; reflexivity|]. eexists. split; [reflexivity|]. split_and!; vm_compute; reflexivity.
Qed.

(** ** Witness *)

Lemma unite_refines_tmerge_witness :
  exists t1 t2, tread 2 nested_heap 10%positive = Some t1 /\ tread 2 nested_heap 14%positive = Some t2 /\
  exists h', @unite stdpp_order qmjson_array_unite 2 10%positive (Some 14%positive)
               QMJsonReplacementPolicy_Replace QMJsonArrayUnitePolicy_Append nested_heap = Ok (tt, h') /\
    wf_heap h' /\ tread 2 h' 10%positive = Some (tmerge QMJsonReplacementPolicy_Replace t1 t2) /\
    tread 2 h' 14%positive = Some t2 /\ h_vals h' = h_vals nested_heap /\
    (forall x, x ∉ tfoot 2 nested_heap 10%positive -> h_objs h' !! x = h_objs nested_heap !! x) /\
    (forall x, x ∈ tfoot 2 h' 10%positive -> x ∈ tfoot 2 nested_heap 10%positive \/ x ∈ tfoot 2 nested_heap 14%positive) /\
    (forall a, a ∉ afoot 2 nested_heap 10%positive -> h_arrs h' !! a = h_arrs nested_heap !! a).
Proof.
  eexists _, _. split; [reflexivity|]. split; [reflexivity|].
  apply unite_refines_tmerge; [apply wf_heap_check; vm_compute; reflexivity|vm_compute; reflexivity|reflexivity|reflexivity].
Defined.
