(* ===== verification/Invariant.v ===== *)
(** * The object invariant along any sequence of operations

    The spec (section 3) states one invariant of an object: it maps
    non-empty keys ([keys_nonempty]); the heap model adds well-formedness
    ([wf_heap]: every stored handle names a cell, every container handle a
    container).  [op_step h h'] is one call of the public mutating surface
    of qmjsonobject.cpp on any object of the heap: the default
    constructor, [insert] (with a valid or a null handle), [remove],
    [take], [take(key, default)], [fromX] (through [value(key)] and
    [QMJsonValue::fromX]), [clear] and [unite], the last two at any fuel.
    The copy constructor [QMJsonObject(hash)] is not a step: it stores
    the caller's hash unchecked and can break the invariant
    ([construct_hash_keeps_empty_key] in Object.v).

    [ops_preserve_invariant] proves, by induction on the reflexive
    transitive closure of [op_step], that every heap reached from the
    initial one satisfies both invariants, whatever the interleaving of
    calls on whatever objects.  [unite_then_clear_empties_other] composes
    two components: [unite] shares [other]'s sub-objects with [this], so
    a later [clear] of [this] empties them under [other] as well. *)

From stdpp Require Import base gmap strings list relations.
From Stdlib Require Import Floats.
From S2P Require Import Prelude Heap Value Object Clear Array Unite.

(** The spec's invariant of an object (section 3): it maps non-empty
    keys.  [insert] never stores the empty key; the copy constructor
    can. *)
Definition keys_nonempty (h : heap) : Prop :=
  map_Forall (fun _ m => m !! "" = None) (h_objs h).

#[export] Instance keys_nonempty_dec h : Decision (keys_nonempty h).
Proof. unfold keys_nonempty. apply _. Defined.

(** ** One call of the mutating surface *)

Section Steps.
Context `{!HashOrder} `{!ArrayUnite}.

Inductive op_step : heap -> heap -> Prop :=
| step_construct h o h' :
    QMJsonObject.construct h = Ok (o, h') -> op_step h h'
| step_insert h o k v p h' :
    (forall l, v = Some l -> is_Some (h_vals h !! l)) ->
    QMJsonObject.insert o k v p h = Ok (tt, h') -> op_step h h'
| step_remove h o k h' :
    QMJsonObject.remove o k h = Ok (tt, h') -> op_step h h'
| step_take h o k r h' :
    QMJsonObject.take o k h = Ok (r, h') -> op_step h h'
| step_take_default h o k d r h' :
    QMJsonObject.take_default o k d h = Ok (r, h') -> op_step h h'
| step_from_kind h o k nv r h' :
    val_refs_ok h nv ->
    QMJsonObject.from_kind (fun l => QMJsonValue.fromValue l nv) o k h = Ok (r, h') -> op_step h h'
| step_clear h n o h' :
    clear n o h = Ok (tt, h') -> op_step h h'
| step_unite h n o object rp ap h' :
    unite n o object rp ap h = Ok (tt, h') -> op_step h h'.

End Steps.

(** [A = {}] (4) and [B = {"x": {"z": 2.0}}] (5, with inner object 6). *)
Definition share_heap : heap :=
  mkHeap (list_to_map [(1, VNull); (7, VDouble 2.0); (8, VObject 6)])%positive
         (list_to_map [(3, ∅); (4, ∅); (5, {["x" := 8]}); (6, {["z" := 7]})])%positive
         {[2%positive := []]} 9%positive 1%positive 2%positive 3%positive [].

(** *** The mutating operations keep the keys non-empty *)


Lemma kn_same_objs h h' : h_objs h' = h_objs h -> keys_nonempty h -> keys_nonempty h'.
Proof. unfold keys_nonempty. by intros ->. Qed.

Lemma kn_erase_step h o m k ev :
  keys_nonempty h -> h_objs h !! o = Some m -> keys_nonempty (add_log ev (set_objs <[o:=delete k m]> h)).
Proof.
  intros Hk Hm. unfold keys_nonempty. simpl. apply map_Forall_insert_2; [|done].
  destruct (decide (k = "")) as [->|Hne]; [apply lookup_delete_eq|].
  rewrite lookup_delete_ne by done. exact (Hk o m Hm).
Qed.

Lemma kn_insert_step h o m k l ev :
  keys_nonempty h -> h_objs h !! o = Some m -> String.eqb k "" = false ->
  keys_nonempty (add_log ev (set_objs <[o:=<[k:=l]> m]> h)).
Proof.
  intros Hk Hm Hne%String.eqb_neq. unfold keys_nonempty. simpl. apply map_Forall_insert_2; [|done].
  rewrite lookup_insert_ne by done. exact (Hk o m Hm).
Qed.

#[local] Hint Resolve kn_erase_step kn_insert_step : qmjson.
(** The frame: the keys live in [h_objs] only. *)
Lemma kn_set_vals h f : keys_nonempty h -> keys_nonempty (set_vals f h).
Proof. done. Qed.
Lemma kn_set_arrs h f : keys_nonempty h -> keys_nonempty (set_arrs f h).
Proof. done. Qed.
Lemma kn_set_next h n : keys_nonempty h -> keys_nonempty (set_next n h).
Proof. done. Qed.
Lemma kn_add_log h ev : keys_nonempty h -> keys_nonempty (add_log ev h).
Proof. done. Qed.

#[local] Hint Resolve kn_set_vals kn_set_arrs kn_set_next kn_add_log : qmjson.

Lemma insert_keys_nonempty h h' o k v p :
  keys_nonempty h -> QMJsonObject.insert o k v p h = Ok (tt, h') -> keys_nonempty h'.
Proof. intros Hk Hrun. unfold QMJsonObject.insert, QMJsonObject.insert_entry, QMJsonObject.erase in Hrun. qm_inv. all: eauto 10 with qmjson. Qed.

Lemma remove_keys_nonempty h h' o k : keys_nonempty h -> QMJsonObject.remove o k h = Ok (tt, h') -> keys_nonempty h'.
Proof. intros Hk Hrun. unfold QMJsonObject.remove, QMJsonObject.erase in Hrun. qm_inv; eauto with qmjson. Qed.

Lemma take_keys_nonempty h h' o k r : keys_nonempty h -> QMJsonObject.take o k h = Ok (r, h') -> keys_nonempty h'.
Proof. intros Hk Hrun. unfold QMJsonObject.take, QMJsonObject.erase in Hrun. qm_inv; eauto with qmjson. Qed.

Lemma take_default_keys_nonempty h h' o k d r :
  keys_nonempty h -> QMJsonObject.take_default o k d h = Ok (r, h') -> keys_nonempty h'.
Proof. intros Hk Hrun. unfold QMJsonObject.take_default, QMJsonObject.erase in Hrun. qm_inv; eauto with qmjson. Qed.

Lemma from_kind_keys_nonempty h h' o k nv r :
  keys_nonempty h -> QMJsonObject.from_kind (fun l => QMJsonValue.fromValue l nv) o k h = Ok (r, h') -> keys_nonempty h'.
Proof.
  intros Hk Hrun. unfold QMJsonObject.from_kind in Hrun. apply bind_inv in Hrun as (l & h1 & Hv & Hrun).
  unfold QMJsonObject.value in Hv. unfold QMJsonValue.fromValue in Hrun. qm_inv; eauto with qmjson.
Qed.

Lemma construct_keys_nonempty h o h' :
  keys_nonempty h -> QMJsonObject.construct h = Ok (o, h') -> keys_nonempty h'.
Proof.
  intros Hk Hrun. unfold QMJsonObject.construct, alloc_obj in Hrun. simplify_eq.
  unfold keys_nonempty. simpl. apply map_Forall_insert_2; [apply lookup_empty|done].
Qed.

Lemma construct_wf h o h' : wf_heap h -> QMJsonObject.construct h = Ok (o, h') -> wf_heap h'.
Proof.
  intros Hwf Hrun. unfold QMJsonObject.construct, alloc_obj in Hrun. simplify_eq.
  apply wf_alloc_obj; [done|apply map_Forall_empty].
Qed.

Section Preservation.
Context `{!HashOrder} `{!ArrayUnite}.

Lemma op_step_preserves h h' :
  wf_heap h -> keys_nonempty h -> op_step h h' -> wf_heap h' /\ keys_nonempty h'.
Proof.
  intros Hwf Hk Hs. destruct Hs as [h o h' Hr|h o k v p h' Hv Hr|h o k h' Hr|h o k r h' Hr
    |h o k d r h' Hr|h o k nv r h' Hnv Hr|h n o h' Hr|h n o object rp ap h' Hr].
  - split; [by eapply construct_wf|by eapply construct_keys_nonempty].
  - split; [by eapply QMJsonObject.insert_wf|by eapply insert_keys_nonempty].
  - split; [by eapply QMJsonObject.remove_wf|by eapply remove_keys_nonempty].
  - split; [by eapply QMJsonObject.take_wf|by eapply take_keys_nonempty].
  - split; [by eapply QMJsonObject.take_default_wf|by eapply take_default_keys_nonempty].
  - split; [by eapply QMJsonObject.from_kind_wf|by eapply from_kind_keys_nonempty].
  - eapply (clear_container_inv keys_nonempty); [|intros; by apply kn_set_arrs|done..].
    intros ????? Hk' Hrm. by eapply remove_keys_nonempty.
  - eapply (unite_inv keys_nonempty); [|intros; by apply kn_set_arrs|done..].
    intros ???????? Hk' Hins. by eapply insert_keys_nonempty.
Qed.

End Preservation.


(** ** Theorems *)

(** C6: the invariant of the spec holds along every run of the public
    mutating surface: from a well-formed heap whose objects map only
    non-empty keys, any sequence of [construct], [insert], [remove],
    [take], [take(key, default)], [fromX], [clear] and [unite] calls
    that return, on any objects, any hash order and any array merge,
    reaches a heap that is again well-formed and maps only non-empty
    keys. *)
Theorem ops_preserve_invariant `{!HashOrder} `{!ArrayUnite} h h' :
  wf_heap h -> keys_nonempty h -> rtc op_step h h' -> wf_heap h' /\ keys_nonempty h'.
Proof.
  intros Hwf Hk Hs. revert Hwf Hk. induction Hs as [|h1 h2 h3 Hst _ IH]; intros Hwf Hk; [done|].
  destruct (op_step_preserves h1 h2 Hwf Hk Hst). by apply IH.
Qed.

(** C12: [unite] shares, so a later [clear] of [this] reaches into
    [other].  Let [object]'s non-empty key [k], missing from [this], hold
    a sub-object [c], and let no key of both hold two objects or two
    arrays.  Then [this.unite(object, p, ap)] returns, stores [object]'s
    own handle under [k] in [this] and leaves [object]'s map as it was;
    and [this.clear()], given fuel above the depth of [this]'s document,
    returns and empties [c], the sub-object [object] still holds. *)
Theorem unite_then_clear_empties_other `{!HashOrder} `{!ArrayUnite} h o ot m1 m2 rp ap n n' k l c :
  wf_heap h -> o <> ot -> h_objs h !! o = Some m1 -> h_objs h !! ot = Some m2 ->
  no_nested_conflict h m1 m2 = true ->
  k <> "" -> m1 !! k = None -> m2 !! k = Some l -> h_vals h !! l = Some (VObject c) ->
  exists h1, unite (S n) o (Some ot) rp ap h = Ok (tt, h1) /\
    h_objs h1 !! o = Some (unite_map m1 m2 rp) /\ unite_map m1 m2 rp !! k = Some l /\
    h_objs h1 !! ot = Some m2 /\
    (bounded n' h1 (CObj o) = true -> exists h2, clear n' o h1 = Ok (tt, h2) /\ h_objs h2 !! c = Some ∅).
Proof.
  intros Hwf Hne Hm1 Hm2 Hnc Hk Hk1 Hk2 Hl.
  destruct (unite_shallow_run h o ot m1 m2 rp ap n Hwf Hm1 Hm2 Hnc) as (h1 & Hrun & Hobj & Hs & _).
  assert (Ho1 : h_objs h1 !! o = Some (unite_map m1 m2 rp)) by (rewrite Hobj; apply lookup_insert_eq).
  assert (Hkl := unite_map_new_key m1 m2 rp k l Hk Hk1 Hk2).
  exists h1. split_and!; [done|done|done|by rewrite Hobj, lookup_insert_ne|].
  intros Hb. destruct (clear_container_spec n' (CObj o) h1 Hb) as (h2 & Hr2 & Hcl & _).
  exists h2. split; [done|].
  assert (Hl1 : h_vals h1 !! l = Some (VObject c)) by (destruct Hs as [-> _]; done).
  destruct (wf_val_refs h l _ Hwf Hl) as [mc Hc].
  assert (Hc1 : is_Some (h_objs h1 !! c)).
  { rewrite Hobj. destruct (decide (c = o)) as [->|]; [by rewrite lookup_insert_eq|by rewrite lookup_insert_ne, Hc]. }
  destruct Hc1 as [mc1 Hc1].
  pose proof (clears_in _ _ _ Hcl (CObj c) (rtc_once _ _ (child_of_entry h1 o _ k l _ (CObj c) Ho1 Hkl Hl1 eq_refl))) as Hcc.
  simpl in Hcc. by rewrite Hcc, Hc1.
Qed.

(** ** Witness *)

(** Witness of C12: A = [{}] and B = [{"x": {"z": 2.0}}] under
    [Replace]; after the merge and a clear with fuel 3, B's inner object
    at 6 is empty. *)
Lemma unite_then_clear_empties_other_witness :
  exists h1 h2,
    @unite stdpp_order qmjson_array_unite 2 4 (Some 5%positive) QMJsonReplacementPolicy_Replace
      QMJsonArrayUnitePolicy_Append share_heap = Ok (tt, h1) /\
    @clear stdpp_order 3 4 h1 = Ok (tt, h2) /\
    h_objs share_heap !! 6%positive = Some {["z" := 7%positive]} /\
    h_objs h2 !! 5%positive = Some {["x" := 8%positive]} /\ h_objs h2 !! 6%positive = Some ∅.
Proof.
  destruct (@unite_then_clear_empties_other stdpp_order qmjson_array_unite share_heap 4 5 ∅ {["x" := 8%positive]}
              QMJsonReplacementPolicy_Replace QMJsonArrayUnitePolicy_Append 1 3 "x" 8 6)
    as (h1 & Hr1 & _ & _ & _ & Hclr);
    [apply wf_heap_check; vm_compute; reflexivity|discriminate|first [reflexivity|done]..|].
  destruct Hclr as (h2 & Hr2 & Hc); [vm_compute in Hr1; injection Hr1 as <-; vm_compute; reflexivity|].
  exists h1, h2. split_and!; [done|done|reflexivity| |done].
  vm_compute in Hr1; injection Hr1 as <-; vm_compute in Hr2; injection Hr2 as <-; reflexivity.
Defined.


(** Witness of C6: from the initial heap, construct an object (4) and
    insert a null handle under "a", which allocates a Null cell (5). *)
Lemma ops_preserve_invariant_witness :
  exists h, rtc (@op_step stdpp_order qmjson_array_unite) init_heap h /\
    h_objs h !! 4%positive = Some {["a" := 5%positive]} /\ wf_heap h /\ keys_nonempty h.
Proof.
  assert (Hp : exists h, rtc (@op_step stdpp_order qmjson_array_unite) init_heap h /\
                 h_objs h !! 4%positive = Some {["a" := 5%positive]}).
  { eexists. split.
    - eapply rtc_l; [eapply (step_construct _ 4%positive); reflexivity|].
      eapply rtc_l; [eapply (step_insert _ 4%positive "a" None QMJsonReplacementPolicy_Replace);
                     [discriminate|reflexivity]|].
      apply rtc_refl.
    - reflexivity. }
  destruct Hp as (h & Hp & Ho). exists h. do 2 (split; [done|]).
  apply (@ops_preserve_invariant stdpp_order qmjson_array_unite init_heap h); try exact Hp.
  all: first [apply wf_heap_check | apply (bool_decide_unpack _)]; vm_compute; reflexivity.
Defined.
